(** * CUR forwarder: key classification, path mapping, manifest expansion,
      partition repointing and the backfill sweep

    A shallow embedding of [modules/target/lambda/cur_forwarder.py] and
    [modules/target/scripts/bootstrap_partitions.py].

    A Python [str] is modelled by the [string] of the bytes of its UTF-8
    encoding.  The methods the code uses ([startswith], [endswith], [split],
    [lstrip], [rstrip], slicing after [startswith], comparison) act on the
    encoding as they act on the characters; the one place where characters
    matter is [\d], which matches one decimal digit of the Unicode database
    and so is decoded (module [Utf8]).  Dictionaries looked up by key are [gmap]s; the
    [TABLE_MAPPING] dictionary, which is iterated in declaration order, is an
    association list.  Calls to S3 and Glue act on an explicit [world]. *)

From Stdlib Require Import Ascii String.
From stdpp Require Import base option list sorting gmap strings fin_maps.

Local Open Scope stdpp_scope.

(** ** Python string methods *)

Module Str.

Definition slash : ascii := "/"%char.
Definition newline : ascii := "010"%char.

(** [len(s)] *)
Definition len (s : string) : nat := String.length s.

(** [s.startswith(p)] *)
Fixpoint startswith (s p : string) {struct p} : bool :=
  match p with
  | "" => true
  | String a p' =>
      match s with
      | "" => false
      | String b s' => if Ascii.eqb a b then startswith s' p' else false
      end
  end.

(** [s[n:]] *)
Fixpoint slice_from (n : nat) (s : string) : string :=
  match n with
  | 0 => s
  | S n' => match s with "" => "" | String _ s' => slice_from n' s' end
  end.

(** [s.endswith(p)] *)
Definition endswith (s p : string) : bool :=
  (len p <=? len s) && String.eqb (slice_from (len s - len p) s) p.

(** [s.lstrip(c)] for a single character [c] *)
Fixpoint lstrip (c : ascii) (s : string) : string :=
  match s with
  | "" => ""
  | String a s' => if Ascii.eqb a c then lstrip c s' else s
  end.

(** [s.rstrip(c)] for a single character [c] *)
Fixpoint rstrip (c : ascii) (s : string) : string :=
  match s with
  | "" => ""
  | String a s' =>
      match rstrip c s' with
      | "" => if Ascii.eqb a c then "" else String a ""
      | r => String a r
      end
  end.

(** [s.split(c)]: never empty, [''.split('/') == ['']] *)
Fixpoint split (c : ascii) (s : string) : list string :=
  match s with
  | "" => [""]
  | String a s' =>
      if Ascii.eqb a c then "" :: split c s'
      else match split c s' with
           | p :: ps => String a p :: ps
           | [] => [String a ""]
           end
  end.

(** [sep.join(parts)] *)
Fixpoint join (sep : string) (parts : list string) : string :=
  match parts with
  | [] => ""
  | [p] => p
  | p :: ps => p +:+ sep +:+ join sep ps
  end.

(** [l[i]] with Python's negative indices; [None] is [IndexError] *)
Definition index {A} (l : list A) (i : Z) : option A :=
  if (i <? 0)%Z
  then (if (- i <=? Z.of_nat (length l))%Z
        then l !! Z.to_nat (Z.of_nat (length l) + i) else None)
  else l !! Z.to_nat i.

(** truthiness of a string: [bool(s)] *)
Definition truthy (s : string) : bool :=
  match s with "" => false | _ => true end.

(** [s[:n]] *)
Fixpoint slice_to (n : nat) (s : string) : string :=
  match n with
  | 0 => ""
  | S n' => match s with "" => "" | String a s' => String a (slice_to n' s') end
  end.

(** [c in s] *)
Fixpoint has (c : ascii) (s : string) : bool :=
  match s with
  | "" => false
  | String a s' => Ascii.eqb a c || has c s'
  end.

(** [''.join(parts)] *)
Definition concat (parts : list string) : string := foldr String.append "" parts.

(** the key begins with the separator *)
Definition leading_slash (s : string) : bool := startswith s "/".

(** the key contains two separators in a row *)
Fixpoint doubled_slash (s : string) : bool :=
  match s with
  | "" => false
  | String a s' =>
      (Ascii.eqb a slash && leading_slash s') || doubled_slash s'
  end.

End Str.

(** ** Characters of a key

    One character of a [str] is one to four bytes of its encoding. *)

Module Utf8.

(** the six payload bits of a continuation byte [10xxxxxx] *)
Definition continuation (c : ascii) : option N :=
  let n := N_of_ascii c in
  if (128 <=? n)%N && (n <=? 191)%N then Some (n - 128)%N else None.

(** the code point of [ch], when [ch] is the encoding of one character
    (shortest form, no surrogate, at most U+10FFFF) *)
Definition decode (ch : string) : option N :=
  match ch with
  | String b "" =>
      let n := N_of_ascii b in
      if (n <? 128)%N then Some n else None
  | String b (String c1 "") =>
      let n := N_of_ascii b in
      if (194 <=? n)%N && (n <=? 223)%N then
        match continuation c1 with
        | Some x => Some ((n - 192) * 64 + x)%N
        | None => None
        end
      else None
  | String b (String c1 (String c2 "")) =>
      let n := N_of_ascii b in
      if (224 <=? n)%N && (n <=? 239)%N then
        match continuation c1, continuation c2 with
        | Some x, Some y =>
            let cp := ((n - 224) * 4096 + x * 64 + y)%N in
            if (2048 <=? cp)%N && negb ((55296 <=? cp)%N && (cp <=? 57343)%N)
            then Some cp else None
        | _, _ => None
        end
      else None
  | String b (String c1 (String c2 (String c3 ""))) =>
      let n := N_of_ascii b in
      if (240 <=? n)%N && (n <=? 244)%N then
        match continuation c1, continuation c2, continuation c3 with
        | Some x, Some y, Some z =>
            let cp := ((n - 240) * 262144 + x * 4096 + y * 64 + z)%N in
            if (65536 <=? cp)%N && (cp <=? 1114111)%N then Some cp else None
        | _, _, _ => None
        end
      else None
  | _ => None
  end.

(** the number of bytes of the character that the byte [b] begins *)
Definition width (b : ascii) : nat :=
  let n := N_of_ascii b in
  if (n <? 128)%N then 1
  else if (n <? 224)%N then 2
  else if (n <? 240)%N then 3
  else 4.

(** the first character of [s], with what follows it *)
Definition next (s : string) : option (N * string) :=
  match s with
  | "" => None
  | String b _ =>
      match decode (Str.slice_to (width b) s) with
      | Some cp => Some (cp, Str.slice_from (width b) s)
      | None => None
      end
  end.

(** [bytes.decode('utf-8', errors='replace')]: where no character begins,
    the decoder replaces the longest run of bytes that begins a character,
    one byte at least, by U+FFFD *)

(** [c] may follow the first byte [b] of a character of three or four bytes *)
Definition second_ok (b c : ascii) : bool :=
  let n := N_of_ascii b in
  let m := N_of_ascii c in
  if (n =? 224)%N then (160 <=? m)%N && (m <=? 191)%N
  else if (n =? 237)%N then (128 <=? m)%N && (m <=? 159)%N
  else if (n =? 240)%N then (144 <=? m)%N && (m <=? 191)%N
  else if (n =? 244)%N then (128 <=? m)%N && (m <=? 143)%N
  else (128 <=? m)%N && (m <=? 191)%N.

(** the number of bytes replaced at the start of [s] *)
Definition ill_formed_length (s : string) : nat :=
  match s with
  | String b (String c rest) =>
      let n := N_of_ascii b in
      if (224 <=? n)%N && (n <=? 244)%N && second_ok b c then
        if (240 <=? n)%N then
          match rest with
          | String d _ => if continuation d is Some _ then 3 else 2
          | "" => 2
          end
        else 2
      else 1
  | _ => 1
  end.

(** U+FFFD *)
Definition REPLACEMENT : string :=
  String "239" (String "191" (String "189" "")).

(** one step for each byte of [s] is enough: every step takes at least one *)
Fixpoint replace_errors (steps : nat) (s : string) : string :=
  match steps with
  | 0 => ""
  | S steps' =>
      match s with
      | "" => ""
      | String b _ =>
          match next s with
          | Some _ =>
              Str.slice_to (width b) s
              +:+ replace_errors steps' (Str.slice_from (width b) s)
          | None =>
              REPLACEMENT
              +:+ replace_errors steps' (Str.slice_from (ill_formed_length s) s)
          end
      end
  end.

Definition decode_replace (s : string) : string :=
  replace_errors (Str.len s) s.

End Utf8.

(** ** The two regular expressions of the key layout

    Both patterns are fixed-width sequences of [\d] and literal characters.
    [re.match(r'^...$', s)] lets [$] match before one trailing newline;
    [compiled.fullmatch(s)] does not.  The patterns are [str] patterns
    compiled without [re.ASCII], so [\d] matches every character of the
    category Nd (decimal digit) of the interpreter's Unicode database, not
    only [0-9]. *)

Module Re.

Inductive atom := Digit | Lit (c : ascii).

(** the decimal digits beyond ASCII: first and last code point of each run
    (Unicode 14.0, the database of CPython 3.11) *)
Definition DECIMAL_RANGES : list (N * N) := [
  (0x660, 0x669); (0x6f0, 0x6f9); (0x7c0, 0x7c9); (0x966, 0x96f);
  (0x9e6, 0x9ef); (0xa66, 0xa6f); (0xae6, 0xaef); (0xb66, 0xb6f);
  (0xbe6, 0xbef); (0xc66, 0xc6f); (0xce6, 0xcef); (0xd66, 0xd6f);
  (0xde6, 0xdef); (0xe50, 0xe59); (0xed0, 0xed9); (0xf20, 0xf29);
  (0x1040, 0x1049); (0x1090, 0x1099); (0x17e0, 0x17e9); (0x1810, 0x1819);
  (0x1946, 0x194f); (0x19d0, 0x19d9); (0x1a80, 0x1a89); (0x1a90, 0x1a99);
  (0x1b50, 0x1b59); (0x1bb0, 0x1bb9); (0x1c40, 0x1c49); (0x1c50, 0x1c59);
  (0xa620, 0xa629); (0xa8d0, 0xa8d9); (0xa900, 0xa909); (0xa9d0, 0xa9d9);
  (0xa9f0, 0xa9f9); (0xaa50, 0xaa59); (0xabf0, 0xabf9); (0xff10, 0xff19);
  (0x104a0, 0x104a9); (0x10d30, 0x10d39); (0x11066, 0x1106f);
  (0x110f0, 0x110f9); (0x11136, 0x1113f); (0x111d0, 0x111d9);
  (0x112f0, 0x112f9); (0x11450, 0x11459); (0x114d0, 0x114d9);
  (0x11650, 0x11659); (0x116c0, 0x116c9); (0x11730, 0x11739);
  (0x118e0, 0x118e9); (0x11950, 0x11959); (0x11c50, 0x11c59);
  (0x11d50, 0x11d59); (0x11da0, 0x11da9); (0x16a60, 0x16a69);
  (0x16ac0, 0x16ac9); (0x16b50, 0x16b59); (0x1d7ce, 0x1d7ff);
  (0x1e140, 0x1e149); (0x1e2f0, 0x1e2f9); (0x1e950, 0x1e959);
  (0x1fbf0, 0x1fbf9)
]%N.

(** [\d] on the character with code point [cp] *)
Definition is_digit (cp : N) : bool :=
  ((48 <=? cp)%N && (cp <=? 57)%N)
  || existsb (λ r : N * N, (r.1 <=? cp)%N && (cp <=? r.2)%N) DECIMAL_RANGES.

(** consume the pattern at the start of [s]; the result is what is left *)
Fixpoint consume (p : list atom) (s : string) : option string :=
  match p with
  | [] => Some s
  | Digit :: p' =>
      match Utf8.next s with
      | Some (cp, s') => if is_digit cp then consume p' s' else None
      | None => None
      end
  | Lit x :: p' =>
      match s with
      | "" => None
      | String c s' => if Ascii.eqb x c then consume p' s' else None
      end
  end.

(** [re.match('^' + p + '$', s)] *)
Definition match_anchored (p : list atom) (s : string) : bool :=
  match consume p s with
  | Some "" => true
  | Some (String c "") => Ascii.eqb c Str.newline
  | _ => false
  end.

(** [re.compile(p).fullmatch(s)] *)
Definition fullmatch (p : list atom) (s : string) : bool :=
  match consume p s with
  | Some "" => true
  | _ => false
  end.

(** [\d{8}-\d{8}] *)
Definition BILLING_PERIOD : list atom :=
  replicate 8 Digit ++ [Lit "-"%char] ++ replicate 8 Digit.

(** [\d{8}T\d{6}Z] *)
Definition ASSEMBLY : list atom :=
  replicate 8 Digit ++ [Lit "T"%char] ++ replicate 6 Digit ++ [Lit "Z"%char].

End Re.

(** ** Key classifier (cur_forwarder.py) *)

Definition is_assembly_manifest (key : string) : bool :=
  if negb (Str.endswith key "Manifest.json") then false
  else
    let parts := Str.split Str.slash key in
    if length parts <? 3 then false
    else match Str.index parts (-2) with
         | Some parent => Re.match_anchored Re.ASSEMBLY parent
         | None => false
         end.

Definition is_assembly_data_file (key : string) : bool :=
  if negb (Str.endswith key ".csv.gz") then false
  else
    let parts := Str.split Str.slash key in
    if length parts <? 3 then false
    else match Str.index parts (-2) with
         | Some parent => Re.match_anchored Re.ASSEMBLY parent
         | None => false
         end.

(** ** Path mapper (cur_forwarder.py)

    [prefix_config] is the dictionary stored under the source bucket in
    [PREFIX_MAPPING]. *)

Definition calculate_destination_key
    (source_key : string) (prefix_config : gmap string string) : string :=
  let source_prefix := default "" (prefix_config !! "source_prefix") in
  let destination_prefix := default "" (prefix_config !! "destination_prefix") in
  let relative_key :=
    if Str.truthy source_prefix && Str.startswith source_key source_prefix
    then Str.lstrip Str.slash (Str.slice_from (Str.len source_prefix) source_key)
    else source_key in
  if Str.truthy destination_prefix
  then Str.rstrip Str.slash destination_prefix +:+ "/" +:+ relative_key
  else relative_key.

Definition rule (source_prefix destination_prefix : string) : gmap string string :=
  {[ "source_prefix" := source_prefix; "destination_prefix" := destination_prefix ]}.

(** [urllib.parse.unquote_plus]: [+] becomes a space; then [unquote] turns
    every [%XY] with two hexadecimal digits into the byte it names, keeps a
    [%] not followed by two hexadecimal digits, and decodes the bytes as
    UTF-8 with [errors='replace']. *)

Definition hex_digit (c : ascii) : option nat :=
  let n := nat_of_ascii c in
  if (48 <=? n) && (n <=? 57) then Some (n - 48)
  else if (65 <=? n) && (n <=? 70) then Some (n - 55)
  else if (97 <=? n) && (n <=? 102) then Some (n - 87)
  else None.

Fixpoint unquote_to_bytes (s : string) : string :=
  match s with
  | "" => ""
  | String c s' =>
      if Ascii.eqb c "%"%char then
        match s' with
        | String h (String l rest) =>
            match hex_digit h, hex_digit l with
            | Some a, Some b =>
                String (ascii_of_nat (16 * a + b)) (unquote_to_bytes rest)
            | _, _ => String c (unquote_to_bytes s')
            end
        | _ => String c (unquote_to_bytes s')
        end
      else String c (unquote_to_bytes s')
  end.

Definition unquote (s : string) : string :=
  Utf8.decode_replace (unquote_to_bytes s).

Fixpoint plus_to_space (s : string) : string :=
  match s with
  | "" => ""
  | String c s' =>
      String (if Ascii.eqb c "+"%char then " "%char else c) (plus_to_space s')
  end.

Definition unquote_plus (s : string) : string := unquote (plus_to_space s).

(** ** The services: S3 and the Glue catalog

    A [world] holds the objects of every bucket, the catalog, and the log of
    the service calls made so far (oldest first).  What a call answers is
    decided by the world, except for the failures listed in [faults]
    (permissions, transport), which are fixed per argument. *)

Inductive exn :=
  | ClientError (code : string)   (* botocore.exceptions.ClientError, by Error.Code *)
  | Exception (name : string).    (* any other subclass of Exception *)

Inductive outcome (A : Type) :=
  | Returns (a : A)
  | Raises (e : exn).
Arguments Returns {A} a.
Arguments Raises {A} e.

(** the body of an object, as [copy_manifest_data_files] reads it:
    - [ManifestJson keys]: a JSON object; [keys] is [None] when it has no
      [reportKeys], and else the strings that iterating over the value of
      [reportKeys] yields ([Some []] for every value that is falsy); the
      items of a list are taken to be strings, as in the manifests that the
      Cost and Usage Report writes;
    - [Bytes data]: bytes that are not UTF-8 or not JSON, so that
      [json.loads] raises;
    - [JsonValue]: JSON that is not an object (a list, a string, a number,
      [true], [false], [null]), so that [manifest.get] raises
      [AttributeError];
    - [KeysNotIterable]: a JSON object whose [reportKeys] is [true] or a
      number other than zero, so that [len(report_keys)] raises
      [TypeError]. *)
Inductive content :=
  | ManifestJson (report_keys : option (list string))
  | Bytes (data : string)
  | JsonValue
  | KeysNotIterable.

Abbreviation storage_descriptor := (gmap string string).

Inductive call :=
  | S3GetObject (bucket key : string)
  | S3HeadObject (bucket key : string)
  | S3CopyObject (src_bucket src_key dst_bucket dst_key : string)
  | S3ListObjectsV2 (bucket prefix : string) (max_keys : option nat)
  | GlueGetTable (database name : string)
  | GlueUpdatePartition (database table : string) (values : list string)
                        (sd : storage_descriptor)
  | GlueCreatePartition (database table : string) (values : list string)
                        (sd : storage_descriptor).

(** a service call with how it ended: [None] when it returned, [Some e] when
    it raised [e] *)
Definition event : Type := call * option exn.

Record world := {
  objects : gmap string (gmap string content);
  tables : gmap (string * string) (gmap string string);
  partitions : gmap (string * string * list string) (gmap string string);
  calls : list event;
}.

Record faults := {
  get_object_fault : string → string → option exn;
  head_object_fault : string → string → option exn;
  copy_object_fault : string → string → string → string → option exn;
  list_objects_fault : string → string → option exn;
  get_table_fault : string → string → option exn;
  update_partition_fault : string → string → list string → option exn;
  create_partition_fault : string → string → list string → option exn;
}.

Definition no_faults : faults := {|
  get_object_fault := λ _ _, None;
  head_object_fault := λ _ _, None;
  copy_object_fault := λ _ _ _ _, None;
  list_objects_fault := λ _ _, None;
  get_table_fault := λ _ _, None;
  update_partition_fault := λ _ _ _, None;
  create_partition_fault := λ _ _ _, None;
|}.

(** Computations that act on the world and return or raise. *)
Definition M (A : Type) : Type := world → world * outcome A.

Definition ret {A} (a : A) : M A := λ w, (w, Returns a).
Definition raise {A} (e : exn) : M A := λ w, (w, Raises e).
Definition bind {A B} (m : M A) (k : A → M B) : M B :=
  λ w, match m w with
       | (w', Returns a) => k a w'
       | (w', Raises e) => (w', Raises e)
       end.

Notation "'let*' x ':=' m 'in' k" := (bind m (λ x, k))
  (at level 10, x name, m at level 100, k at level 200, only parsing).

Definition log (c : call) (err : option exn) (w : world) : world :=
  {| objects := objects w; tables := tables w; partitions := partitions w;
     calls := calls w ++ [(c, err)] |}.

(** a call that changes nothing: log it and answer *)
Definition answer {A} (c : call) (r : outcome A) : M A :=
  λ w, (log c (match r with Returns _ => None | Raises e => Some e end) w, r).

Definition bucket_of (w : world) (bucket : string) : gmap string content :=
  default ∅ (objects w !! bucket).

Definition put_object (bucket key : string) (body : content) (w : world) : world :=
  {| objects := <[bucket := <[key := body]> (bucket_of w bucket)]> (objects w);
     tables := tables w; partitions := partitions w; calls := calls w |}.

Definition put_partition (database table : string) (values : list string)
    (sd : storage_descriptor) (w : world) : world :=
  {| objects := objects w; tables := tables w;
     partitions := <[(database, table, values) := sd]> (partitions w);
     calls := calls w |}.

(** the calls made between two worlds *)
Definition new_calls (w w' : world) : list event :=
  drop (length (calls w)) (calls w').

Module S3.

(** keys of a bucket under a prefix, in the order S3 lists them *)
Definition keys_under (w : world) (bucket prefix : string) : list string :=
  merge_sort String.le
    (filter (λ k, Str.startswith k prefix = true)
            (elements (dom (bucket_of w bucket)))).

Definition get_object (flt : faults) (bucket key : string) : M content :=
  λ w, answer (S3GetObject bucket key)
         match get_object_fault flt bucket key with
         | Some e => Raises e
         | None =>
             match bucket_of w bucket !! key with
             | Some body => Returns body
             | None => Raises (ClientError "NoSuchKey")
             end
         end w.

Definition head_object (flt : faults) (bucket key : string) : M unit :=
  λ w, answer (S3HeadObject bucket key)
         match head_object_fault flt bucket key with
         | Some e => Raises e
         | None =>
             match bucket_of w bucket !! key with
             | Some _ => Returns ()
             | None => Raises (ClientError "404")
             end
         end w.

Definition copy_object (flt : faults)
    (src_bucket src_key dst_bucket dst_key : string) : M unit :=
  λ w, let c := S3CopyObject src_bucket src_key dst_bucket dst_key in
       match copy_object_fault flt src_bucket src_key dst_bucket dst_key with
       | Some e => answer c (Raises e) w
       | None =>
           match bucket_of w src_bucket !! src_key with
           | Some body =>
               answer c (Returns ()) (put_object dst_bucket dst_key body w)
           | None => answer c (Raises (ClientError "NoSuchKey")) w
           end
       end.

(** the keys of [response.get('Contents', [])]; [max_keys = None] is the
    paginator, which walks every page *)
Definition list_objects_v2 (flt : faults) (bucket prefix : string)
    (max_keys : option nat) : M (list string) :=
  λ w, answer (S3ListObjectsV2 bucket prefix max_keys)
         match list_objects_fault flt bucket prefix with
         | Some e => Raises e
         | None =>
             let keys := keys_under w bucket prefix in
             Returns (match max_keys with
                      | Some n => take n keys
                      | None => keys
                      end)
         end w.

End S3.

Module Glue.

Definition get_table (flt : faults) (database name : string)
    : M storage_descriptor :=
  λ w, answer (GlueGetTable database name)
         match get_table_fault flt database name with
         | Some e => Raises e
         | None =>
             match tables w !! (database, name) with
             | Some sd => Returns sd
             | None => Raises (ClientError "EntityNotFoundException")
             end
         end w.

Definition update_partition (flt : faults) (database table : string)
    (values : list string) (sd : storage_descriptor) : M unit :=
  λ w, let c := GlueUpdatePartition database table values sd in
       match update_partition_fault flt database table values with
       | Some e => answer c (Raises e) w
       | None =>
           match partitions w !! (database, table, values) with
           | Some _ =>
               answer c (Returns ()) (put_partition database table values sd w)
           | None => answer c (Raises (ClientError "EntityNotFoundException")) w
           end
       end.

Definition create_partition (flt : faults) (database table : string)
    (values : list string) (sd : storage_descriptor) : M unit :=
  λ w, let c := GlueCreatePartition database table values sd in
       match create_partition_fault flt database table values with
       | Some e => answer c (Raises e) w
       | None =>
           match partitions w !! (database, table, values) with
           | Some _ => answer c (Raises (ClientError "AlreadyExistsException")) w
           | None =>
               answer c (Returns ()) (put_partition database table values sd w)
           end
       end.

End Glue.

(** ** The Lambda function (cur_forwarder.py) *)

(** The environment of the function.  [DESTINATION_BUCKET] and
    [GLUE_DATABASE] are [""] when the variable is unset: the code only tests
    their truthiness before use. *)
Record config := {
  DESTINATION_BUCKET : string;
  PREFIX_MAPPING : gmap string (gmap string string);
  GLUE_DATABASE : string;
  TABLE_MAPPING : list (string * string);
}.

(** One S3 notification; a field is [None] when the record lacks it
    (the subscript raises [KeyError]). *)
Record s3_record := {
  bucket_name : option string;   (* record['s3']['bucket']['name'] *)
  object_key : option string;    (* record['s3']['object']['key'], still quoted *)
}.

(** A record of the event: a direct S3 notification, or an SNS envelope whose
    [Message] parses to a list of S3 notifications ([None]: it does not
    parse). *)
Inductive record :=
  | Direct (r : s3_record)
  | Sns (message : option (list s3_record)).

Record file_result := {
  source : string;
  destination : string;
  copied_data_files : option nat;
}.

Record response := {
  statusCode : nat;
  processed : nat;
  errors : nat;
  files : list file_result;
  error_details : option (list exn);
}.

Section Lambda.

Variable cfg : config.
Variable flt : faults.

Definition copy_object (source_bucket source_key dest_bucket dest_key : string)
    : M unit :=
  (* except ClientError: log and re-raise *)
  S3.copy_object flt source_bucket source_key dest_bucket dest_key.

(** the loop over [report_keys] of [copy_manifest_data_files] *)
Fixpoint copy_report_keys (source_bucket : string)
    (prefix_config : gmap string string)
    (report_keys : list string) (copied : list string) : M (list string) :=
  match report_keys with
  | [] => ret copied
  | report_key :: rest =>
      let dest_key := calculate_destination_key report_key prefix_config in
      λ w,
        match S3.head_object flt (DESTINATION_BUCKET cfg) dest_key w with
        | (w1, Returns _) =>
            (* already exists, skipping *)
            copy_report_keys source_bucket prefix_config rest
                             (copied ++ [dest_key]) w1
        | (w1, Raises (ClientError _)) =>
            match copy_object source_bucket report_key
                              (DESTINATION_BUCKET cfg) dest_key w1 with
            | (w2, Returns _) =>
                copy_report_keys source_bucket prefix_config rest
                                 (copied ++ [dest_key]) w2
            | (w2, Raises _) =>
                copy_report_keys source_bucket prefix_config rest copied w2
            end
        | (w1, Raises e) => (w1, Raises e)
        end
  end.

Definition copy_manifest_data_files (source_bucket manifest_source_key : string)
    (prefix_config : gmap string string) : M (list string) :=
  λ w,
    match S3.get_object flt source_bucket manifest_source_key w with
    | (w1, Raises _) => (w1, Returns [])
    | (w1, Returns (Bytes _)) => (w1, Returns [])        (* json.loads raises *)
    (* outside the try: *)
    | (w1, Returns JsonValue) => (w1, Raises (Exception "AttributeError"))
    | (w1, Returns KeysNotIterable) => (w1, Raises (Exception "TypeError"))
    | (w1, Returns (ManifestJson keys)) =>
        match default [] keys with
        | [] => (w1, Returns [])
        | report_keys =>
            copy_report_keys source_bucket prefix_config report_keys [] w1
        end
    end.

Fixpoint resolve_table_name_in (mapping : list (string * string)) (key : string)
    : option string :=
  match mapping with
  | [] => None
  | (prefix, table_name) :: rest =>
      if Str.startswith key prefix then Some table_name
      else resolve_table_name_in rest key
  end.

Definition resolve_table_name (key : string) : option string :=
  resolve_table_name_in (TABLE_MAPPING cfg) key.

(** the [enumerate] loop: the first segment that is a billing period, with
    the index after it *)
Fixpoint first_billing_period (parts : list string) (i : nat)
    : option (string * nat) :=
  match parts with
  | [] => None
  | part :: rest =>
      if Re.match_anchored Re.BILLING_PERIOD part then Some (part, i + 1)
      else first_billing_period rest (S i)
  end.

(** the list comprehension over the listing response *)
Definition data_files_of (keys : list string) : list string :=
  filter (λ k, Str.endswith k ".csv.gz" = true) keys.

(** lines 346-364 of [update_athena_partition]: try update first, create
    if not found *)
Definition update_or_create (table_name billing_period : string)
    (partition_input : storage_descriptor) : M unit :=
  λ w,
    match Glue.update_partition flt (GLUE_DATABASE cfg) table_name
            [billing_period] partition_input w with
    | (w1, Returns _) => (w1, Returns ())
    | (w1, Raises (ClientError code)) =>
        if String.eqb code "EntityNotFoundException"
        then Glue.create_partition flt (GLUE_DATABASE cfg) table_name
               [billing_period] partition_input w1
        else (w1, Raises (ClientError code))
    | (w1, Raises e) => (w1, Raises e)
    end.

Definition update_athena_partition (bucket manifest_key : string) : M unit :=
  match resolve_table_name manifest_key with
  | None => ret ()
  | Some table_name =>
      if negb (Str.truthy table_name) then ret () else
      let parts := Str.split Str.slash manifest_key in
      match first_billing_period parts 0 with
      | None => ret ()
      | Some (billing_period, assembly_index) =>
          if negb (Str.truthy billing_period)
             || (length parts <=? assembly_index) then ret () else
          let partition_path := Str.join "/" (take (assembly_index + 1) parts) in
          let partition_location :=
            "s3://" +:+ bucket +:+ "/" +:+ partition_path +:+ "/" in
          let assembly_prefix := partition_path +:+ "/" in
          let* keys := S3.list_objects_v2 flt bucket assembly_prefix (Some 20) in
          match data_files_of keys with
          | [] => ret ()
          | _ :: _ =>
              let* sd0 := Glue.get_table flt (GLUE_DATABASE cfg) table_name in
              let sd := <["Location" := partition_location]> sd0 in
              update_or_create table_name billing_period sd
          end
      end
  end.

(** lines 93-117 of [process_record]: decode the record, map the key, and
    copy (or expand the manifest); returns what the rest of the function
    uses *)
Definition copy_stage (r : s3_record)
    : M (string * string * string * list string) :=
  match bucket_name r, object_key r with
  | Some source_bucket, Some quoted_key =>
      let source_key := unquote_plus quoted_key in
      let prefix_config :=
        let found := default ∅ (PREFIX_MAPPING cfg !! source_bucket) in
        if decide (found = ∅) then rule "" "" else found in
      let destination_key := calculate_destination_key source_key prefix_config in
      if is_assembly_manifest destination_key then
        let* copied_data_files :=
          copy_manifest_data_files source_bucket source_key prefix_config in
        ret (source_bucket, source_key, destination_key, copied_data_files)
      else
        let* _ := copy_object source_bucket source_key
                              (DESTINATION_BUCKET cfg) destination_key in
        ret (source_bucket, source_key, destination_key, [])
  | _, _ => raise (Exception "KeyError")
  end.

(** lines 124-136: the best-effort partition update; an exception of
    [update_athena_partition] is logged and dropped *)
Definition partition_stage (destination_key : string) : M unit :=
  if Str.truthy (GLUE_DATABASE cfg) then
    let partition_key :=
      if is_assembly_manifest destination_key then Some destination_key
      else if is_assembly_data_file destination_key then Some destination_key
      else None in
    match partition_key with
    | Some key =>
        if Str.truthy key then
          λ w, match update_athena_partition (DESTINATION_BUCKET cfg) key w with
               | (w1, _) => (w1, Returns ())
               end
        else ret ()
    | None => ret ()
    end
  else ret ().

Definition process_record (r : s3_record) : M file_result :=
  let* copied_to := copy_stage r in
  let '(source_bucket, source_key, destination_key, copied) := copied_to in
  let* _ := partition_stage destination_key in
  ret {| source := "s3://" +:+ source_bucket +:+ "/" +:+ source_key;
         destination :=
           "s3://" +:+ DESTINATION_BUCKET cfg +:+ "/" +:+ destination_key;
         copied_data_files :=
           match copied with [] => None | _ => Some (length copied) end |}.

End Lambda.

Section Handler.

Variable cfg : config.
Variable flt : faults.

(** the inner loop over the S3 records of one SNS message: results are
    appended to [processed_files] as they come; the first exception leaves
    the loop with what was appended so far *)
Fixpoint process_sns_records (s3_records : list s3_record)
    (processed_files : list file_result) (w : world)
    : world * (list file_result * option exn) :=
  match s3_records with
  | [] => (w, (processed_files, None))
  | s3_record :: rest =>
      match process_record cfg flt s3_record w with
      | (w1, Returns result) =>
          process_sns_records rest (processed_files ++ [result]) w1
      | (w1, Raises e) => (w1, (processed_files, Some e))
      end
  end.

(** the body of the [try] for one record of the event *)
Definition try_record (r : record) (processed_files : list file_result)
    (w : world) : world * (list file_result * option exn) :=
  match r with
  | Sns None => (w, (processed_files, Some (Exception "JSONDecodeError")))
  | Sns (Some s3_records) => process_sns_records s3_records processed_files w
  | Direct s3_record =>
      match process_record cfg flt s3_record w with
      | (w1, Returns result) => (w1, (processed_files ++ [result], None))
      | (w1, Raises e) => (w1, (processed_files, Some e))
      end
  end.

(** the loop over [event.get('Records', [])] *)
Fixpoint handle_records (records : list record)
    (processed_files : list file_result) (errors : list exn) (w : world)
    : world * (list file_result * list exn) :=
  match records with
  | [] => (w, (processed_files, errors))
  | r :: rest =>
      match try_record r processed_files w with
      | (w1, (processed_files1, None)) =>
          handle_records rest processed_files1 errors w1
      | (w1, (processed_files1, Some e)) =>
          handle_records rest processed_files1 (errors ++ [e]) w1
      end
  end.

Definition handler (event : list record) : M response :=
  if negb (Str.truthy (DESTINATION_BUCKET cfg))
  then raise (Exception "ValueError")
  else λ w,
    match handle_records event [] [] w with
    | (w1, (processed_files, errors)) =>
        (w1, Returns {|
           statusCode := match errors with [] => 200 | _ => 207 end;
           processed := length processed_files;
           errors := length errors;
           files := processed_files;
           error_details := match errors with [] => None | _ => Some errors end
         |})
    end.

End Handler.

(** ** The manifest lookup (cur_forwarder.py) *)

Module StrMore.

(** what comes before the last [c] of [s]; [None] when [s] has no [c] *)
Fixpoint before_last (c : ascii) (s : string) : option string :=
  match s with
  | "" => None
  | String a s' =>
      match before_last c s' with
      | Some r => Some (String a r)
      | None => if Ascii.eqb a c then Some "" else None
      end
  end.

(** [s.rsplit(c, 1)[0]] *)
Definition rsplit1_head (c : ascii) (s : string) : string :=
  default s (before_last c s).

End StrMore.

(** the loop of [find_assembly_manifest]: the first listed key that ends
    with [Manifest.json] *)
Fixpoint first_manifest (keys : list string) : option string :=
  match keys with
  | [] => None
  | key :: rest =>
      if Str.endswith key "Manifest.json" then Some key
      else first_manifest rest
  end.

Definition find_assembly_manifest (flt : faults) (bucket data_file_key : string)
    : M (option string) :=
  let assembly_prefix := StrMore.rsplit1_head Str.slash data_file_key +:+ "/" in
  let* keys := S3.list_objects_v2 flt bucket assembly_prefix (Some 50) in
  ret (first_manifest keys).

(** ** The backfill script (bootstrap_partitions.py) *)

Module Bootstrap.

Record settings := {
  BUCKET : string;
  GLUE_DATABASE : string;
  ACCOUNTS : list (string * string);   (* prefix -> table, in declared order *)
}.

(** [sorted(assemblies, key=lambda x: x[0])]: stable, by assembly id *)
Fixpoint insert_by_id (x : string * string) (l : list (string * string))
    : list (string * string) :=
  match l with
  | [] => [x]
  | y :: l' => if String.ltb x.1 y.1 then x :: l else y :: insert_by_id x l'
  end.

Definition sorted_by_id (l : list (string * string)) : list (string * string) :=
  foldl (λ acc x, insert_by_id x acc) [] l.

(** the scan of the segments for the first billing period; [i] is the index
    of the segment at the head of [rest] *)
Fixpoint first_period_index (rest : list string) (i : nat) : option (nat * string) :=
  match rest with
  | [] => None
  | part :: rest' =>
      if Re.fullmatch Re.BILLING_PERIOD part then Some (i, part)
      else first_period_index rest' (S i)
  end.

(** the body of the loop over the listed objects *)
Definition scan_key (key : string)
    (acc : gmap string (list (string * string)) * gmap string string)
    : gmap string (list (string * string)) * gmap string string :=
  let '(versioned, flat) := acc in
  let parts := Str.split Str.slash key in
  match first_period_index parts 0 with
  | None => (versioned, flat)
  | Some (i, billing_period) =>
      let period_path := Str.join "/" (take (i + 1) parts) in
      match parts !! (i + 1) with
      | Some next =>
          if Re.fullmatch Re.ASSEMBLY next then
            let assembly_path := Str.join "/" (take (i + 2) parts) in
            (<[billing_period :=
                 default [] (versioned !! billing_period)
                 ++ [(next, assembly_path)]]> versioned, flat)
          else if Str.endswith key ".csv.gz"
          then (versioned, <[billing_period := period_path]> flat)
          else (versioned, flat)
      | None =>
          if Str.endswith key ".csv.gz"
          then (versioned, <[billing_period := period_path]> flat)
          else (versioned, flat)
      end
  end.

(** the second loop: prefer the latest assembly, fall back to flat *)
Definition choose (versioned : gmap string (list (string * string)))
    (flat : gmap string string) (period : string)
    (result : gmap string (string * string)) : gmap string (string * string) :=
  match versioned !! period with
  | Some assemblies =>
      match last (sorted_by_id assemblies) with
      | Some latest => <[period := latest]> result
      | None => result   (* IndexError: a listed period has an assembly *)
      end
  | None =>
      match flat !! period with
      | Some path => <[period := ("flat", path)]> result
      | None => result
      end
  end.

Section Script.

Variable env : settings.
Variable flt : faults.

Definition find_partitions (prefix : string)
    : M (gmap string (string * string)) :=
  let* keys := S3.list_objects_v2 flt (BUCKET env) prefix None in
  let '(versioned, flat) := foldl (λ acc key, scan_key key acc) (∅, ∅) keys in
  let all_periods : gset string := dom versioned ∪ dom flat in
  ret (set_fold (choose versioned flat) ∅ all_periods).

Definition create_or_update_partition
    (table_name billing_period location : string) : M string :=
  let* sd0 := Glue.get_table flt (GLUE_DATABASE env) table_name in
  let sd := <["Location" := location]> sd0 in
  λ w,
    match Glue.update_partition flt (GLUE_DATABASE env) table_name
            [billing_period] sd w with
    | (w1, Returns _) => (w1, Returns "updated")
    | (w1, Raises (ClientError code)) =>
        if String.eqb code "EntityNotFoundException"
        then match Glue.create_partition flt (GLUE_DATABASE env) table_name
                     [billing_period] sd w1 with
             | (w2, Returns _) => (w2, Returns "created")
             | (w2, Raises e) => (w2, Raises e)
             end
        else (w1, Raises (ClientError code))
    | (w1, Raises e) => (w1, Raises e)
    end.

(** the loop over [sorted(partitions.keys())] *)
Fixpoint repoint_all (table_name : string)
    (partitions : gmap string (string * string)) (periods : list string)
    : M unit :=
  match periods with
  | [] => ret ()
  | period :: rest =>
      match partitions !! period with
      | Some (label, partition_path) =>
          let location :=
            "s3://" +:+ BUCKET env +:+ "/" +:+ partition_path +:+ "/" in
          let* _ := create_or_update_partition table_name period location in
          repoint_all table_name partitions rest
      | None => raise (Exception "KeyError")
      end
  end.

Fixpoint sweep (accounts : list (string * string)) : M unit :=
  match accounts with
  | [] => ret ()
  | (prefix, table_name) :: rest =>
      let* partitions := find_partitions prefix in
      let* _ := repoint_all table_name partitions
                  (merge_sort String.le (elements (dom partitions))) in
      sweep rest
  end.

Definition main : M unit :=
  match ACCOUNTS env with
  | [] => ret ()
  | accounts => sweep accounts
  end.

End Script.

End Bootstrap.

(** The path mapper as the specification words it: the prefix is stripped
    whenever the key starts with it, the empty prefix included. *)
Definition path_mapper_as_specified
    (key source_prefix destination_prefix : string) : string :=
  let relative_key :=
    if Str.startswith key source_prefix
    then Str.lstrip Str.slash (Str.slice_from (Str.len source_prefix) key)
    else key in
  if Str.truthy destination_prefix
  then Str.rstrip Str.slash destination_prefix +:+ "/" +:+ relative_key
  else relative_key.

(** joining the destination prefix and a relative key *)
Definition join_prefix (destination_prefix relative_key : string) : string :=
  match destination_prefix with
  | "" => relative_key
  | _ => Str.rstrip Str.slash destination_prefix +:+ "/" +:+ relative_key
  end.

(** the key ends with the separator *)
Fixpoint trailing_slash (s : string) : bool :=
  match s with
  | "" => false
  | String a "" => Ascii.eqb a Str.slash
  | String _ s' => trailing_slash s'
  end.

Definition is_partition_write (c : call) : bool :=
  match c with
  | GlueUpdatePartition _ _ _ _ | GlueCreatePartition _ _ _ _ => true
  | _ => false
  end.

Definition is_copy (c : call) : bool :=
  match c with
  | S3CopyObject _ _ _ _ => true
  | _ => false
  end.

(** how a logged ending reads as an outcome *)
Definition outcome_of (err : option exn) : outcome unit :=
  match err with
  | None => Returns ()
  | Some e => Raises e
  end.

(** the early returns of [update_athena_partition]: the table, the billing
    period and the folder the partition would point to *)
Definition repoint_target (cfg : config) (key : string)
    : option (string * string * string) :=
  match resolve_table_name cfg key with
  | None => None
  | Some table_name =>
      if negb (Str.truthy table_name) then None else
      let parts := Str.split Str.slash key in
      match first_billing_period parts 0 with
      | None => None
      | Some (billing_period, assembly_index) =>
          if negb (Str.truthy billing_period) || (length parts <=? assembly_index)
          then None
          else Some (table_name, billing_period,
                     Str.join "/" (take (assembly_index + 1) parts))
      end
  end.

(** ** Traces of the partition repoint, for stating what it did *)

(** what the update-then-create block logs, and how it ends *)
Inductive update_trace (database table bp : string) (sd : storage_descriptor)
    : list event → outcome unit → Prop :=
  | updated :
      update_trace database table bp sd
        [(GlueUpdatePartition database table [bp] sd, None)] (Returns ())
  | created err :
      update_trace database table bp sd
        [(GlueUpdatePartition database table [bp] sd,
          Some (ClientError "EntityNotFoundException"));
         (GlueCreatePartition database table [bp] sd, err)]
        (outcome_of err)
  | update_failed e :
      e ≠ ClientError "EntityNotFoundException" →
      update_trace database table bp sd
        [(GlueUpdatePartition database table [bp] sd, Some e)] (Raises e).

(** what [update_athena_partition] logs from world [w], and how it ends *)
Inductive repoint_trace (cfg : config) (bucket key : string) (w : world)
    : list event → outcome unit → Prop :=
  | skipped :
      repoint_target cfg key = None →
      repoint_trace cfg bucket key w [] (Returns ())
  | listing_failed table bp path e :
      repoint_target cfg key = Some (table, bp, path) →
      repoint_trace cfg bucket key w
        [(S3ListObjectsV2 bucket (path +:+ "/") (Some 20), Some e)] (Raises e)
  | gate_closed table bp path :
      repoint_target cfg key = Some (table, bp, path) →
      data_files_of (take 20 (S3.keys_under w bucket (path +:+ "/"))) = [] →
      repoint_trace cfg bucket key w
        [(S3ListObjectsV2 bucket (path +:+ "/") (Some 20), None)] (Returns ())
  | table_failed table bp path e :
      repoint_target cfg key = Some (table, bp, path) →
      repoint_trace cfg bucket key w
        [(S3ListObjectsV2 bucket (path +:+ "/") (Some 20), None);
         (GlueGetTable (GLUE_DATABASE cfg) table, Some e)] (Raises e)
  | repointed table bp path k sd0 trace r :
      repoint_target cfg key = Some (table, bp, path) →
      k ∈ data_files_of (take 20 (S3.keys_under w bucket (path +:+ "/"))) →
      update_trace (GLUE_DATABASE cfg) table bp
        (<["Location" := "s3://" +:+ bucket +:+ "/" +:+ path +:+ "/"]> sd0)
        trace r →
      repoint_trace cfg bucket key w
        ([(S3ListObjectsV2 bucket (path +:+ "/") (Some 20), None);
          (GlueGetTable (GLUE_DATABASE cfg) table, None)] ++ trace) r.

(** ** Traces of the manifest expansion *)

(** the object is in the destination bucket *)
Definition present (cfg : config) (w : world) (key : string) : Prop :=
  is_Some (bucket_of w (DESTINATION_BUCKET cfg) !! key).

(** what the loop of [copy_manifest_data_files] logs for one report key, and
    the destination key it appends to [copied], if any *)
Inductive file_trace (cfg : config) (source_bucket report_key dest_key : string)
    : list event → option string → Prop :=
  | verified :
      file_trace cfg source_bucket report_key dest_key
        [(S3HeadObject (DESTINATION_BUCKET cfg) dest_key, None)]
        (Some dest_key)
  | copied code :
      file_trace cfg source_bucket report_key dest_key
        [(S3HeadObject (DESTINATION_BUCKET cfg) dest_key,
          Some (ClientError code));
         (S3CopyObject source_bucket report_key (DESTINATION_BUCKET cfg)
            dest_key, None)]
        (Some dest_key)
  | copy_failed code e :
      file_trace cfg source_bucket report_key dest_key
        [(S3HeadObject (DESTINATION_BUCKET cfg) dest_key,
          Some (ClientError code));
         (S3CopyObject source_bucket report_key (DESTINATION_BUCKET cfg)
            dest_key, Some e)]
        None.

(** ** A concrete deployment, for the examples

    One source bucket [src] whose report prefix [cur] is mapped to [acct/] in
    the destination bucket [dst]; one assembly of the billing period
    [20240101-20240201] with two data files.  The manifest
    [report-Manifest.json] lists both; [stale-Manifest.json] also lists
    [part-0.csv.gz], which is not in the source bucket. *)

Module Scenario.

Definition folder : string := "cur/20240101-20240201/20240115T120000Z/".

Definition part (n : string) : string := folder +:+ "part-" +:+ n +:+ ".csv.gz".

Definition manifest : string := folder +:+ "report-Manifest.json".
Definition stale_manifest : string := folder +:+ "stale-Manifest.json".

Definition cfg : config := {|
  DESTINATION_BUCKET := "dst";
  PREFIX_MAPPING := {[ "src" := rule "cur" "acct/" ]};
  GLUE_DATABASE := "cur_db";
  TABLE_MAPPING := [("acct/", "acct_table")];
|}.

Definition w0 : world := {|
  objects :=
    {[ "src" :=
         {[ manifest := ManifestJson (Some [part "1"; part "2"]);
            stale_manifest :=
              ManifestJson (Some [part "1"; part "0"; part "2"]);
            part "1" := Bytes "one";
            part "2" := Bytes "two" ]} ]};
  tables :=
    {[ ("cur_db", "acct_table") :=
         {[ "Location" := "s3://dst/acct/"; "InputFormat" := "text" ]} ]};
  partitions := ∅;
  calls := [];
|}.

(** the destination after the two data files were forwarded *)
Definition w_forwarded : world := {|
  objects :=
    <["dst" :=
        {[ "acct/20240101-20240201/20240115T120000Z/part-1.csv.gz"
             := Bytes "one";
           "acct/20240101-20240201/20240115T120000Z/part-2.csv.gz"
             := Bytes "two" ]}]> (objects w0);
  tables := tables w0;
  partitions := ∅;
  calls := [];
|}.

(** the destination role may write objects but not read them: every
    [head_object] is answered with 403 *)
Definition head_forbidden : faults := {|
  get_object_fault := λ _ _, None;
  head_object_fault := λ _ _, Some (ClientError "403");
  copy_object_fault := λ _ _ _ _, None;
  list_objects_fault := λ _ _, None;
  get_table_fault := λ _ _, None;
  update_partition_fault := λ _ _ _, None;
  create_partition_fault := λ _ _ _, None;
|}.

Definition notification (key : string) : s3_record :=
  {| bucket_name := Some "src"; object_key := Some key |}.

End Scenario.

(** ** Counting the items of an event *)

Definition is_direct (r : record) : bool :=
  match r with
  | Direct _ => true
  | Sns _ => false
  end.

(** the S3 notifications an event carries, those inside SNS envelopes
    included *)
Definition item_records (event : list record) : list s3_record :=
  event ≫= λ r, match r with
                 | Direct s3 => [s3]
                 | Sns (Some s3_records) => s3_records
                 | Sns None => []
                 end.

(** ** What a run leaves of the world it started from *)

(** [w'] comes after [w] in a run that writes objects to the bucket [dest]
    and partitions to the tables of [mapping] in [database], and nothing
    else: the log is extended; the table definitions are kept; the other
    buckets are as they were; no object of [dest] is removed, and the body
    of each is the body of an object of [w]; a partition that differs is
    the partition of one value of a mapped table, holding the storage
    descriptor of that table with a location of its own. *)
Record follows (dest database : string) (mapping : list (string * string))
    (w w' : world) : Prop := {
  follows_calls : ∃ l, calls w' = calls w ++ l;
  follows_tables : tables w' = tables w;
  follows_others : ∀ b, b ≠ dest → bucket_of w' b = bucket_of w b;
  follows_kept :
    ∀ k, is_Some (bucket_of w dest !! k) → is_Some (bucket_of w' dest !! k);
  follows_bodies :
    ∀ k body, bucket_of w' dest !! k = Some body →
              ∃ b k', bucket_of w b !! k' = Some body;
  follows_partitions :
    ∀ key, partitions w' !! key = partitions w !! key
           ∨ ∃ table value sd0 location,
               key = (database, table, [value])
               ∧ table ∈ mapping.*2
               ∧ tables w !! (database, table) = Some sd0
               ∧ partitions w' !! key = Some (<["Location" := location]> sd0);
}.

(** the call reads, probes or copies one object *)
Definition is_object_call (c : call) : bool :=
  match c with
  | S3GetObject _ _ | S3HeadObject _ _ | S3CopyObject _ _ _ _ => true
  | _ => false
  end.

(** between [w] and [w'] the catalog was left alone: only objects were
    read, probed or copied *)
Definition objects_only (w w' : world) : Prop :=
  partitions w' = partitions w
  ∧ ∃ l, calls w' = calls w ++ l
         ∧ Forall (λ ev : event, is_object_call ev.1 = true) l.

(** the calls the loop of [copy_manifest_data_files] makes for the report
    keys: the probe of a destination key, or the copy to it *)
Definition expansion_call (cfg : config) (source_bucket : string)
    (prefix_config : gmap string string) (report_keys : list string)
    (c : call) : Prop :=
  ∃ rk, rk ∈ report_keys
        ∧ (c = S3HeadObject (DESTINATION_BUCKET cfg)
                 (calculate_destination_key rk prefix_config)
           ∨ c = S3CopyObject source_bucket rk (DESTINATION_BUCKET cfg)
                   (calculate_destination_key rk prefix_config)).

(** ** The backfill stops at the first failure *)

(** a call that returned, or the update that found no partition *)
Definition passed (ev : event) : Prop :=
  ev.2 = None
  ∨ ∃ database table values sd,
      ev = (GlueUpdatePartition database table values sd,
            Some (ClientError "EntityNotFoundException")).

(** the log of a run that stops at the first call that fails *)
Definition fail_fast {A} (w : world) (run : world * outcome A) : Prop :=
  ∃ trace,
    calls run.1 = calls w ++ trace
    ∧ match run.2 with
      | Returns _ => Forall passed trace
      | Raises e =>
          ∃ before c, trace = before ++ [(c, Some e)] ∧ Forall passed before
      end.

(** ** The scan of the backfill, key by key *)

Module Backfill.
Import Bootstrap.

(** what the scan appends for a key inside an assembly folder: the billing
    period, with the assembly id and the path of the assembly folder *)
Definition versioned_entry (key : string) : option (string * (string * string)) :=
  let parts := Str.split Str.slash key in
  match first_period_index parts 0 with
  | None => None
  | Some (i, billing_period) =>
      match parts !! (i + 1) with
      | Some next =>
          if Re.fullmatch Re.ASSEMBLY next
          then Some (billing_period, (next, Str.join "/" (take (i + 2) parts)))
          else None
      | None => None
      end
  end.

(** the entries of the keys of one billing period, in listing order *)
Definition entries_of (billing_period : string) (keys : list string)
    : list (string * string) :=
  omap (λ key, match versioned_entry key with
               | Some (bp, x) =>
                   if decide (bp = billing_period) then Some x else None
               | None => None
               end) keys.

(** what the scan records for a data file that is not inside an assembly
    folder: the billing period, with the path of its folder *)
Definition flat_entry (key : string) : option (string * string) :=
  let parts := Str.split Str.slash key in
  match first_period_index parts 0 with
  | None => None
  | Some (i, billing_period) =>
      if match parts !! (i + 1) with
         | Some next => Re.fullmatch Re.ASSEMBLY next
         | None => false
         end
      then None
      else if Str.endswith key ".csv.gz"
           then Some (billing_period, Str.join "/" (take (i + 1) parts))
           else None
  end.

Definition flat_paths (billing_period : string) (keys : list string)
    : list string :=
  omap (λ key, match flat_entry key with
               | Some (bp, path) =>
                   if decide (bp = billing_period) then Some path else None
               | None => None
               end) keys.

(** the order of [sorted(assemblies, key=lambda x: x[0])] *)
Definition by_id (x y : string * string) : Prop := String.le x.1 y.1.

End Backfill.

(** ** A bucket to backfill, for the examples *)

Module BackfillScenario.

(** two assemblies of one billing period, and a billing period whose data
    lies directly in its folder *)
Definition env : Bootstrap.settings :=
  {| Bootstrap.BUCKET := "dst"; Bootstrap.GLUE_DATABASE := "cur_db";
     Bootstrap.ACCOUNTS := [("acct/", "acct_table")] |}.

Definition early : string :=
  "acct/20240101-20240201/20240115T120000Z/part-1.csv.gz".
Definition late : string :=
  "acct/20240101-20240201/20240120T120000Z/part-1.csv.gz".
Definition overwritten : string := "acct/20240201-20240301/part-1.csv.gz".

Definition w : world :=
  put_object "dst" late (Bytes "late")
    (put_object "dst" early (Bytes "early")
       (put_object "dst" overwritten (Bytes "flat") Scenario.w0)).

End BackfillScenario.

(** ** The layout of a key, spelled out

    What the two patterns accept, said without the patterns. *)

(** [s] is one decimal digit: the encoding of one character of the category
    Nd *)
Definition decimal_digit (s : string) : Prop :=
  ∃ cp, Utf8.decode s = Some cp ∧ Re.is_digit cp = true.

(** [s] is a run of [n] decimal digits *)
Definition digits (n : nat) (s : string) : Prop :=
  ∃ chars,
    length chars = n ∧ Forall decimal_digit chars ∧ s = Str.concat chars.

(** what [re.match(r'^\d{8}T\d{6}Z$', s)] accepts: eight digits, [T], six
    digits, [Z], and then the end of [s], or one newline and the end *)
Definition assembly_id (s : string) : Prop :=
  ∃ date time,
    digits 8 date ∧ digits 6 time
    ∧ (s = date +:+ "T" +:+ time +:+ "Z"
       ∨ s = date +:+ "T" +:+ time +:+ "Z" +:+ String Str.newline "").

(** a billing period: eight digits, a hyphen, eight digits *)
Definition billing_period_id (s : string) : Prop :=
  ∃ first last,
    digits 8 first ∧ digits 8 last ∧ s = first +:+ "-" +:+ last.

(** * Facts about the string methods *)

Module StrFacts.

Lemma append_cons a s t : String a s +:+ t = String a (s +:+ t).
Proof. reflexivity. Qed.

Lemma append_nil t : "" +:+ t = t.
Proof. reflexivity. Qed.

Lemma startswith_app p t : Str.startswith (p +:+ t) p = true.
Proof.
  induction p as [|a p IH]; [reflexivity|].
  rewrite append_cons. simpl. by rewrite Ascii.eqb_refl.
Qed.

Lemma slice_from_app p t : Str.slice_from (Str.len p) (p +:+ t) = t.
Proof. induction p as [|a p IH]; [reflexivity|]. by rewrite append_cons. Qed.

Lemma startswith_inv s p :
  Str.startswith s p = true → s = p +:+ Str.slice_from (Str.len p) s.
Proof.
  revert s. induction p as [|a p IH]; intros s H; [done|].
  destruct s as [|b s]; [done|]. simpl in H.
  destruct (Ascii.eqb a b) eqn:E; [|done].
  apply Ascii.eqb_eq in E as ->.
  rewrite append_cons. simpl. f_equal. by apply IH.
Qed.

Lemma leading_slash_cons a s :
  Str.leading_slash (String a s) = Ascii.eqb a Str.slash.
Proof.
  change (Str.leading_slash (String a s))
    with (if Ascii.eqb Str.slash a then true else false).
  rewrite (Ascii.eqb_sym Str.slash a).
  by destruct (Ascii.eqb a Str.slash).
Qed.

Lemma leading_slash_lstrip s : Str.leading_slash (Str.lstrip Str.slash s) = false.
Proof.
  induction s as [|a s IH]; [done|]. cbn [Str.lstrip].
  destruct (Ascii.eqb a Str.slash) eqn:E; [done|].
  by rewrite leading_slash_cons.
Qed.

Lemma doubled_slash_lstrip s :
  Str.doubled_slash s = false → Str.doubled_slash (Str.lstrip Str.slash s) = false.
Proof.
  induction s as [|a s IH]; [done|]. simpl. intros H.
  apply orb_false_iff in H as [H1 H2].
  destruct (Ascii.eqb a Str.slash) eqn:E; [by apply IH|].
  simpl. rewrite E. simpl. done.
Qed.

Lemma doubled_slash_slice n s :
  Str.doubled_slash s = false → Str.doubled_slash (Str.slice_from n s) = false.
Proof.
  revert s. induction n as [|n IH]; intros s H; [done|].
  destruct s as [|a s]; [done|]. simpl in *.
  apply orb_false_iff in H as [_ H]. by apply IH.
Qed.

(** appending after a string that does not end with the separator *)
Lemma doubled_slash_app a b :
  Str.doubled_slash a = false → trailing_slash a = false →
  Str.doubled_slash b = false → Str.doubled_slash (a +:+ b) = false.
Proof.
  induction a as [|c a IH]; [done|]. intros Ha Ht Hb.
  rewrite append_cons.
  cbn [Str.doubled_slash] in Ha |- *.
  apply orb_false_iff in Ha as [Ha1 Ha2].
  destruct a as [|c' a].
  - rewrite append_nil. cbn [trailing_slash] in Ht. rewrite Ht. done.
  - rewrite append_cons, leading_slash_cons.
    rewrite leading_slash_cons in Ha1. rewrite Ha1.
    rewrite <- append_cons. cbn [orb]. apply IH; done.
Qed.

Lemma trailing_slash_rstrip s : trailing_slash (Str.rstrip Str.slash s) = false.
Proof.
  induction s as [|a s IH]; [done|]. simpl.
  destruct (Str.rstrip Str.slash s) as [|b r] eqn:E.
  - destruct (Ascii.eqb a Str.slash) eqn:Ea; [done|]. simpl. done.
  - simpl in IH |- *. done.
Qed.

Lemma rstrip_cons_nonslash a s :
  Ascii.eqb a Str.slash = false →
  ∃ r, Str.rstrip Str.slash (String a s) = String a r.
Proof.
  intros E. simpl. destruct (Str.rstrip Str.slash s); rewrite ?E; eauto.
Qed.

Lemma truthy_rule_lookup sp dp :
  rule sp dp !! "source_prefix" = Some sp
  ∧ rule sp dp !! "destination_prefix" = Some dp.
Proof. unfold rule. split; by simplify_map_eq. Qed.

Lemma index_penultimate {A} (l : list A) :
  2 ≤ length l → Str.index l (-2) = l !! (length l - 2).
Proof.
  intros H. unfold Str.index.
  replace (-2 <? 0)%Z with true by done.
  destruct (Z.leb_spec (- -2) (Z.of_nat (length l))); [|lia].
  f_equal. lia.
Qed.

Lemma append_assoc a b c : (a +:+ b) +:+ c = a +:+ (b +:+ c).
Proof. induction a as [|x a IH]; [done|]. by rewrite !append_cons, IH. Qed.

Lemma append_nil_r a : a +:+ "" = a.
Proof. induction a as [|x a IH]; [done|]. by rewrite append_cons, IH. Qed.

Lemma len_append a b : Str.len (a +:+ b) = Str.len a + Str.len b.
Proof.
  unfold Str.len. induction a as [|x a IH]; [done|].
  rewrite append_cons. cbn. by rewrite IH.
Qed.

Lemma slice_to_app p t : Str.slice_to (Str.len p) (p +:+ t) = p.
Proof.
  induction p as [|a p IH]; [done|]. rewrite append_cons. cbn.
  f_equal. exact IH.
Qed.

Lemma slice_to_from n s : Str.slice_to n s +:+ Str.slice_from n s = s.
Proof.
  revert s. induction n as [|n IH]; intros s; [done|].
  destruct s as [|a s]; [done|]. cbn. by rewrite append_cons, IH.
Qed.

Lemma has_app c a b : Str.has c (a +:+ b) = Str.has c a || Str.has c b.
Proof.
  induction a as [|x a IH]; [done|]. rewrite append_cons. cbn.
  by rewrite IH, orb_assoc.
Qed.

Lemma split_nonempty c s : Str.split c s ≠ [].
Proof.
  destruct s as [|a s]; [done|]. cbn.
  destruct (Ascii.eqb a c); [done|]. by destruct (Str.split c s).
Qed.

(** a string without the separator is its own single segment *)
Lemma split_free c s : Str.has c s = false → Str.split c s = [s].
Proof.
  induction s as [|a s IH]; [done|]. cbn.
  intros [Ha Hs]%orb_false_iff. rewrite Ha, (IH Hs). done.
Qed.

(** splitting around a separator *)
Lemma split_app c a b :
  Str.split c (a +:+ String c b) = Str.split c a ++ Str.split c b.
Proof.
  induction a as [|x a IH].
  - rewrite append_nil. cbn. by rewrite Ascii.eqb_refl.
  - rewrite append_cons. cbn. rewrite IH.
    destruct (Ascii.eqb x c); [done|].
    pose proof (split_nonempty c a). by destruct (Str.split c a).
Qed.

(** no segment holds the separator *)
Lemma split_has c s : Forall (λ p, Str.has c p = false) (Str.split c s).
Proof.
  induction s as [|a s IH]; [by repeat constructor|]. cbn.
  destruct (Ascii.eqb a c) eqn:Ha; [by constructor|].
  destruct (Str.split c s) as [|p ps]; [by repeat constructor; cbn; rewrite Ha|].
  apply Forall_cons in IH as [Hp Hps]. constructor; [|done].
  cbn. by rewrite Ha, Hp.
Qed.

(** joining the segments gives the string back *)
Lemma join_split c s : Str.join (String c "") (Str.split c s) = s.
Proof.
  induction s as [|a s IH]; [done|]. cbn.
  pose proof (split_nonempty c s) as Hne.
  destruct (Ascii.eqb a c) eqn:Ha.
  - apply Ascii.eqb_eq in Ha as ->.
    destruct (Str.split c s) as [|p ps]; [done|].
    cbn [Str.join]. rewrite append_nil. by rewrite <- IH.
  - destruct (Str.split c s) as [|p ps]; [done|].
    destruct ps as [|q ps]; cbn [Str.join] in IH |- *.
    + by rewrite IH.
    + rewrite append_cons. by rewrite IH.
Qed.

Lemma join_snoc sep l x :
  l ≠ [] → Str.join sep (l ++ [x]) = Str.join sep l +:+ sep +:+ x.
Proof.
  induction l as [|p l IH]; [done|]. intros _.
  destruct l as [|q l]; [done|].
  change (Str.join sep ((p :: q :: l) ++ [x]))
    with (p +:+ sep +:+ Str.join sep ((q :: l) ++ [x])).
  rewrite IH by done.
  change (Str.join sep (p :: q :: l)) with (p +:+ sep +:+ Str.join sep (q :: l)).
  by rewrite !append_assoc.
Qed.

Lemma slice_from_len s : Str.slice_from (Str.len s) s = "".
Proof. by induction s. Qed.

Lemma endswith_iff s p :
  Str.endswith s p = true ↔ ∃ stem, s = stem +:+ p.
Proof.
  unfold Str.endswith. split.
  - intros [Hlen Heq]%andb_true_iff. apply String.eqb_eq in Heq.
    exists (Str.slice_to (Str.len s - Str.len p) s).
    rewrite <- Heq at 2. by rewrite slice_to_from.
  - intros [stem ->]. rewrite len_append. apply andb_true_iff. split.
    + apply Nat.leb_le. lia.
    + replace (Str.len stem + Str.len p - Str.len p) with (Str.len stem) by lia.
      rewrite slice_from_app. apply String.eqb_refl.
Qed.

(** the segments of [dir/parent/name] end with [parent] and [name] *)
Lemma split_folder dir parent name :
  Str.has Str.slash parent = false → Str.has Str.slash name = false →
  Str.split Str.slash (dir +:+ "/" +:+ parent +:+ "/" +:+ name)
  = Str.split Str.slash dir ++ [parent; name].
Proof.
  intros Hp Hn.
  change ("/" +:+ parent +:+ "/" +:+ name)
    with (String Str.slash (parent +:+ String Str.slash name)).
  by rewrite !split_app, (split_free _ _ Hp), (split_free _ _ Hn).
Qed.

(** a key of three segments or more is [dir/parent/name] *)
Lemma split_penultimate key parent :
  3 ≤ length (Str.split Str.slash key) →
  Str.split Str.slash key !! (length (Str.split Str.slash key) - 2)
  = Some parent →
  ∃ dir name,
    key = dir +:+ "/" +:+ parent +:+ "/" +:+ name
    ∧ Str.has Str.slash parent = false
    ∧ Str.has Str.slash name = false.
Proof.
  intros Hlen Hparent.
  pose proof (split_has Str.slash key) as Hfree.
  pose proof (join_split Str.slash key) as Hjoin.
  destruct (Str.split Str.slash key) as [|p parts] using rev_ind; [cbn in Hlen; lia|].
  clear IHparts. rename p into name.
  destruct parts as [|p parts _] using rev_ind; [cbn in Hlen; lia|].
  rewrite !length_app in Hlen, Hparent. cbn in Hlen, Hparent.
  rewrite lookup_app_l in Hparent by (rewrite length_app; cbn; lia).
  rewrite lookup_app_r in Hparent by lia.
  replace (length parts + 1 + 1 - 2 - length parts) with 0 in Hparent by lia.
  injection Hparent as ->.
  apply Forall_app in Hfree as [Hfree Hname].
  apply Forall_app in Hfree as [_ Hp].
  apply Forall_inv in Hname, Hp.
  exists (Str.join "/" parts), name. split; [|done].
  rewrite <- Hjoin.
  rewrite join_snoc by (by destruct parts).
  destruct parts as [|q parts]; [cbn in Hlen; lia|].
  rewrite join_snoc by done. by rewrite !append_assoc.
Qed.

End StrFacts.

Module Utf8Facts.

(** a string that encodes one character is as long as its first byte says *)
Lemma decode_width ch cp :
  Utf8.decode ch = Some cp →
  ∃ b rest, ch = String b rest ∧ Utf8.width b = Str.len ch.
Proof.
  destruct ch as [|b [|c1 [|c2 [|c3 [|c4 rest]]]]]; cbn; try done;
    unfold Utf8.width; intros H; eexists _, _; (split; [done|]).
  - by destruct (N_of_ascii b <? 128)%N.
  - destruct (N.leb_spec 194 (N_of_ascii b)); [|done].
    destruct (N.leb_spec (N_of_ascii b) 223); [|done].
    destruct (N.ltb_spec (N_of_ascii b) 128); [lia|].
    destruct (N.ltb_spec (N_of_ascii b) 224); [done|lia].
  - destruct (N.leb_spec 224 (N_of_ascii b)); [|done].
    destruct (N.leb_spec (N_of_ascii b) 239); [|done].
    destruct (N.ltb_spec (N_of_ascii b) 128); [lia|].
    destruct (N.ltb_spec (N_of_ascii b) 224); [lia|].
    destruct (N.ltb_spec (N_of_ascii b) 240); [done|lia].
  - destruct (N.leb_spec 240 (N_of_ascii b)); [|done].
    destruct (N.leb_spec (N_of_ascii b) 244); [|done].
    destruct (N.ltb_spec (N_of_ascii b) 128); [lia|].
    destruct (N.ltb_spec (N_of_ascii b) 224); [lia|].
    destruct (N.ltb_spec (N_of_ascii b) 240); [lia|done].
Qed.

(** the first character of [ch +:+ t] is [ch] *)
Lemma next_app ch cp t :
  Utf8.decode ch = Some cp → Utf8.next (ch +:+ t) = Some (cp, t).
Proof.
  intros Hd. destruct (decode_width _ _ Hd) as (b & rest & -> & Hw).
  rewrite StrFacts.append_cons. unfold Utf8.next.
  rewrite <- StrFacts.append_cons, Hw.
  by rewrite StrFacts.slice_to_app, StrFacts.slice_from_app, Hd.
Qed.

Lemma next_inv s cp rest :
  Utf8.next s = Some (cp, rest) →
  ∃ ch, Utf8.decode ch = Some cp ∧ s = ch +:+ rest.
Proof.
  unfold Utf8.next. destruct s as [|b s]; [done|].
  destruct (Utf8.decode _) as [cp'|] eqn:Hd; [|done].
  intros [= <- <-]. eexists. split; [done|].
  by rewrite StrFacts.slice_to_from.
Qed.

(** every run of digits beyond ASCII begins above U+007F *)
Lemma decimal_ranges_high cp :
  existsb (λ r : N * N, (r.1 <=? cp)%N && (cp <=? r.2)%N) Re.DECIMAL_RANGES
  = true →
  (128 <= cp)%N.
Proof.
  intros ([lo hi] & Hin & [Hlo _]%andb_true_iff)%existsb_exists.
  apply N.leb_le in Hlo. cbn in Hlo.
  assert (Hall : Forall (λ r : N * N, (128 <=? r.1)%N = true) Re.DECIMAL_RANGES)
    by (vm_compute; repeat constructor).
  rewrite Forall_forall in Hall. apply list_elem_of_In in Hin.
  specialize (Hall _ Hin). cbn in Hall. apply N.leb_le in Hall. lia.
Qed.

Lemma continuation_high c x :
  Utf8.continuation c = Some x → (128 <= N_of_ascii c)%N.
Proof.
  unfold Utf8.continuation.
  destruct (N.leb_spec 128 (N_of_ascii c)); [done|]. by cbn.
Qed.

Lemma high_not_slash c : (128 <= N_of_ascii c)%N → Ascii.eqb c Str.slash = false.
Proof.
  intros H. destruct (Ascii.eqb_spec c Str.slash) as [->|]; [|done].
  vm_compute in H. by destruct H.
Qed.

(** no byte of a decimal digit is the separator *)
Lemma decimal_digit_no_slash ch :
  decimal_digit ch → Str.has Str.slash ch = false.
Proof.
  intros (cp & Hd & Hdigit).
  destruct ch as [|b [|c1 [|c2 [|c3 [|c4 rest]]]]]; cbn in Hd; try done.
  - destruct (N.ltb_spec (N_of_ascii b) 128) as [Hb|]; [|done].
    injection Hd as <-. cbn. rewrite orb_false_r.
    unfold Re.is_digit in Hdigit. apply orb_true_iff in Hdigit as [Hd|Hd].
    + apply andb_true_iff in Hd as [Hlo%N.leb_le _].
      destruct (Ascii.eqb_spec b Str.slash) as [->|]; [|done].
      vm_compute in Hlo. by destruct Hlo.
    + apply decimal_ranges_high in Hd. lia.
  - destruct (N.leb_spec 194 (N_of_ascii b)); [|done].
    destruct (Utf8.continuation c1) eqn:H1; [|by destruct (_ <=? _)%N].
    cbn. rewrite !high_not_slash; [done|by eapply continuation_high|lia].
  - destruct (N.leb_spec 224 (N_of_ascii b)); [|done].
    destruct (Utf8.continuation c1) eqn:H1; [|by destruct (_ <=? _)%N].
    destruct (Utf8.continuation c2) eqn:H2; [|by destruct (_ <=? _)%N].
    cbn. rewrite !high_not_slash;
      [done|by eapply continuation_high|by eapply continuation_high|lia].
  - destruct (N.leb_spec 240 (N_of_ascii b)); [|done].
    destruct (Utf8.continuation c1) eqn:H1; [|by destruct (_ <=? _)%N].
    destruct (Utf8.continuation c2) eqn:H2; [|by destruct (_ <=? _)%N].
    destruct (Utf8.continuation c3) eqn:H3; [|by destruct (_ <=? _)%N].
    cbn. rewrite !high_not_slash;
      [done|by eapply continuation_high..|lia].
Qed.

Lemma digits_no_slash n s : digits n s → Str.has Str.slash s = false.
Proof.
  intros (chars & _ & Hchars & ->). clear n.
  induction Hchars as [|ch chars Hch _ IH]; [done|].
  change (Str.concat (ch :: chars)) with (ch +:+ Str.concat chars).
  by rewrite StrFacts.has_app, (decimal_digit_no_slash _ Hch), IH.
Qed.

End Utf8Facts.

Module ReFacts.

Lemma consume_app p q s :
  Re.consume (p ++ q) s
  = match Re.consume p s with Some r => Re.consume q r | None => None end.
Proof.
  revert s. induction p as [|a p IH]; intros s; [done|].
  destruct a as [|x]; cbn.
  - destruct (Utf8.next s) as [[cp s']|]; [|done].
    destruct (Re.is_digit cp); [apply IH|done].
  - destruct s as [|c s]; [done|].
    destruct (Ascii.eqb x c); [apply IH|done].
Qed.

Lemma consume_lit x p c r :
  Re.consume (Re.Lit x :: p) (String c r)
  = if Ascii.eqb x c then Re.consume p r else None.
Proof. reflexivity. Qed.

(** a literal is consumed from a string that begins with it *)
Lemma consume_lit_iff x p s r :
  Re.consume (Re.Lit x :: p) s = Some r
  ↔ ∃ s', s = String x s' ∧ Re.consume p s' = Some r.
Proof.
  destruct s as [|c s]; cbn; [split; [done|by intros (? & ? & _)]|].
  destruct (Ascii.eqb_spec x c) as [->|Hne].
  - split; [eauto|]. by intros (s' & [= <-] & H).
  - split; [done|]. intros (s' & [= ? ?] & _). congruence.
Qed.

(** [\d{n}] consumes a run of [n] decimal digits *)
Lemma consume_digits n s r :
  Re.consume (replicate n Re.Digit) s = Some r
  ↔ ∃ d, digits n d ∧ s = d +:+ r.
Proof.
  revert s. induction n as [|n IH]; intros s; cbn [replicate Re.consume].
  - split.
    + intros [= ->]. exists "". split; [by exists []|done].
    + intros (d & (chars & Hlen & _ & ->) & ->).
      by apply nil_length_inv in Hlen as ->.
  - split.
    + destruct (Utf8.next s) as [[cp s']|] eqn:Hnext; [|done].
      destruct (Re.is_digit cp) eqn:Hdigit; [|done].
      intros (d & (chars & Hlen & Hchars & ->) & ->)%IH.
      apply Utf8Facts.next_inv in Hnext as (ch & Hch & ->).
      exists (ch +:+ Str.concat chars). split.
      * exists (ch :: chars). split; [by cbn; f_equal|].
        split; [|done]. constructor; [by exists cp|done].
      * by rewrite StrFacts.append_assoc.
    + intros (d & (chars & Hlen & Hchars & ->) & ->).
      destruct chars as [|ch chars]; [done|].
      apply Forall_cons in Hchars as [(cp & Hch & Hdigit) Hchars].
      change (Str.concat (ch :: chars)) with (ch +:+ Str.concat chars).
      rewrite StrFacts.append_assoc, (Utf8Facts.next_app _ _ _ Hch), Hdigit.
      apply IH. exists (Str.concat chars). split; [|done].
      exists chars. cbn in Hlen. split; [lia|done].
Qed.

(** an anchored match consumes the pattern *)
Lemma match_anchored_consume p s :
  Re.match_anchored p s = true → is_Some (Re.consume p s).
Proof. unfold Re.match_anchored. destruct (Re.consume p s); [eauto|done]. Qed.

(** the ninth character tells the two patterns apart *)
Lemma assembly_not_billing_period s :
  Re.match_anchored Re.ASSEMBLY s = true →
  Re.match_anchored Re.BILLING_PERIOD s = false.
Proof.
  intros HA. destruct (Re.match_anchored Re.BILLING_PERIOD s) eqn:HB; [|done].
  apply match_anchored_consume in HA as [ra HA].
  apply match_anchored_consume in HB as [rb HB].
  unfold Re.ASSEMBLY in HA. unfold Re.BILLING_PERIOD in HB.
  rewrite consume_app in HA, HB.
  destruct (Re.consume (replicate 8 Re.Digit) s) as [r|]; [|done].
  destruct r as [|c r]; [simpl in HA; congruence|].
  change (?x ++ ?y) with (Re.Lit "T" :: replicate 6 Re.Digit ++ [Re.Lit "Z"%char])
    in HA.
  change (?x ++ ?y) with (Re.Lit "-" :: replicate 8 Re.Digit) in HB.
  rewrite consume_lit in HA, HB.
  destruct (Ascii.eqb "T" c) eqn:ET; [|congruence].
  apply Ascii.eqb_eq in ET as <-. simpl in HB. congruence.
Qed.

(** what the assembly pattern consumes *)
Lemma consume_assembly s r :
  Re.consume Re.ASSEMBLY s = Some r
  ↔ ∃ date time,
      digits 8 date ∧ digits 6 time ∧ s = date +:+ "T" +:+ time +:+ "Z" +:+ r.
Proof.
  unfold Re.ASSEMBLY. rewrite consume_app. split.
  - destruct (Re.consume (replicate 8 Re.Digit) s) as [r1|] eqn:H1; [|done].
    apply consume_digits in H1 as (date & Hdate & ->).
    change ([Re.Lit "T"%char] ++ ?p) with (Re.Lit "T"%char :: p).
    intros (r2 & -> & H2)%consume_lit_iff.
    rewrite consume_app in H2.
    destruct (Re.consume (replicate 6 Re.Digit) r2) as [r3|] eqn:H3; [|done].
    apply consume_digits in H3 as (time & Htime & ->).
    apply consume_lit_iff in H2 as (r4 & -> & [= ->]).
    by exists date, time.
  - intros (date & time & Hdate & Htime & ->).
    assert (H1 : Re.consume (replicate 8 Re.Digit)
                   (date +:+ "T" +:+ time +:+ "Z" +:+ r)
                 = Some ("T" +:+ time +:+ "Z" +:+ r))
      by (apply consume_digits; eauto).
    rewrite H1.
    change ("T" +:+ time +:+ "Z" +:+ r) with (String "T" (time +:+ "Z" +:+ r)).
    change ([Re.Lit "T"%char] ++ ?p) with (Re.Lit "T"%char :: p).
    rewrite consume_lit, Ascii.eqb_refl, consume_app.
    assert (H2 : Re.consume (replicate 6 Re.Digit) (time +:+ "Z" +:+ r)
                 = Some ("Z" +:+ r))
      by (apply consume_digits; eauto).
    rewrite H2. done.
Qed.

(** the assembly pattern, anchored, accepts the assembly ids *)
Lemma match_assembly_iff s :
  Re.match_anchored Re.ASSEMBLY s = true ↔ assembly_id s.
Proof.
  unfold Re.match_anchored, assembly_id. split.
  - destruct (Re.consume Re.ASSEMBLY s) as [r|] eqn:Hr; [|done].
    apply consume_assembly in Hr as (date & time & Hdate & Htime & ->).
    destruct r as [|c [|c' r]]; [| |done].
    + intros _. exists date, time. split; [done|]. split; [done|]. left.
      by rewrite !StrFacts.append_nil_r.
    + intros ->%Ascii.eqb_eq. exists date, time. eauto.
  - intros (date & time & Hdate & Htime & [->| ->]).
    + assert (H : Re.consume Re.ASSEMBLY (date +:+ "T" +:+ time +:+ "Z")
                  = Some "").
      { apply consume_assembly. exists date, time.
        by rewrite !StrFacts.append_nil_r. }
      by rewrite H.
    + assert (H : Re.consume Re.ASSEMBLY
                    (date +:+ "T" +:+ time +:+ "Z" +:+ String Str.newline "")
                  = Some (String Str.newline ""))
        by (apply consume_assembly; eauto).
      by rewrite H.
Qed.

(** the billing-period pattern, anchored, accepts the billing periods *)
Lemma match_billing_period s :
  billing_period_id s → Re.match_anchored Re.BILLING_PERIOD s = true.
Proof.
  intros (first & last & Hfirst & Hlast & ->).
  unfold Re.match_anchored, Re.BILLING_PERIOD. rewrite consume_app.
  assert (H1 : Re.consume (replicate 8 Re.Digit) (first +:+ "-" +:+ last)
               = Some ("-" +:+ last))
    by (apply consume_digits; eauto).
  rewrite H1.
  change ("-" +:+ last) with (String "-" last).
  change ([Re.Lit "-"%char] ++ ?p) with (Re.Lit "-"%char :: p).
  rewrite consume_lit, Ascii.eqb_refl.
  assert (H2 : Re.consume (replicate 8 Re.Digit) last = Some "").
  { apply consume_digits. exists last. by rewrite StrFacts.append_nil_r. }
  by rewrite H2.
Qed.

Lemma assembly_id_no_slash s : assembly_id s → Str.has Str.slash s = false.
Proof.
  intros (date & time & Hdate%Utf8Facts.digits_no_slash
          & Htime%Utf8Facts.digits_no_slash & [->| ->]);
    rewrite !StrFacts.has_app, Hdate, Htime; done.
Qed.

Lemma billing_period_id_no_slash s :
  billing_period_id s → Str.has Str.slash s = false.
Proof.
  intros (first & last & Hfirst%Utf8Facts.digits_no_slash
          & Hlast%Utf8Facts.digits_no_slash & ->).
  by rewrite !StrFacts.has_app, Hfirst, Hlast.
Qed.

(** the test both classifiers make after the suffix: three segments or
    more, the second-to-last an assembly id *)
Lemma assembly_folder_shape key :
  (let parts := Str.split Str.slash key in
   if length parts <? 3 then false
   else match Str.index parts (-2) with
        | Some parent => Re.match_anchored Re.ASSEMBLY parent
        | None => false
        end) = true
  ↔ ∃ dir parent name,
      key = dir +:+ "/" +:+ parent +:+ "/" +:+ name
      ∧ Str.has Str.slash name = false
      ∧ assembly_id parent.
Proof.
  cbv zeta. split.
  - destruct (Nat.ltb_spec (length (Str.split Str.slash key)) 3); [done|].
    rewrite StrFacts.index_penultimate by lia.
    destruct (Str.split Str.slash key !! _) as [parent|] eqn:Hp; [|done].
    intros Hm%match_assembly_iff.
    destruct (StrFacts.split_penultimate key parent) as (dir & name & ? & _ & ?);
      [done..|].
    by exists dir, parent, name.
  - intros (dir & parent & name & -> & Hname & Hid).
    rewrite (StrFacts.split_folder _ _ _ (assembly_id_no_slash _ Hid) Hname).
    pose proof (StrFacts.split_nonempty Str.slash dir) as Hne.
    destruct (Nat.ltb_spec (length (Str.split Str.slash dir ++ [parent; name])) 3)
      as [Hlt|Hge].
    { rewrite length_app in Hlt. cbn in Hlt.
      destruct (Str.split Str.slash dir); [done|cbn in Hlt; lia]. }
    rewrite StrFacts.index_penultimate by lia.
    rewrite length_app. cbn [length].
    rewrite lookup_app_r by lia.
    replace (length (Str.split Str.slash dir) + 2 - 2
             - length (Str.split Str.slash dir)) with 0 by lia.
    cbn. by apply match_assembly_iff.
Qed.

End ReFacts.

(** exhibits a string as a run of ASCII digits, one character each *)
Ltac ascii_digits chars :=
  exists chars; split; [reflexivity|]; split; [|reflexivity];
  repeat (constructor; [eexists; split; reflexivity|]); constructor.

(** * The key classifier *)

(** C5: [is_assembly_manifest key] is true exactly when the key ends with
    [Manifest.json] and reads [dir/parent/name], where [name] is the last
    segment and [parent], the second-to-last of at least three segments, is
    an assembly id: eight digits, [T], six digits, [Z], as
    [^\d{8}T\d{6}Z$] accepts them (a digit is any decimal digit of Unicode,
    and one newline may follow the [Z]).  It is false for every key whose
    second-to-last segment is a billing period, eight digits, a hyphen and
    eight digits, as for a manifest placed directly in a billing-period
    folder. *)
Theorem is_assembly_manifest_iff (key : string) :
  (is_assembly_manifest key = true ↔
     (∃ stem, key = stem +:+ "Manifest.json")
     ∧ ∃ dir parent name,
         key = dir +:+ "/" +:+ parent +:+ "/" +:+ name
         ∧ Str.has Str.slash name = false
         ∧ assembly_id parent)
  ∧ (∀ dir parent name,
       key = dir +:+ "/" +:+ parent +:+ "/" +:+ name →
       Str.has Str.slash name = false →
       billing_period_id parent →
       is_assembly_manifest key = false).
Proof.
  assert (Hdef : is_assembly_manifest key
                 = Str.endswith key "Manifest.json"
                   && (let parts := Str.split Str.slash key in
                       if length parts <? 3 then false
                       else match Str.index parts (-2) with
                            | Some parent =>
                                Re.match_anchored Re.ASSEMBLY parent
                            | None => false
                            end)).
  { unfold is_assembly_manifest. by destruct (Str.endswith key _). }
  split.
  - rewrite Hdef, andb_true_iff, StrFacts.endswith_iff.
    by rewrite ReFacts.assembly_folder_shape.
  - intros dir parent name -> Hname Hbp.
    rewrite Hdef. apply andb_false_iff. right. cbv zeta.
    rewrite (StrFacts.split_folder _ _ _
               (ReFacts.billing_period_id_no_slash _ Hbp) Hname).
    destruct (_ <? 3); [done|].
    pose proof (StrFacts.split_nonempty Str.slash dir) as Hne.
    rewrite StrFacts.index_penultimate
      by (rewrite length_app; cbn; lia).
    rewrite length_app. cbn [length].
    rewrite lookup_app_r by lia.
    replace (length (Str.split Str.slash dir) + 2 - 2
             - length (Str.split Str.slash dir)) with 0 by lia.
    cbn. apply ReFacts.match_billing_period in Hbp.
    destruct (Re.match_anchored Re.ASSEMBLY parent) eqn:Ha; [|done].
    apply ReFacts.assembly_not_billing_period in Ha. congruence.
Qed.

Lemma is_assembly_manifest_iff_witness :
  is_assembly_manifest
    "acct/20240101-20240201/20240115T120000Z/report-Manifest.json" = true
  ∧ is_assembly_manifest "acct/20240101-20240201/report-Manifest.json" = false.
Proof.
  split.
  - apply (proj1 (is_assembly_manifest_iff
                    "acct/20240101-20240201/20240115T120000Z/report-Manifest.json")).
    split.
    + by exists "acct/20240101-20240201/20240115T120000Z/report-".
    + exists "acct/20240101-20240201", "20240115T120000Z", "report-Manifest.json".
      split; [reflexivity|]. split; [reflexivity|].
      exists "20240115", "120000".
      split; [ascii_digits ["2"; "0"; "2"; "4"; "0"; "1"; "1"; "5"]|].
      split; [ascii_digits ["1"; "2"; "0"; "0"; "0"; "0"]|].
      left. reflexivity.
  - apply (proj2 (is_assembly_manifest_iff
                    "acct/20240101-20240201/report-Manifest.json")
             "acct" "20240101-20240201" "report-Manifest.json").
    + reflexivity.
    + reflexivity.
    + exists "20240101", "20240201".
      split; [ascii_digits ["2"; "0"; "2"; "4"; "0"; "1"; "0"; "1"]|].
      split; [ascii_digits ["2"; "0"; "2"; "4"; "0"; "2"; "0"; "1"]|].
      reflexivity.
Defined.

(** [\d] takes the decimal digits of every script: an assembly folder
    written in Arabic-Indic digits (U+0660 to U+0669) is recognised too *)
Example is_assembly_manifest_arabic_indic :
  let d (n : N) := String "217" (String (ascii_of_N (160 + n)) "") in
  let date := Str.concat (d <$> [2; 0; 2; 4; 0; 1; 1; 5]%N) in
  let time := Str.concat (d <$> [1; 2; 0; 0; 0; 0]%N) in
  is_assembly_manifest
    ("acct/20240101-20240201/" +:+ date +:+ "T" +:+ time +:+ "Z"
     +:+ "/report-Manifest.json") = true.
Proof. vm_compute. reflexivity. Qed.

(** * The path mapper *)

(** C6, as stated, fails: with an empty source prefix the code strips nothing,
    so a leading separator of the key is kept, while the specified algorithm
    strips it. *)
Lemma path_mapper_empty_prefix_counterexample :
  ¬ (∀ key source_prefix destination_prefix,
       calculate_destination_key key (rule source_prefix destination_prefix)
       = path_mapper_as_specified key source_prefix destination_prefix).
Proof.
  intros H. specialize (H "/data/part-1.csv.gz" "" "").
  vm_compute in H. congruence.
Qed.

(** C6, amended: when the source prefix is not empty and the key starts with
    it, the prefix and every leading separator after it are stripped to form
    the relative key; when the source prefix is empty or the key does not
    start with it, the whole key is the relative key; the destination prefix,
    trailing separators stripped, is joined to the relative key with one
    separator, and an empty destination prefix leaves the relative key
    unchanged. *)
Theorem calculate_destination_key_amended
    (key : string) (prefix_config : gmap string string) :
  (∀ rest,
     default "" (prefix_config !! "source_prefix") ≠ "" →
     key = default "" (prefix_config !! "source_prefix") +:+ rest →
     calculate_destination_key key prefix_config
     = join_prefix (default "" (prefix_config !! "destination_prefix"))
                   (Str.lstrip Str.slash rest))
  ∧ (default "" (prefix_config !! "source_prefix") = ""
     ∨ Str.startswith key (default "" (prefix_config !! "source_prefix")) = false →
     calculate_destination_key key prefix_config
     = join_prefix (default "" (prefix_config !! "destination_prefix")) key)
  ∧ (∀ relative_key, join_prefix "" relative_key = relative_key)
  ∧ (∀ destination_prefix relative_key,
       destination_prefix ≠ "" →
       join_prefix destination_prefix relative_key
       = Str.rstrip Str.slash destination_prefix +:+ "/" +:+ relative_key).
Proof.
  unfold calculate_destination_key.
  set (sp := default "" (prefix_config !! "source_prefix")).
  set (dp := default "" (prefix_config !! "destination_prefix")).
  assert (Hjoin : ∀ rel,
    (if Str.truthy dp then Str.rstrip Str.slash dp +:+ "/" +:+ rel else rel)
    = join_prefix dp rel) by (intros; by destruct dp).
  repeat split.
  - intros rest Hsp ->.
    rewrite StrFacts.startswith_app, StrFacts.slice_from_app.
    destruct sp; [done|]. cbn [Str.truthy andb]. apply Hjoin.
  - intros [Hsp|Hsw].
    + rewrite Hsp. cbn [Str.truthy andb]. apply Hjoin.
    + rewrite Hsw, andb_false_r. apply Hjoin.
  - intros dp' rel Hdp. by destruct dp'.
Qed.

Lemma calculate_destination_key_amended_witness :
  calculate_destination_key "reports//acct/part-1.csv.gz" (rule "reports" "dst/")
  = "dst/acct/part-1.csv.gz".
Proof.
  apply (proj1 (calculate_destination_key_amended
                  "reports//acct/part-1.csv.gz" (rule "reports" "dst/"))
               "//acct/part-1.csv.gz").
  - vm_compute. congruence.
  - vm_compute. reflexivity.
Defined.

(** C7, as stated, fails: a key that begins with the separator, or contains it
    doubled, is mapped to itself under the default rule. *)
Lemma destination_key_separator_counterexample :
  ¬ (∀ key prefix_config,
       Str.leading_slash (calculate_destination_key key prefix_config) = false
       ∧ Str.doubled_slash (calculate_destination_key key prefix_config) = false).
Proof.
  intros H. destruct (H "/data//part-1.csv.gz" (rule "" "")) as [H1 _].
  vm_compute in H1. congruence.
Qed.

(** C7, amended: when the source key neither begins with the separator nor
    contains it doubled, and the destination prefix does not begin with the
    separator and, trailing separators stripped, does not contain it doubled,
    the destination key neither begins with the separator nor contains it
    doubled. *)
Theorem destination_key_separators
    (key : string) (prefix_config : gmap string string) :
  Str.leading_slash key = false →
  Str.doubled_slash key = false →
  Str.leading_slash (default "" (prefix_config !! "destination_prefix")) = false →
  Str.doubled_slash
    (Str.rstrip Str.slash (default "" (prefix_config !! "destination_prefix")))
    = false →
  Str.leading_slash (calculate_destination_key key prefix_config) = false
  ∧ Str.doubled_slash (calculate_destination_key key prefix_config) = false.
Proof.
  intros Hk1 Hk2 Hd1 Hd2. unfold calculate_destination_key.
  set (sp := default "" (prefix_config !! "source_prefix")).
  set (dp := default "" (prefix_config !! "destination_prefix")) in *.
  set (rel := if Str.truthy sp && Str.startswith key sp
              then Str.lstrip Str.slash (Str.slice_from (Str.len sp) key)
              else key).
  assert (Hr1 : Str.leading_slash rel = false).
  { unfold rel. destruct (_ && _); [apply StrFacts.leading_slash_lstrip|done]. }
  assert (Hr2 : Str.doubled_slash rel = false).
  { unfold rel. destruct (_ && _); [|done].
    by apply StrFacts.doubled_slash_lstrip, StrFacts.doubled_slash_slice. }
  destruct dp as [|a dp'] eqn:Hdp; cbn [Str.truthy]; [done|].
  rewrite StrFacts.leading_slash_cons in Hd1.
  destruct (StrFacts.rstrip_cons_nonslash a dp' Hd1) as [r Hr].
  split.
  - rewrite Hr, StrFacts.append_cons, StrFacts.leading_slash_cons. done.
  - apply StrFacts.doubled_slash_app; [done|apply StrFacts.trailing_slash_rstrip|].
    rewrite StrFacts.append_cons, StrFacts.append_nil.
    cbn [Str.doubled_slash]. rewrite Hr1, Hr2. by rewrite andb_false_r.
Qed.

Lemma destination_key_separators_witness :
  Str.leading_slash
    (calculate_destination_key "reports/acct/part-1.csv.gz" (rule "reports" "dst//"))
    = false
  ∧ Str.doubled_slash
      (calculate_destination_key "reports/acct/part-1.csv.gz" (rule "reports" "dst//"))
    = false.
Proof.
  apply (destination_key_separators
           "reports/acct/part-1.csv.gz" (rule "reports" "dst//"));
    vm_compute; reflexivity.
Defined.

(** * Facts about the world and the service calls *)

Module WorldFacts.

Lemma new_calls_extends w w' l :
  calls w' = calls w ++ l → new_calls w w' = l.
Proof. intros H. unfold new_calls. rewrite H. apply drop_app_length. Qed.

Lemma new_calls_refl w : new_calls w w = [].
Proof. apply new_calls_extends. by rewrite app_nil_r. Qed.

Lemma keys_under_elem w bucket prefix k :
  k ∈ S3.keys_under w bucket prefix ↔
  is_Some (bucket_of w bucket !! k) ∧ Str.startswith k prefix = true.
Proof.
  unfold S3.keys_under. rewrite merge_sort_Permutation.
  rewrite list_elem_of_filter, elem_of_elements, elem_of_dom. tauto.
Qed.

Lemma elem_of_take_elem {A} (x : A) n l : x ∈ take n l → x ∈ l.
Proof.
  rewrite elem_of_take. intros (i & Hi & _).
  apply list_elem_of_lookup. eauto.
Qed.

Lemma data_files_of_elem k keys :
  k ∈ data_files_of keys ↔ Str.endswith k ".csv.gz" = true ∧ k ∈ keys.
Proof. unfold data_files_of. by rewrite list_elem_of_filter. Qed.

End WorldFacts.

Section RepointFacts.

Variable cfg : config.
Variable flt : faults.

(** the three ways the update-then-create block can go *)
Lemma update_or_create_trace table bp sd w w' r :
  update_or_create cfg flt table bp sd w = (w', r) →
  ∃ trace, calls w' = calls w ++ trace
           ∧ update_trace (GLUE_DATABASE cfg) table bp sd trace r
           ∧ objects w' = objects w ∧ tables w' = tables w.
Proof.
  intros H.
  unfold update_or_create, Glue.update_partition, Glue.create_partition, answer
    in H.
  destruct (update_partition_fault flt _ _ _) as [e|] eqn:Hf.
  - destruct e as [code|name].
    + destruct (String.eqb_spec code "EntityNotFoundException") as [->|Hne].
      * cbn in H.
        destruct (create_partition_fault flt _ _ _) as [e'|].
        -- injection H as <- <-. eexists. split; [cbn; by rewrite <- app_assoc|].
           split; [apply (created _ _ _ _ (Some e'))|done].
        -- destruct (partitions w !! _); injection H as <- <-; eexists;
             (split; [cbn; by rewrite <- app_assoc|]).
           ++ split; [|done].
              apply (created _ _ _ _ (Some (ClientError "AlreadyExistsException"))).
           ++ split; [apply (created _ _ _ _ None)|done].
      * injection H as <- <-. eexists. split; [done|].
        split; [apply update_failed; congruence|done].
    + injection H as <- <-. eexists. split; [done|].
      split; [by apply update_failed|done].
  - destruct (partitions w !! _) eqn:Hp.
    + injection H as <- <-. eexists. split; [done|]. split; [apply updated|done].
    + cbn in H.
      destruct (create_partition_fault flt _ _ _) as [e'|].
      * injection H as <- <-. eexists. split; [cbn; by rewrite <- app_assoc|].
        split; [apply (created _ _ _ _ (Some e'))|done].
      * rewrite Hp in H. injection H as <- <-. eexists.
        split; [cbn; by rewrite <- app_assoc|].
        split; [apply (created _ _ _ _ None)|done].
Qed.

Lemma update_athena_partition_unfold bucket key :
  update_athena_partition cfg flt bucket key =
  match repoint_target cfg key with
  | None => ret ()
  | Some (table_name, billing_period, partition_path) =>
      let* keys := S3.list_objects_v2 flt bucket (partition_path +:+ "/")
                     (Some 20) in
      match data_files_of keys with
      | [] => ret ()
      | _ :: _ =>
          let* sd0 := Glue.get_table flt (GLUE_DATABASE cfg) table_name in
          update_or_create cfg flt table_name billing_period
            (<["Location" := "s3://" +:+ bucket +:+ "/" +:+ partition_path
                              +:+ "/"]> sd0)
      end
  end.
Proof.
  unfold update_athena_partition, repoint_target.
  destruct (resolve_table_name cfg key) as [table_name|]; [|done].
  destruct (negb (Str.truthy table_name)); [done|].
  destruct (first_billing_period _ 0) as [[bp ai]|]; [|done].
  destruct (negb (Str.truthy bp) || _); done.
Qed.

Lemma update_trace_has_write db table bp sd trace r :
  update_trace db table bp sd trace r →
  ∃ ev, ev ∈ trace ∧ is_partition_write ev.1 = true.
Proof.
  intros []; eexists; (split; [apply list_elem_of_here|done]).
Qed.

(** what [update_athena_partition] logged, and that it wrote the catalog
    only in the last case *)
Lemma update_athena_partition_trace bucket key w w' r :
  update_athena_partition cfg flt bucket key w = (w', r) →
  ∃ trace, calls w' = calls w ++ trace
           ∧ repoint_trace cfg bucket key w trace r
           ∧ objects w' = objects w
           ∧ (partitions w' ≠ partitions w →
              ∃ ev, ev ∈ trace ∧ is_partition_write ev.1 = true).
Proof.
  rewrite update_athena_partition_unfold. intros H.
  destruct (repoint_target cfg key) as [[[table bp] path]|] eqn:Ht.
  2: { injection H as <- <-. exists []. rewrite app_nil_r.
       repeat split; [by apply skipped|done]. }
  unfold bind, S3.list_objects_v2, answer in H.
  destruct (list_objects_fault flt _ _) as [e|].
  { injection H as <- <-. eexists. split; [done|].
    repeat split; [by eapply listing_failed|done]. }
  cbn [log objects] in H.
  destruct (data_files_of _) as [|k ks] eqn:Hd.
  { injection H as <- <-. eexists. split; [done|].
    repeat split; [by eapply gate_closed|done]. }
  unfold Glue.get_table, answer in H.
  destruct (get_table_fault flt _ _) as [e|].
  { injection H as <- <-. eexists. split; [cbn; by rewrite <- app_assoc|].
    repeat split; [by eapply table_failed|done]. }
  cbn [log tables] in H.
  destruct (tables w !! _) as [sd0|].
  2: { injection H as <- <-. eexists. split; [cbn; by rewrite <- app_assoc|].
       repeat split; [by eapply table_failed|done]. }
  apply update_or_create_trace in H as (trace & Hc & Hu & Ho & _).
  cbn in Hc, Ho. exists ([(S3ListObjectsV2 bucket (path +:+ "/") (Some 20), None);
     (GlueGetTable (GLUE_DATABASE cfg) table, None)] ++ trace).
  split; [rewrite Hc; by rewrite <- !app_assoc|].
  split; [|split; [done|]].
  - eapply repointed; [done| |done]. rewrite Hd. apply list_elem_of_here.
  - intros _. destruct (update_trace_has_write _ _ _ _ _ _ Hu) as (ev & Hev & Hw).
    exists ev. split; [|done]. apply elem_of_app. by right.
Qed.

(** with a repoint target, a data file listed and the table definition
    fetched, the update is the next call, and what follows it is one of the
    three ways of [update_trace] *)
Lemma update_attempted bucket key w w' r table bp path sd0 :
  update_athena_partition cfg flt bucket key w = (w', r) →
  repoint_target cfg key = Some (table, bp, path) →
  list_objects_fault flt bucket (path +:+ "/") = None →
  data_files_of (take 20 (S3.keys_under w bucket (path +:+ "/"))) ≠ [] →
  get_table_fault flt (GLUE_DATABASE cfg) table = None →
  tables w !! (GLUE_DATABASE cfg, table) = Some sd0 →
  let sd := <["Location" := "s3://" +:+ bucket +:+ "/" +:+ path +:+ "/"]> sd0 in
  ∃ err rest,
    new_calls w w'
    = [(S3ListObjectsV2 bucket (path +:+ "/") (Some 20), None);
       (GlueGetTable (GLUE_DATABASE cfg) table, None);
       (GlueUpdatePartition (GLUE_DATABASE cfg) table [bp] sd, err)] ++ rest
    ∧ update_trace (GLUE_DATABASE cfg) table bp sd
        ((GlueUpdatePartition (GLUE_DATABASE cfg) table [bp] sd, err) :: rest) r.
Proof.
  rewrite update_athena_partition_unfold. intros H Htgt Hlist Hfiles Hget Htab.
  rewrite Htgt in H.
  unfold bind, S3.list_objects_v2, answer in H. rewrite Hlist in H.
  cbn [log objects] in H.
  destruct (data_files_of _) as [|k ks] eqn:Hd; [done|].
  unfold Glue.get_table, answer in H. rewrite Hget in H.
  cbn [log tables] in H. rewrite Htab in H.
  apply update_or_create_trace in H as (trace & Hc & Hu & _).
  cbn in Hc.
  assert (∃ err rest,
            trace = (GlueUpdatePartition (GLUE_DATABASE cfg) table [bp]
                       (<["Location" := "s3://" +:+ bucket +:+ "/" +:+ path
                                         +:+ "/"]> sd0), err) :: rest)
    as (err & rest & ->) by (destruct Hu; eauto).
  exists err, rest. split; [|done].
  apply WorldFacts.new_calls_extends. rewrite Hc. by rewrite <- !app_assoc.
Qed.

End RepointFacts.

(** * The partition repoint *)

(** C1: whenever [update_athena_partition] changes the partitions of the
    catalog, or as much as calls update or create, the listing of the
    assembly folder made in that invocation returned a key ending in
    [.csv.gz], which is an object of the bucket under that folder, and every
    update or create of the invocation writes the location of that folder.
    So with no such key the partition is left alone, and a partition is
    never pointed at a folder without a data file. *)
Theorem repoint_only_with_data_file
    (cfg : config) (flt : faults) (bucket key : string) (w w' : world)
    (r : outcome unit) :
  update_athena_partition cfg flt bucket key w = (w', r) →
  (partitions w' ≠ partitions w
   ∨ ∃ ev, ev ∈ new_calls w w' ∧ is_partition_write ev.1 = true) →
  ∃ folder k,
    (S3ListObjectsV2 bucket (folder +:+ "/") (Some 20), None) ∈ new_calls w w'
    ∧ k ∈ take 20 (S3.keys_under w bucket (folder +:+ "/"))
    ∧ Str.endswith k ".csv.gz" = true
    ∧ is_Some (bucket_of w bucket !! k)
    ∧ Str.startswith k (folder +:+ "/") = true
    ∧ ∀ ev database table values sd,
        ev ∈ new_calls w w' →
        ev.1 = GlueUpdatePartition database table values sd
        ∨ ev.1 = GlueCreatePartition database table values sd →
        sd !! "Location"
        = Some ("s3://" +:+ bucket +:+ "/" +:+ folder +:+ "/").
Proof.
  intros H Hw.
  apply update_athena_partition_trace in H as (trace & Hc & Ht & _ & Hp).
  rewrite (WorldFacts.new_calls_extends _ _ _ Hc) in *.
  assert (Hev : ∃ ev, ev ∈ trace ∧ is_partition_write ev.1 = true).
  { destruct Hw as [Hw|Hw]; [by apply Hp|done]. }
  clear Hw Hp. destruct Hev as (ev & Hev & Hwr).
  destruct Ht as [?|table bp path e ?|table bp path ? ?|table bp path e ?
                  |table bp path k sd0 trace r Htgt Hk Hu].
  1-4: exfalso; repeat (apply elem_of_cons in Hev as [->|Hev]; [done|]);
       by apply elem_of_nil in Hev.
  exists path, k.
  apply WorldFacts.data_files_of_elem in Hk as [Hsuffix Hk].
  pose proof (WorldFacts.elem_of_take_elem _ _ _ Hk) as Hin.
  apply WorldFacts.keys_under_elem in Hin as [Hobj Hpre].
  split; [apply list_elem_of_here|]. repeat split; [done..|].
  intros ev' db t v sd Hev' Hcall.
  apply elem_of_cons in Hev' as [->|Hev']; [by destruct Hcall|].
  apply elem_of_cons in Hev' as [->|Hev']; [by destruct Hcall|].
  destruct Hu;
    repeat (apply elem_of_cons in Hev' as [->|Hev'];
            [destruct Hcall as [[=]|[=]]; subst; apply lookup_insert_eq|]);
    by apply elem_of_nil in Hev'.
Qed.

Section ProcessRecordFacts.

Variable cfg : config.
Variable flt : faults.

(** the partition stage never raises; when it runs the repoint it keeps the
    world the repoint left and drops its outcome *)
Lemma partition_stage_swallows destination_key w :
  (partition_stage cfg flt destination_key w).2 = Returns ()
  ∧ (Str.truthy (GLUE_DATABASE cfg) = true →
     is_assembly_manifest destination_key
     || is_assembly_data_file destination_key = true →
     (partition_stage cfg flt destination_key w).1
     = (update_athena_partition cfg flt (DESTINATION_BUCKET cfg)
          destination_key w).1).
Proof.
  unfold partition_stage.
  destruct (Str.truthy (GLUE_DATABASE cfg)); [|split; [done|congruence]].
  destruct destination_key as [|c key']; [split; [done|]; intros _ [=]|].
  set (key := String c key').
  assert (Hrun : ∀ P : world * outcome unit → Prop,
    P (let (w1, _) := update_athena_partition cfg flt (DESTINATION_BUCKET cfg)
                        key w in (w1, Returns ())) →
    P (if Str.truthy key
       then (λ w, let (w1, _) := update_athena_partition cfg flt
                                   (DESTINATION_BUCKET cfg) key w
                  in (w1, Returns ())) w
       else ret () w)) by done.
  destruct (is_assembly_manifest key) eqn:Hm;
    [|destruct (is_assembly_data_file key) eqn:Hd].
  3: { split; [done|]. intros _ [=]. }
  all: cbn [Str.truthy key];
    destruct (update_athena_partition cfg flt (DESTINATION_BUCKET cfg) key w);
    done.
Qed.

Lemma process_record_after_copy r w w1 source_bucket source_key
    destination_key copied :
  copy_stage cfg flt r w
  = (w1, Returns (source_bucket, source_key, destination_key, copied)) →
  process_record cfg flt r w
  = ((partition_stage cfg flt destination_key w1).1,
     Returns {| source := "s3://" +:+ source_bucket +:+ "/" +:+ source_key;
                destination := "s3://" +:+ DESTINATION_BUCKET cfg +:+ "/"
                               +:+ destination_key;
                copied_data_files :=
                  match copied with
                  | [] => None
                  | _ => Some (length copied)
                  end |}).
Proof.
  intros H. unfold process_record, bind. rewrite H.
  pose proof (partition_stage_swallows destination_key w1) as [Hr _].
  destruct (partition_stage cfg flt destination_key w1) as [w2 r2].
  cbn in Hr. by subst r2.
Qed.

End ProcessRecordFacts.

(** where the create and the failed calls stand in what one run of the
    repoint logged *)
Lemma update_then_create_calls (cfg : config) (flt : faults) bucket key w w' r :
  update_athena_partition cfg flt bucket key w = (w', r) →
     (∀ database table values sd,
        (∃ err, (GlueCreatePartition database table values sd, err)
                ∈ new_calls w w')
        ↔ (GlueUpdatePartition database table values sd,
           Some (ClientError "EntityNotFoundException")) ∈ new_calls w w')
     ∧ (∀ i database table values sd err,
          new_calls w w' !! i
          = Some (GlueCreatePartition database table values sd, err) →
          ∃ j, j < i
               ∧ new_calls w w' !! j
                 = Some (GlueUpdatePartition database table values sd,
                         Some (ClientError "EntityNotFoundException")))
     ∧ (∀ database table e,
          (GlueGetTable database table, Some e) ∈ new_calls w w' →
          r = Raises e)
     ∧ (∀ database table values sd e,
          (GlueUpdatePartition database table values sd, Some e)
          ∈ new_calls w w' →
          e ≠ ClientError "EntityNotFoundException" → r = Raises e)
     ∧ (∀ database table values sd e,
          (GlueCreatePartition database table values sd, Some e)
          ∈ new_calls w w' →
          r = Raises e).
Proof.
  intros H.
  apply update_athena_partition_trace in H as (trace & Hc & Ht & _ & _).
  rewrite (WorldFacts.new_calls_extends _ _ _ Hc). clear Hc.
  destruct Ht as [?|table bp path e ?|table bp path ? ?|table bp path e ?
                  |table bp path k sd0 trace r Htgt Hk Hu];
    [..|destruct Hu as [|err|e Hne]]; cbn [app].
  all: split;
    [intros db t v sd; split; [intros [err' Hin]|intros Hin]
    |split; [intros i db t v sd err' Hin
            |split; [intros db t e' Hin
                    |split; [intros db t v sd e' Hin Hne'
                            |intros db t v sd e' Hin]]]].
  all: repeat match goal with
              | H : _ !! ?i = Some _ |- _ =>
                  is_var i; destruct i as [|i]; simplify_eq/=
              | H : _ ∈ _ :: _ |- _ => apply elem_of_cons in H as [?|H]
              | H : _ ∈ [] |- _ => by apply elem_of_nil in H
              end; simplify_eq/=.
  all: first
    [ done
    | solve [repeat first [apply list_elem_of_here|apply list_elem_of_further]]
    | solve [eexists;
             repeat first [apply list_elem_of_here|apply list_elem_of_further]]
    | solve [exists 2; split; [lia|done]] ].
Qed.

(** C4: inside [update_athena_partition], once a data file is listed and
    the table definition is fetched, the next call is the update of the
    partition keyed by the billing period, with the table's descriptor
    pointed at the assembly folder; create is called exactly when that
    update raised the [EntityNotFoundException] client error, and after it;
    a failure of [get_table], any other failure of the update, and a failure
    of the create are raised by [update_athena_partition]; [process_record]
    drops whatever the repoint raises: once the copy stage returned, it
    returns the item's result. *)
Theorem repoint_update_then_create (cfg : config) (flt : faults) :
  (∀ bucket key w w' r,
     update_athena_partition cfg flt bucket key w = (w', r) →
     (∀ database table values sd,
        (∃ err, (GlueCreatePartition database table values sd, err)
                ∈ new_calls w w')
        ↔ (GlueUpdatePartition database table values sd,
           Some (ClientError "EntityNotFoundException")) ∈ new_calls w w')
     ∧ (∀ i database table values sd err,
          new_calls w w' !! i
          = Some (GlueCreatePartition database table values sd, err) →
          ∃ j, j < i
               ∧ new_calls w w' !! j
                 = Some (GlueUpdatePartition database table values sd,
                         Some (ClientError "EntityNotFoundException")))
     ∧ (∀ database table e,
          (GlueGetTable database table, Some e) ∈ new_calls w w' →
          r = Raises e)
     ∧ (∀ database table values sd e,
          (GlueUpdatePartition database table values sd, Some e)
          ∈ new_calls w w' →
          e ≠ ClientError "EntityNotFoundException" → r = Raises e)
     ∧ (∀ database table values sd e,
          (GlueCreatePartition database table values sd, Some e)
          ∈ new_calls w w' →
          r = Raises e)
     ∧ (∀ table bp path sd0,
          repoint_target cfg key = Some (table, bp, path) →
          list_objects_fault flt bucket (path +:+ "/") = None →
          data_files_of (take 20 (S3.keys_under w bucket (path +:+ "/"))) ≠ [] →
          get_table_fault flt (GLUE_DATABASE cfg) table = None →
          tables w !! (GLUE_DATABASE cfg, table) = Some sd0 →
          let sd := <["Location" := "s3://" +:+ bucket +:+ "/" +:+ path
                                     +:+ "/"]> sd0 in
          ∃ err rest,
            new_calls w w'
            = [(S3ListObjectsV2 bucket (path +:+ "/") (Some 20), None);
               (GlueGetTable (GLUE_DATABASE cfg) table, None);
               (GlueUpdatePartition (GLUE_DATABASE cfg) table [bp] sd, err)]
              ++ rest
            ∧ update_trace (GLUE_DATABASE cfg) table bp sd
                ((GlueUpdatePartition (GLUE_DATABASE cfg) table [bp] sd, err)
                 :: rest) r))
  ∧ (∀ record w w1 source_bucket source_key destination_key copied,
       copy_stage cfg flt record w
       = (w1, Returns (source_bucket, source_key, destination_key, copied)) →
       (∃ result,
          process_record cfg flt record w
          = ((partition_stage cfg flt destination_key w1).1, Returns result))
       ∧ (Str.truthy (GLUE_DATABASE cfg) = true →
          is_assembly_manifest destination_key
          || is_assembly_data_file destination_key = true →
          (partition_stage cfg flt destination_key w1).1
          = (update_athena_partition cfg flt (DESTINATION_BUCKET cfg)
               destination_key w1).1)).
Proof.
  split.
  - intros bucket key w w' r H.
    destruct (update_then_create_calls cfg flt _ _ _ _ _ H)
      as (Hiff & Horder & Hget & Hupdate & Hcreate).
    repeat (split; [assumption|]).
    intros table bp path sd0. by apply update_attempted.
  - intros record w w1 sb sk dk copied H. split.
    + eexists. by apply process_record_after_copy.
    + apply partition_stage_swallows.
Qed.

(** * The manifest expansion *)

Section ExpansionFacts.

#[local] Set Warnings "-clear-no-such-hyp".

Variable cfg : config.
Variable flt : faults.
Variable source_bucket : string.
Variable prefix_config : gmap string string.

Lemma bucket_of_put bucket key body w k :
  bucket_of (put_object bucket key body w) bucket !! k
  = if decide (key = k) then Some body else bucket_of w bucket !! k.
Proof.
  unfold bucket_of at 1. cbn [put_object objects].
  rewrite lookup_insert_eq. cbn [default]. apply lookup_insert.
Qed.

(** one turn of the loop, for a probe that answers or raises a client error *)
Lemma copy_report_keys_step report_key rest acc w :
  (∀ name, head_object_fault flt (DESTINATION_BUCKET cfg)
             (calculate_destination_key report_key prefix_config)
           ≠ Some (Exception name)) →
  ∃ w1 trace rec,
    copy_report_keys cfg flt source_bucket prefix_config (report_key :: rest)
      acc w
    = copy_report_keys cfg flt source_bucket prefix_config rest
        (acc ++ option_list rec) w1
    ∧ calls w1 = calls w ++ trace
    ∧ file_trace cfg source_bucket report_key
        (calculate_destination_key report_key prefix_config) trace rec
    ∧ (∀ d, present cfg w1 d ↔
            present cfg w d
            ∨ (rec = Some (calculate_destination_key report_key prefix_config)
               ∧ d = calculate_destination_key report_key prefix_config))
    ∧ (head_object_fault flt (DESTINATION_BUCKET cfg)
         (calculate_destination_key report_key prefix_config) = None →
       (present cfg w (calculate_destination_key report_key prefix_config) →
        rec = Some (calculate_destination_key report_key prefix_config)
        ∧ trace = [(S3HeadObject (DESTINATION_BUCKET cfg)
                      (calculate_destination_key report_key prefix_config),
                    None)]
        ∧ objects w1 = objects w)
       ∧ (rec = None →
          ¬ present cfg w
              (calculate_destination_key report_key prefix_config))).
Proof.
  set (d := calculate_destination_key report_key prefix_config).
  intros Hprobe. cbn [copy_report_keys]. fold d.
  unfold S3.head_object, answer.
  assert (Hcopy : ∀ code,
    ∃ w1 trace rec,
      match copy_object flt source_bucket report_key (DESTINATION_BUCKET cfg) d
              (log (S3HeadObject (DESTINATION_BUCKET cfg) d)
                   (Some (ClientError code)) w) with
      | (w2, Returns _) =>
          copy_report_keys cfg flt source_bucket prefix_config rest
            (acc ++ [d]) w2
      | (w2, Raises _) =>
          copy_report_keys cfg flt source_bucket prefix_config rest acc w2
      end
      = copy_report_keys cfg flt source_bucket prefix_config rest
          (acc ++ option_list rec) w1
      ∧ calls w1 = calls w ++ trace
      ∧ trace !! 0 = Some (S3HeadObject (DESTINATION_BUCKET cfg) d,
                           Some (ClientError code))
      ∧ file_trace cfg source_bucket report_key d trace rec
      ∧ (∀ d', present cfg w1 d' ↔ present cfg w d' ∨ (rec = Some d ∧ d' = d))
      ∧ (rec = None → objects w1 = objects w)).
  { intros code. unfold copy_object, S3.copy_object, answer.
    destruct (copy_object_fault flt _ _ _ _) as [e|].
    { eexists _, _, None. rewrite app_nil_r. split; [done|].
      split; [cbn; by rewrite <- app_assoc|]. split; [done|].
      split; [apply copy_failed|]. split; [|done].
      intros d'. unfold present. cbn. naive_solver. }
    destruct (bucket_of _ source_bucket !! report_key) as [body|] eqn:Hsrc.
    - eexists _, _, (Some d). split; [done|].
      split; [cbn; by rewrite <- app_assoc|]. split; [done|].
      split; [apply copied|]. split; [|done].
      intros d'. unfold present.
      change (bucket_of (log ?c ?e ?w0) ?b) with (bucket_of w0 b).
      rewrite bucket_of_put.
      change (bucket_of (log ?c ?e ?w0) ?b) with (bucket_of w0 b).
      case_decide; subst; naive_solver.
    - eexists _, _, None. rewrite app_nil_r. split; [done|].
      split; [cbn; by rewrite <- app_assoc|]. split; [done|].
      split; [apply copy_failed|]. split; [|done].
      intros d'. unfold present. cbn. naive_solver. }
  destruct (head_object_fault flt (DESTINATION_BUCKET cfg) d) as [[code|name]|]
    eqn:Hf.
  - destruct (Hcopy code) as (w1 & trace & rec & Hrun & Hc & _ & Ht & Hp & _).
    exists w1, trace, rec. do 4 (split; [done|]). intros [=].
  - by destruct (Hprobe name).
  - destruct (bucket_of w (DESTINATION_BUCKET cfg) !! d) eqn:Hd.
    + eexists _, _, (Some d). split; [done|]. split; [done|].
      split; [apply verified|]. split.
      * intros d'. unfold present. cbn.
        change (bucket_of (log ?c ?e ?w0) ?b) with (bucket_of w0 b).
        split; [by left|]. intros [?|[_ ->]]; [done|]. by rewrite Hd.
      * intros _. split; [done|]. intros [=].
    + destruct (Hcopy "404") as (w1 & trace & rec & Hrun & Hc & H0 & Ht & Hp & _).
      exists w1, trace, rec. do 4 (split; [done|]). intros _.
      split; [intros [? Hx]|intros _ [? Hx]]; rewrite Hd in Hx; congruence.
Qed.

#[local] Abbreviation dest := (λ report_key,
  calculate_destination_key report_key prefix_config).

(** the whole loop: one group of calls per report key, in order *)
Lemma copy_report_keys_groups report_keys :
  ∀ acc w,
  (∀ rk name, rk ∈ report_keys →
     head_object_fault flt (DESTINATION_BUCKET cfg) (dest rk)
     ≠ Some (Exception name)) →
  ∃ w' groups,
    copy_report_keys cfg flt source_bucket prefix_config report_keys acc w
    = (w', Returns (acc ++ omap snd groups))
    ∧ calls w' = calls w ++ concat (fst <$> groups)
    ∧ Forall2 (λ rk g, file_trace cfg source_bucket rk (dest rk) g.1 g.2)
        report_keys groups
    ∧ (∀ d, present cfg w' d → present cfg w d ∨ d ∈ omap snd groups)
    ∧ ((∀ rk, rk ∈ report_keys →
          head_object_fault flt (DESTINATION_BUCKET cfg) (dest rk) = None) →
       (∀ rk, rk ∈ report_keys → present cfg w' (dest rk) →
          dest rk ∈ omap snd groups)
       ∧ ((∀ rk, rk ∈ report_keys → present cfg w (dest rk)) →
          omap snd groups = dest <$> report_keys
          ∧ concat (fst <$> groups)
            = (λ rk, (S3HeadObject (DESTINATION_BUCKET cfg) (dest rk), None))
              <$> report_keys
          ∧ objects w' = objects w)).
Proof.
  induction report_keys as [|rk rest IH]; intros acc w Hprobe.
  { exists w, []. cbn. rewrite !app_nil_r.
    split; [done|]. split; [done|]. split; [constructor|].
    split; [by left|]. intros _. split; [|done].
    intros rk Hrk. by apply elem_of_nil in Hrk. }
  destruct (copy_report_keys_step rk rest acc w)
    as (w1 & trace & rec & Hrun & Hc & Ht & Hp & Hfaith).
  { intros name. apply Hprobe, list_elem_of_here. }
  destruct (IH (acc ++ option_list rec) w1)
    as (w' & groups & Hrun' & Hc' & Hg & Hnew & Hfaith').
  { intros rk' name Hin. by apply Hprobe, list_elem_of_further. }
  exists w', ((trace, rec) :: groups).
  assert (Hrec : omap snd ((trace, rec) :: groups)
                 = option_list rec ++ omap snd groups) by by destruct rec.
  rewrite Hrec.
  split; [by rewrite Hrun, Hrun', <- app_assoc|].
  split; [by rewrite Hc', Hc, <- app_assoc|].
  split; [by constructor|].
  split.
  { intros d Hd. rewrite elem_of_app.
    destruct (Hnew d Hd) as [Hd1|?]; [|by auto].
    apply Hp in Hd1 as [?|[-> ->]]; [by auto|].
    right; left. apply list_elem_of_here. }
  intros Hnofault.
  destruct Hfaith as [Hpres Habs]; [apply Hnofault, list_elem_of_here|].
  destruct Hfaith' as [Hall Hidem];
    [intros; by apply Hnofault, list_elem_of_further|].
  split.
  - intros rk' Hin Hd. rewrite elem_of_app.
    apply elem_of_cons in Hin as [->|Hin]; [|by right; apply Hall].
    destruct rec as [d0|] eqn:Hrecd.
    + left. inversion Ht; subst; apply list_elem_of_here.
    + right. destruct (Hnew _ Hd) as [Hd1|?]; [|done].
      apply Hp in Hd1 as [Hd1|[[=] _]]. by destruct (Habs eq_refl).
  - intros Hallp.
    destruct Hpres as (-> & -> & Hobj); [apply Hallp, list_elem_of_here|].
    destruct Hidem as (Hrecs & Htraces & Hobj').
    { intros rk' Hin. apply Hp. left. by apply Hallp, list_elem_of_further. }
    cbn. rewrite Hrecs, Htraces, Hobj', Hobj. done.
Qed.


End ExpansionFacts.




Example stale_manifest_expansion :
  (copy_manifest_data_files Scenario.cfg no_faults "src"
     Scenario.stale_manifest (rule "cur" "acct/") Scenario.w0).2
  = Returns ["acct/20240101-20240201/20240115T120000Z/part-1.csv.gz";
             "acct/20240101-20240201/20240115T120000Z/part-2.csv.gz"].
Proof. vm_compute. reflexivity. Qed.


(** a probe error in the first run alone also breaks the claim: with every
    probe of the first run answered with 403, a file that is at the
    destination but no longer at the source is not returned by the first
    run, and is returned by the second, which makes no copy *)
Example manifest_expansion_first_run_probe_fault :
  let d0 := "acct/20240101-20240201/20240115T120000Z/part-0.csv.gz" in
  let d1 := "acct/20240101-20240201/20240115T120000Z/part-1.csv.gz" in
  let d2 := "acct/20240101-20240201/20240115T120000Z/part-2.csv.gz" in
  let run flt := copy_manifest_data_files Scenario.cfg flt "src"
                   Scenario.stale_manifest (rule "cur" "acct/") in
  let w := put_object "dst" d0 (Bytes "zero") Scenario.w0 in
  let w1 := (run Scenario.head_forbidden w).1 in
  let w2 := (run no_faults w1).1 in
  (run Scenario.head_forbidden w).2 = Returns [d1; d2]
  ∧ is_Some (bucket_of w1 "dst" !! d0)
  ∧ is_Some (bucket_of w1 "dst" !! d1)
  ∧ is_Some (bucket_of w1 "dst" !! d2)
  ∧ (run no_faults w1).2 = Returns [d1; d0; d2]
  ∧ filter (λ ev, is_copy ev.1 = true) (new_calls w1 w2) = [].
Proof. vm_compute. repeat split; try reflexivity; by eexists. Qed.



(** with probes that answer in both runs, the two runs return the same
    keys *)
Example manifest_expansion_twice :
  let run := copy_manifest_data_files Scenario.cfg no_faults "src"
               Scenario.manifest (rule "cur" "acct/") in
  let d1 := "acct/20240101-20240201/20240115T120000Z/part-1.csv.gz" in
  let d2 := "acct/20240101-20240201/20240115T120000Z/part-2.csv.gz" in
  let w1 := (run Scenario.w0).1 in
  let w2 := (run w1).1 in
  (run Scenario.w0).2 = Returns [d1; d2]
  ∧ (run w1).2 = Returns [d1; d2]
  ∧ filter (λ ev, is_copy ev.1 = true) (new_calls w1 w2) = [].
Proof. vm_compute. repeat split; reflexivity. Qed.

(** * Examples of the partition repoint *)

Lemma repoint_only_with_data_file_witness :
  ∃ folder k,
    (S3ListObjectsV2 "dst" (folder +:+ "/") (Some 20), None)
    ∈ new_calls Scenario.w_forwarded
        (update_athena_partition Scenario.cfg no_faults "dst"
           "acct/20240101-20240201/20240115T120000Z/part-1.csv.gz"
           Scenario.w_forwarded).1
    ∧ k ∈ take 20 (S3.keys_under Scenario.w_forwarded "dst" (folder +:+ "/"))
    ∧ Str.endswith k ".csv.gz" = true
    ∧ is_Some (bucket_of Scenario.w_forwarded "dst" !! k)
    ∧ Str.startswith k (folder +:+ "/") = true
    ∧ ∀ ev database table values sd,
        ev ∈ new_calls Scenario.w_forwarded
               (update_athena_partition Scenario.cfg no_faults "dst"
                  "acct/20240101-20240201/20240115T120000Z/part-1.csv.gz"
                  Scenario.w_forwarded).1 →
        ev.1 = GlueUpdatePartition database table values sd
        ∨ ev.1 = GlueCreatePartition database table values sd →
        sd !! "Location" = Some ("s3://" +:+ "dst" +:+ "/" +:+ folder +:+ "/").
Proof.
  apply (repoint_only_with_data_file Scenario.cfg no_faults "dst"
           "acct/20240101-20240201/20240115T120000Z/part-1.csv.gz"
           Scenario.w_forwarded _
           (update_athena_partition Scenario.cfg no_faults "dst"
              "acct/20240101-20240201/20240115T120000Z/part-1.csv.gz"
              Scenario.w_forwarded).2).
  - apply surjective_pairing.
  - left. intros Heq.
    apply (f_equal (λ m, m !! ("cur_db", "acct_table", ["20240101-20240201"])))
      in Heq.
    vm_compute in Heq. congruence.
Defined.

Example repoint_creates_partition :
  (update_athena_partition Scenario.cfg no_faults "dst"
     "acct/20240101-20240201/20240115T120000Z/part-1.csv.gz"
     Scenario.w_forwarded).1.(partitions)
  !! ("cur_db", "acct_table", ["20240101-20240201"])
  = Some {[ "Location" := "s3://dst/acct/20240101-20240201/20240115T120000Z/";
            "InputFormat" := "text" ]}.
Proof. vm_compute. reflexivity. Qed.

(** a manifest-only assembly folder: the gate stays closed *)
Example repoint_skipped_without_data :
  let w := put_object "dst"
             "acct/20240101-20240201/20240115T120000Z/report-Manifest.json"
             (ManifestJson None) Scenario.w0 in
  let run := update_athena_partition Scenario.cfg no_faults "dst"
               "acct/20240101-20240201/20240115T120000Z/report-Manifest.json" w in
  run.2 = Returns ()
  ∧ new_calls w run.1
    = [(S3ListObjectsV2 "dst" "acct/20240101-20240201/20240115T120000Z/"
          (Some 20), None)]
  ∧ partitions run.1 = ∅.
Proof. vm_compute. repeat split; reflexivity. Qed.

(** the partition is not in the catalog yet: the update comes first, raises
    [EntityNotFoundException], and the create follows *)
Example repoint_update_falls_back_to_create :
  let key := "acct/20240101-20240201/20240115T120000Z/part-1.csv.gz" in
  let sd : storage_descriptor :=
    {[ "Location" := "s3://dst/acct/20240101-20240201/20240115T120000Z/";
       "InputFormat" := "text" ]} in
  let run := update_athena_partition Scenario.cfg no_faults "dst" key
               Scenario.w_forwarded in
  run.2 = Returns ()
  ∧ new_calls Scenario.w_forwarded run.1
    = [(S3ListObjectsV2 "dst" "acct/20240101-20240201/20240115T120000Z/"
          (Some 20), None);
       (GlueGetTable "cur_db" "acct_table", None);
       (GlueUpdatePartition "cur_db" "acct_table" ["20240101-20240201"] sd,
        Some (ClientError "EntityNotFoundException"));
       (GlueCreatePartition "cur_db" "acct_table" ["20240101-20240201"] sd,
        None)].
Proof. vm_compute. split; reflexivity. Qed.

(** the partition is in the catalog: the update alone *)
Example repoint_updates_partition :
  let key := "acct/20240101-20240201/20240115T120000Z/part-1.csv.gz" in
  let sd : storage_descriptor :=
    {[ "Location" := "s3://dst/acct/20240101-20240201/20240115T120000Z/";
       "InputFormat" := "text" ]} in
  let w := put_partition "cur_db" "acct_table" ["20240101-20240201"]
             {[ "Location" := "s3://dst/acct/20240101-20240201/20240110T120000Z/";
                "InputFormat" := "text" ]} Scenario.w_forwarded in
  let run := update_athena_partition Scenario.cfg no_faults "dst" key w in
  run.2 = Returns ()
  ∧ new_calls w run.1
    = [(S3ListObjectsV2 "dst" "acct/20240101-20240201/20240115T120000Z/"
          (Some 20), None);
       (GlueGetTable "cur_db" "acct_table", None);
       (GlueUpdatePartition "cur_db" "acct_table" ["20240101-20240201"] sd,
        None)]
  ∧ partitions run.1 !! ("cur_db", "acct_table", ["20240101-20240201"])
    = Some sd.
Proof. vm_compute. repeat split; reflexivity. Qed.

Lemma repoint_update_then_create_witness :
  (* a data file is listed and the table definition fetched: the update of
     the partition is the next call *)
  (let key := "acct/20240101-20240201/20240115T120000Z/part-1.csv.gz" in
   let path := "acct/20240101-20240201/20240115T120000Z" in
   let sd0 : storage_descriptor :=
     {[ "Location" := "s3://dst/acct/"; "InputFormat" := "text" ]} in
   let run := update_athena_partition Scenario.cfg no_faults "dst" key
                Scenario.w_forwarded in
   let sd := <["Location" := "s3://" +:+ "dst" +:+ "/" +:+ path +:+ "/"]> sd0 in
   ∃ err rest,
     new_calls Scenario.w_forwarded run.1
     = [(S3ListObjectsV2 "dst" (path +:+ "/") (Some 20), None);
        (GlueGetTable (GLUE_DATABASE Scenario.cfg) "acct_table", None);
        (GlueUpdatePartition (GLUE_DATABASE Scenario.cfg) "acct_table"
           ["20240101-20240201"] sd, err)] ++ rest
     ∧ update_trace (GLUE_DATABASE Scenario.cfg) "acct_table"
         "20240101-20240201" sd
         ((GlueUpdatePartition (GLUE_DATABASE Scenario.cfg) "acct_table"
             ["20240101-20240201"] sd, err) :: rest) run.2)
  (* the table is missing from the catalog: get_table raises, the repoint
     raises it, and the item is reported all the same *)
  ∧ (let cfg := {| DESTINATION_BUCKET := "dst";
                   PREFIX_MAPPING := {[ "src" := rule "cur" "acct/" ]};
                   GLUE_DATABASE := "other_db";
                   TABLE_MAPPING := [("acct/", "acct_table")] |} in
     (update_athena_partition cfg no_faults "dst"
        "acct/20240101-20240201/20240115T120000Z/part-1.csv.gz"
        Scenario.w_forwarded).2
     = Raises (ClientError "EntityNotFoundException")
     ∧ ∃ result,
         (process_record cfg no_faults
            (Scenario.notification (Scenario.part "1")) Scenario.w0).2
         = Returns result).
Proof.
  split.
  - intros key path sd0 run.
    destruct (repoint_update_then_create Scenario.cfg no_faults)
      as [Hrepoint _].
    destruct (Hrepoint "dst" key Scenario.w_forwarded run.1 run.2
                (surjective_pairing _))
      as (_ & _ & _ & _ & _ & Hupdate).
    apply (Hupdate "acct_table" "20240101-20240201" path sd0).
    + vm_compute. reflexivity.
    + reflexivity.
    + vm_compute. congruence.
    + reflexivity.
    + vm_compute. reflexivity.
  - intros cfg.
    pose proof (repoint_update_then_create cfg no_faults) as [Hrepoint Hitem].
    split.
    + destruct (Hrepoint "dst"
                  "acct/20240101-20240201/20240115T120000Z/part-1.csv.gz"
                  Scenario.w_forwarded _ _ (surjective_pairing _))
        as (_ & _ & Htable & _).
      apply (Htable "other_db" "acct_table").
      vm_compute. apply list_elem_of_further, list_elem_of_here.
    + destruct (Hitem (Scenario.notification (Scenario.part "1")) Scenario.w0
                  (copy_stage cfg no_faults
                     (Scenario.notification (Scenario.part "1")) Scenario.w0).1
                  "src" (Scenario.part "1")
                  "acct/20240101-20240201/20240115T120000Z/part-1.csv.gz" [])
        as [[result Hresult] _].
      * vm_compute. reflexivity.
      * exists result. by rewrite Hresult.
Defined.

(** * The handler *)

Section HandlerFacts.

Variable cfg : config.
Variable flt : faults.

Lemma handle_records_app before after :
  ∀ processed_files errors w,
  handle_records cfg flt (before ++ after) processed_files errors w
  = match handle_records cfg flt before processed_files errors w with
    | (w1, (processed_files1, errors1)) =>
        handle_records cfg flt after processed_files1 errors1 w1
    end.
Proof.
  induction before as [|r before IH]; intros fs es w; [done|].
  cbn [app handle_records].
  destruct (try_record cfg flt r fs w) as [w1 [fs1 [e|]]]; apply IH.
Qed.

Lemma process_sns_records_grows s3_records :
  ∀ fs w, ∃ new,
    (process_sns_records cfg flt s3_records fs w).2.1 = fs ++ new.
Proof.
  induction s3_records as [|r rs IH]; intros fs w; cbn.
  { exists []. by rewrite app_nil_r. }
  destruct (process_record cfg flt r w) as [w1 [result|e]]; cbn.
  - destruct (IH (fs ++ [result]) w1) as [new Hnew].
    exists (result :: new). rewrite Hnew. by rewrite <- app_assoc.
  - exists []. by rewrite app_nil_r.
Qed.

(** one record of the event: results are only appended, and a direct record
    yields exactly one result or one error *)
Lemma try_record_outcome r fs w :
  ∃ new,
    (try_record cfg flt r fs w).2.1 = fs ++ new
    ∧ (is_direct r = true →
       length new + length (option_list (try_record cfg flt r fs w).2.2) = 1).
Proof.
  destruct r as [s3|[s3_records|]]; cbn.
  - destruct (process_record cfg flt s3 w) as [w1 [result|e]]; cbn.
    + by exists [result].
    + exists []. by rewrite app_nil_r.
  - destruct (process_sns_records_grows s3_records fs w) as [new Hnew].
    exists new. split; [done|]. intros [=].
  - exists []. rewrite app_nil_r. split; [done|]. intros [=].
Qed.

Lemma handle_records_counts records :
  ∀ fs es w, ∃ new_files new_errors,
    (handle_records cfg flt records fs es w).2 = (fs ++ new_files, es ++ new_errors)
    ∧ length new_errors ≤ length records
    ∧ (forallb is_direct records = true →
       length new_files + length new_errors = length records).
Proof.
  induction records as [|r rs IH]; intros fs es w.
  { exists [], []. cbn. by rewrite !app_nil_r. }
  cbn [handle_records].
  destruct (try_record_outcome r fs w) as (new & Hnew & Hone).
  destruct (try_record cfg flt r fs w) as [w1 [fs1 oe]]. cbn in Hnew, Hone.
  subst fs1.
  destruct oe as [e|].
  - destruct (IH (fs ++ new) (es ++ [e]) w1) as (nf & ne & Hrun & Hle & Hall).
    exists (new ++ nf), (e :: ne). rewrite Hrun.
    split; [by rewrite <- !app_assoc|]. split; [cbn; lia|].
    cbn. intros [Hd Hrs]%andb_prop. rewrite length_app.
    specialize (Hone Hd). specialize (Hall Hrs). cbn in Hone. lia.
  - destruct (IH (fs ++ new) es w1) as (nf & ne & Hrun & Hle & Hall).
    exists (new ++ nf), ne. rewrite Hrun.
    split; [by rewrite <- !app_assoc|]. split; [cbn; lia|].
    cbn. intros [Hd Hrs]%andb_prop. rewrite length_app.
    specialize (Hone Hd). specialize (Hall Hrs). cbn in Hone. lia.
Qed.

End HandlerFacts.

(** C3: the handler does not keep the records inside one SNS envelope
    apart, against the claim, the comment above its own inner loop and what
    it does for direct records.  The [try] of [handler] encloses the loop
    over the S3 records of the envelope, so the first inner record that
    fails ends the envelope.  Here the first inner record fails (its object
    is not in the source bucket) and the second, which is processed without
    error on its own, is never processed: no call is made for it, and of the
    two items the response counts one.  Sent as two direct records of one
    event, the same two records are both handled: the second is copied and
    the response counts one result and one error. *)
Theorem sns_envelope_drops_sibling_records :
  let failing := Scenario.notification (Scenario.part "0") in
  let sound := Scenario.notification (Scenario.part "1") in
  let enveloped := handler Scenario.cfg no_faults
                     [Sns (Some [failing; sound])] Scenario.w0 in
  let direct := handler Scenario.cfg no_faults
                  [Direct failing; Direct sound] Scenario.w0 in
  let d0 := "acct/20240101-20240201/20240115T120000Z/part-0.csv.gz" in
  let d1 := "acct/20240101-20240201/20240115T120000Z/part-1.csv.gz" in
  let result1 := {| source := "s3://src/" +:+ Scenario.part "1";
                    destination := "s3://dst/" +:+ d1;
                    copied_data_files := None |} in
  length (item_records [Sns (Some [failing; sound])]) = 2
  ∧ enveloped.2 = Returns {| statusCode := 207; processed := 0; errors := 1;
                             files := [];
                             error_details := Some [ClientError "NoSuchKey"] |}
  ∧ new_calls Scenario.w0 enveloped.1
    = [(S3CopyObject "src" (Scenario.part "0") "dst" d0,
        Some (ClientError "NoSuchKey"))]
  ∧ (process_record Scenario.cfg no_faults sound enveloped.1).2
    = Returns result1
  ∧ direct.2 = Returns {| statusCode := 207; processed := 1; errors := 1;
                          files := [result1];
                          error_details := Some [ClientError "NoSuchKey"] |}
  ∧ filter (λ ev, is_copy ev.1 = true) (new_calls Scenario.w0 direct.1)
    = [(S3CopyObject "src" (Scenario.part "0") "dst" d0,
        Some (ClientError "NoSuchKey"));
       (S3CopyObject "src" (Scenario.part "1") "dst" d1, None)].
Proof. vm_compute. repeat split; reflexivity. Qed.

(** What does hold, record by record of the event: with the destination
    bucket configured the handler returns a response for every event; a
    failure while processing one record of the event (a direct S3 record,
    or an SNS envelope as a whole) never prevents the records after it from
    being processed: they are handled from the world, the results and the
    errors the failing record left; the response reports the number of
    results and the number of errors, at most one error per record of the
    event, and for an event of direct S3 records these two counts add up to
    the number of records. *)
Lemma event_records_handled_in_turn (cfg : config) (flt : faults)
    (event : list record) (w : world) :
  Str.truthy (DESTINATION_BUCKET cfg) = true →
  (∃ w' resp,
     handler cfg flt event w = (w', Returns resp)
     ∧ processed resp = length (files resp)
     ∧ errors resp ≤ length event
     ∧ (statusCode resp = 200 ↔ errors resp = 0)
     ∧ (forallb is_direct event = true →
        processed resp + errors resp = length event))
  ∧ (∀ before r after,
       event = before ++ r :: after →
       ∃ w1 files1 errors1 w2 files2 raised,
         handle_records cfg flt before [] [] w = (w1, (files1, errors1))
         ∧ try_record cfg flt r files1 w1 = (w2, (files2, raised))
         ∧ handle_records cfg flt event [] [] w
           = handle_records cfg flt after files2
               (errors1 ++ option_list raised) w2).
Proof.
  intros Hbucket. split.
  - unfold handler. rewrite Hbucket. cbn [negb].
    destruct (handle_records_counts cfg flt event [] [] w)
      as (nf & ne & Hrun & Hle & Hall).
    destruct (handle_records cfg flt event [] [] w) as [w' [fs es]].
    cbn in Hrun. injection Hrun as -> ->.
    eexists _, _. split; [done|]. cbn.
    split; [done|]. split; [done|]. split; [|done].
    destruct ne; cbn; split; congruence.
  - intros before r after ->.
    rewrite handle_records_app.
    destruct (handle_records cfg flt before [] [] w) as [w1 [fs1 es1]] eqn:Hb.
    cbn [handle_records].
    destruct (try_record cfg flt r fs1 w1) as [w2 [fs2 oe]] eqn:Htry.
    exists w1, fs1, es1, w2, fs2, oe. split; [done|]. split; [done|].
    destruct oe; [done|]. cbn. by rewrite app_nil_r.
Qed.

Lemma event_records_handled_in_turn_example :
  let event := [Direct (Scenario.notification (Scenario.part "0"));
                Direct (Scenario.notification (Scenario.part "1"))] in
  ∃ w' resp,
    handler Scenario.cfg no_faults event Scenario.w0 = (w', Returns resp)
    ∧ processed resp = length (files resp)
    ∧ errors resp ≤ length event
    ∧ (statusCode resp = 200 ↔ errors resp = 0)
    ∧ (forallb is_direct event = true →
       processed resp + errors resp = length event).
Proof.
  intros event.
  apply (proj1 (event_records_handled_in_turn Scenario.cfg no_faults event
                  Scenario.w0 eq_refl)).
Defined.

Example direct_batch_partial_failure :
  (handler Scenario.cfg no_faults
     [Direct (Scenario.notification (Scenario.part "0"));
      Direct (Scenario.notification (Scenario.part "1"))] Scenario.w0).2
  = Returns {| statusCode := 207; processed := 1; errors := 1;
               files := [{| source := "s3://src/" +:+ Scenario.part "1";
                            destination :=
                              "s3://dst/acct/20240101-20240201/20240115T120000Z/part-1.csv.gz";
                            copied_data_files := None |}];
               error_details := Some [ClientError "NoSuchKey"] |}.
Proof. vm_compute. reflexivity. Qed.

(** * Which key [process_record] classifies *)

Section ClassificationFacts.

Variable cfg : config.
Variable flt : faults.

Lemma copy_report_keys_extends source_bucket prefix_config report_keys :
  ∀ acc w, ∃ trace,
    calls (copy_report_keys cfg flt source_bucket prefix_config report_keys
             acc w).1 = calls w ++ trace.
Proof.
  induction report_keys as [|rk rest IH]; intros acc w.
  { exists []. cbn. by rewrite app_nil_r. }
  cbn [copy_report_keys].
  set (d := calculate_destination_key rk prefix_config).
  assert (Hcopy : ∀ wl, ∃ trace,
    calls (match copy_object flt source_bucket rk (DESTINATION_BUCKET cfg) d
                   wl with
           | (w2, Returns _) =>
               copy_report_keys cfg flt source_bucket prefix_config rest
                 (acc ++ [d]) w2
           | (w2, Raises _) =>
               copy_report_keys cfg flt source_bucket prefix_config rest acc w2
           end).1 = calls wl ++ trace).
  { intros wl. unfold copy_object, S3.copy_object, answer.
    destruct (copy_object_fault flt _ _ _ _) as [e|];
      [|destruct (bucket_of wl source_bucket !! rk) as [body|]];
      match goal with
      | |- ∃ _, calls (copy_report_keys _ _ _ _ _ ?acc' ?w').1 = _ =>
          destruct (IH acc' w') as [trace Htrace];
          eexists; rewrite Htrace; cbn; rewrite <- app_assoc; reflexivity
      end. }
  unfold S3.head_object, answer.
  destruct (head_object_fault flt _ _) as [[code|name]|].
  - destruct (Hcopy (log (S3HeadObject (DESTINATION_BUCKET cfg) d)
                        (Some (ClientError code)) w)) as [trace Htrace].
    eexists. rewrite Htrace. cbn. rewrite <- app_assoc. reflexivity.
  - by eexists.
  - destruct (bucket_of w (DESTINATION_BUCKET cfg) !! d).
    + destruct (IH (acc ++ [d])
                  (log (S3HeadObject (DESTINATION_BUCKET cfg) d) None w))
        as [trace Htrace].
      eexists. rewrite Htrace. cbn. rewrite <- app_assoc. reflexivity.
    + destruct (Hcopy (log (S3HeadObject (DESTINATION_BUCKET cfg) d)
                          (Some (ClientError "404")) w)) as [trace Htrace].
      eexists. rewrite Htrace. cbn. rewrite <- app_assoc. reflexivity.
Qed.

(** the manifest expansion begins by reading the manifest *)
Lemma copy_manifest_data_files_first_call source_bucket key prefix_config w :
  ∃ err trace,
    calls (copy_manifest_data_files cfg flt source_bucket key prefix_config
             w).1
    = calls w ++ (S3GetObject source_bucket key, err) :: trace.
Proof.
  unfold copy_manifest_data_files, S3.get_object, answer.
  destruct (get_object_fault flt source_bucket key) as [e|];
    [by exists (Some e), []|].
  destruct (bucket_of w source_bucket !! key) as [[keys|data| |]|];
    [|by eexists _, []..].
  destruct (default [] keys) as [|rk rks]; [by eexists _, []|].
  destruct (copy_report_keys_extends source_bucket prefix_config (rk :: rks) []
              (log (S3GetObject source_bucket key) None w)) as [trace Ht].
  exists None, trace. rewrite Ht. cbn. by rewrite <- app_assoc.
Qed.

Lemma partition_stage_extends destination_key w :
  ∃ trace,
    calls (partition_stage cfg flt destination_key w).1 = calls w ++ trace
    ∧ (is_assembly_manifest destination_key = false →
       is_assembly_data_file destination_key = false → trace = []).
Proof.
  unfold partition_stage.
  destruct (Str.truthy (GLUE_DATABASE cfg));
    [|exists []; by rewrite app_nil_r].
  assert (Hrun : ∃ trace,
    calls ((if Str.truthy destination_key
            then λ w, let (w1, _) := update_athena_partition cfg flt
                                       (DESTINATION_BUCKET cfg)
                                       destination_key w
                      in (w1, Returns ())
            else ret ()) w).1 = calls w ++ trace).
  { destruct (Str.truthy destination_key);
      [|exists []; by rewrite app_nil_r].
    destruct (update_athena_partition cfg flt (DESTINATION_BUCKET cfg)
                destination_key w) as [w1 r] eqn:Hu.
    apply update_athena_partition_trace in Hu as (trace & Hc & _).
    by exists trace. }
  destruct (is_assembly_manifest destination_key);
    [|destruct (is_assembly_data_file destination_key)].
  - destruct Hrun as [trace Ht]. exists trace. split; [done|]. intros [=].
  - destruct Hrun as [trace Ht]. exists trace. split; [done|]. intros _ [=].
  - exists []. by rewrite app_nil_r.
Qed.

End ClassificationFacts.

(** the first call of [process_record], and its only call when the
    destination key is neither an assembly manifest nor a data file *)
Lemma process_record_first_call cfg flt source_bucket quoted_key w :
  let source_key := unquote_plus quoted_key in
  let prefix_config :=
    if decide (default ∅ (PREFIX_MAPPING cfg !! source_bucket) = ∅)
    then rule "" ""
    else default ∅ (PREFIX_MAPPING cfg !! source_bucket) in
  let destination_key := calculate_destination_key source_key prefix_config in
  let w' := (process_record cfg flt
               {| bucket_name := Some source_bucket;
                  object_key := Some quoted_key |} w).1 in
  fst <$> new_calls w w' !! 0
  = Some (if is_assembly_manifest destination_key
          then S3GetObject source_bucket source_key
          else S3CopyObject source_bucket source_key
                 (DESTINATION_BUCKET cfg) destination_key)
  ∧ (is_assembly_manifest destination_key = false →
     is_assembly_data_file destination_key = false →
     length (new_calls w w') = 1).
Proof.
  revert source_bucket quoted_key. intros sb qk.
  intros source_key prefix_config destination_key w'.
  subst w'. unfold process_record, bind, copy_stage.
  cbn [bucket_name object_key].
  fold source_key. fold prefix_config. fold destination_key.
  destruct (is_assembly_manifest destination_key) eqn:Hm.
  - split; [|intros [=]].
    destruct (copy_manifest_data_files_first_call cfg flt sb source_key
                prefix_config w) as (err & trace & Hc).
    unfold bind.
    destruct (copy_manifest_data_files cfg flt sb source_key prefix_config w)
      as [w1 [copied|e]]; cbn in Hc |- *.
    + destruct (partition_stage_extends cfg flt destination_key w1)
        as (trace' & Hc' & _).
      destruct (partition_stage cfg flt destination_key w1) as [w2 [[]|e]];
        cbn in Hc' |- *;
        rewrite (WorldFacts.new_calls_extends _ _
                   (((S3GetObject sb source_key, err) :: trace) ++ trace'));
        try done; rewrite Hc', Hc; by rewrite <- app_assoc.
    + by rewrite (WorldFacts.new_calls_extends _ _ _ Hc).
  - unfold bind, copy_object, S3.copy_object, answer.
    assert (Hafter : ∀ w1 err,
      calls w1 = calls w ++ [(S3CopyObject sb source_key
                                (DESTINATION_BUCKET cfg) destination_key, err)] →
      ∀ w2, w2 = (partition_stage cfg flt destination_key w1).1 →
      fst <$> new_calls w w2 !! 0
      = Some (S3CopyObject sb source_key (DESTINATION_BUCKET cfg) destination_key)
      ∧ (is_assembly_data_file destination_key = false →
         length (new_calls w w2) = 1)).
    { intros w1 err Hc w2 ->.
      destruct (partition_stage_extends cfg flt destination_key w1)
        as (trace' & Hc' & Hnone).
      rewrite (WorldFacts.new_calls_extends _ _
                 ([(S3CopyObject sb source_key (DESTINATION_BUCKET cfg)
                      destination_key, err)] ++ trace')).
      2: { rewrite Hc', Hc. by rewrite <- app_assoc. }
      split; [done|]. intros Hd. by rewrite (Hnone Hm Hd). }
    destruct (copy_object_fault flt _ _ _ _) as [e|]; cbn.
    { rewrite (WorldFacts.new_calls_extends _ _
                 [(S3CopyObject sb source_key (DESTINATION_BUCKET cfg)
                     destination_key, Some e)]) by done.
      done. }
    destruct (bucket_of w sb !! source_key) as [body|]; cbn.
    + set (w1 := log _ _ (put_object _ _ _ w)).
      destruct (Hafter w1 None eq_refl _ eq_refl) as [H1 H2].
      destruct (partition_stage cfg flt destination_key w1) as [w2 [[]|e]];
        cbn in H1, H2 |- *; split; auto.
    + rewrite (WorldFacts.new_calls_extends _ _
                 [(S3CopyObject sb source_key (DESTINATION_BUCKET cfg)
                     destination_key, Some (ClientError "NoSuchKey"))]) by done.
      done.
Qed.

(** the copy stage hands on the destination key it computed *)
Lemma copy_stage_destination_key cfg flt source_bucket quoted_key w w1
    source_bucket' source_key' destination_key' copied :
  copy_stage cfg flt {| bucket_name := Some source_bucket;
                        object_key := Some quoted_key |} w
  = (w1, Returns (source_bucket', source_key', destination_key', copied)) →
  destination_key'
  = calculate_destination_key (unquote_plus quoted_key)
      (if decide (default ∅ (PREFIX_MAPPING cfg !! source_bucket) = ∅)
       then rule "" ""
       else default ∅ (PREFIX_MAPPING cfg !! source_bucket)).
Proof.
  unfold copy_stage, bind. cbn [bucket_name object_key].
  destruct (is_assembly_manifest _).
  - destruct (copy_manifest_data_files _ _ _ _ _ _) as [w2 [l|e]];
      [|intros [=]]. by intros [= _ _ _ <- _].
  - destruct (copy_object _ _ _ _ _ _) as [w2 [[]|e]];
      [|intros [=]]. by intros [= _ _ _ <- _].
Qed.

(** C10: [process_record] decides by the destination key, the source key
    mapped through the prefix rule of its bucket: its first call reads the
    source object as a manifest when the destination key is an assembly
    manifest, and copies the source object to the destination key otherwise;
    with a catalog configured, once the copy or the expansion returned it
    runs the partition repoint on the destination key when that key is an
    assembly manifest or an assembly data file, and the world it leaves is
    the one the repoint leaves; when the destination key is neither, that
    copy is its only call, so no partition update is tried.
    The destination prefix thereby decides the path taken: a source key of
    two segments is not an assembly manifest, is expanded as one, and its
    partition repointed, under a rule whose destination prefix adds the
    billing-period segment, and is plainly copied under the default rule. *)
Theorem process_record_classifies_destination_key :
  (∀ cfg flt source_bucket quoted_key w,
     let source_key := unquote_plus quoted_key in
     let prefix_config :=
       if decide (default ∅ (PREFIX_MAPPING cfg !! source_bucket) = ∅)
       then rule "" ""
       else default ∅ (PREFIX_MAPPING cfg !! source_bucket) in
     let destination_key := calculate_destination_key source_key prefix_config in
     let record := {| bucket_name := Some source_bucket;
                      object_key := Some quoted_key |} in
     let w' := (process_record cfg flt record w).1 in
     fst <$> new_calls w w' !! 0
     = Some (if is_assembly_manifest destination_key
             then S3GetObject source_bucket source_key
             else S3CopyObject source_bucket source_key
                    (DESTINATION_BUCKET cfg) destination_key)
     ∧ (is_assembly_manifest destination_key = false →
        is_assembly_data_file destination_key = false →
        length (new_calls w w') = 1)
     ∧ (Str.truthy (GLUE_DATABASE cfg) = true →
        is_assembly_manifest destination_key
        || is_assembly_data_file destination_key = true →
        ∀ w1 copied_to,
          copy_stage cfg flt record w = (w1, Returns copied_to) →
          w' = (update_athena_partition cfg flt (DESTINATION_BUCKET cfg)
                  destination_key w1).1))
  ∧ (let key := "20240115T120000Z/report-Manifest.json" in
     let under (destination_prefix : string) : config :=
       {| DESTINATION_BUCKET := "dst";
          PREFIX_MAPPING := {[ "src" := rule "" destination_prefix ]};
          GLUE_DATABASE := "";
          TABLE_MAPPING := [] |} in
     let w := put_object "src" key (ManifestJson (Some [])) Scenario.w0 in
     is_assembly_manifest key = false
     ∧ new_calls w
         (process_record (under "acct/20240101-20240201") no_faults
            {| bucket_name := Some "src"; object_key := Some key |} w).1
       = [(S3GetObject "src" key, None)]
     ∧ new_calls w
         (process_record (under "") no_faults
            {| bucket_name := Some "src"; object_key := Some key |} w).1
       = [(S3CopyObject "src" key "dst" key, None)])
  ∧ (let key := "20240115T120000Z/report-Manifest.json" in
     let data := "20240115T120000Z/part-1.csv.gz" in
     let folder := "acct/20240101-20240201/20240115T120000Z" in
     let under (destination_prefix : string) : config :=
       {| DESTINATION_BUCKET := "dst";
          PREFIX_MAPPING := {[ "src" := rule "" destination_prefix ]};
          GLUE_DATABASE := "cur_db";
          TABLE_MAPPING := [("acct/", "acct_table")] |} in
     let sd : storage_descriptor :=
       {[ "Location" := "s3://dst/" +:+ folder +:+ "/";
          "InputFormat" := "text" ]} in
     let w := put_object "src" key (ManifestJson (Some [data]))
                (put_object "src" data (Bytes "one") Scenario.w0) in
     new_calls w
       (process_record (under "acct/20240101-20240201") no_faults
          {| bucket_name := Some "src"; object_key := Some key |} w).1
     = [(S3GetObject "src" key, None);
        (S3HeadObject "dst" (folder +:+ "/part-1.csv.gz"),
         Some (ClientError "404"));
        (S3CopyObject "src" data "dst" (folder +:+ "/part-1.csv.gz"), None);
        (S3ListObjectsV2 "dst" (folder +:+ "/") (Some 20), None);
        (GlueGetTable "cur_db" "acct_table", None);
        (GlueUpdatePartition "cur_db" "acct_table" ["20240101-20240201"] sd,
         Some (ClientError "EntityNotFoundException"));
        (GlueCreatePartition "cur_db" "acct_table" ["20240101-20240201"] sd,
         None)]
     ∧ new_calls w
         (process_record (under "") no_faults
            {| bucket_name := Some "src"; object_key := Some key |} w).1
       = [(S3CopyObject "src" key "dst" key, None)]).
Proof.
  split; [|split; vm_compute; repeat split; reflexivity].
  intros cfg flt sb qk w source_key prefix_config destination_key record w'.
  destruct (process_record_first_call cfg flt sb qk w) as [Hfirst Honly].
  split; [exact Hfirst|]. split; [exact Honly|].
  intros Hdb Hclass w1 [[[sb' sk'] dk'] copied] Hcopy.
  pose proof (copy_stage_destination_key _ _ _ _ _ _ _ _ _ _ Hcopy) as ->.
  subst w'.
  rewrite (process_record_after_copy _ _ _ _ _ _ _ _ _ Hcopy).
  by apply partition_stage_swallows.
Qed.

Lemma process_record_classifies_destination_key_witness :
  (* an assembly manifest under the destination prefix: after the expansion
     the repoint runs on the destination key *)
  (let record := Scenario.notification Scenario.manifest in
   (process_record Scenario.cfg no_faults record Scenario.w0).1
   = (update_athena_partition Scenario.cfg no_faults "dst"
        "acct/20240101-20240201/20240115T120000Z/report-Manifest.json"
        (copy_stage Scenario.cfg no_faults record Scenario.w0).1).1)
  (* a manifest directly in the billing-period folder: plainly copied, and
     nothing else is called *)
  ∧ (let key := "cur/20240101-20240201/report-Manifest.json" in
     let w := put_object "src" key (ManifestJson None) Scenario.w0 in
     length (new_calls w
               (process_record Scenario.cfg no_faults (Scenario.notification key)
                  w).1) = 1).
Proof.
  split.
  - intros record.
    destruct (proj1 process_record_classifies_destination_key
                Scenario.cfg no_faults "src" Scenario.manifest Scenario.w0)
      as (_ & _ & Hrepoint).
    apply (Hrepoint eq_refl eq_refl
             (copy_stage Scenario.cfg no_faults record Scenario.w0).1
             ("src", Scenario.manifest,
              "acct/20240101-20240201/20240115T120000Z/report-Manifest.json",
              ["acct/20240101-20240201/20240115T120000Z/part-1.csv.gz";
               "acct/20240101-20240201/20240115T120000Z/part-2.csv.gz"])).
    vm_compute. reflexivity.
  - intros key w.
    apply (proj1 process_record_classifies_destination_key
                 Scenario.cfg no_faults "src" key w).
    + vm_compute. reflexivity.
    + vm_compute. reflexivity.
Defined.

(** * The backfill script *)

(** C2: the backfill does not apply the completeness condition of the Lambda
    function.  Where the only object of an assembly folder is its manifest,
    [find_partitions] selects that folder and [main] points the partition of
    the billing period at it, although the folder holds no [.csv.gz] object;
    on the same bucket [update_athena_partition] lists the folder and leaves
    the catalog alone. *)
Theorem backfill_selects_manifest_only_folder :
  let manifest_key :=
    "acct/20240101-20240201/20240115T120000Z/report-Manifest.json" in
  let folder := "acct/20240101-20240201/20240115T120000Z" in
  let env := {| Bootstrap.BUCKET := "dst";
                Bootstrap.GLUE_DATABASE := "cur_db";
                Bootstrap.ACCOUNTS := [("acct/", "acct_table")] |} in
  let w := put_object "dst" manifest_key (ManifestJson None) Scenario.w0 in
  (Bootstrap.find_partitions env no_faults "acct/" w).2
  = Returns {[ "20240101-20240201" := ("20240115T120000Z", folder) ]}
  ∧ data_files_of (S3.keys_under w "dst" (folder +:+ "/")) = []
  ∧ (Bootstrap.main env no_faults w).2 = Returns ()
  ∧ partitions (Bootstrap.main env no_faults w).1
    !! ("cur_db", "acct_table", ["20240101-20240201"])
    = Some {[ "Location" := "s3://dst/" +:+ folder +:+ "/";
              "InputFormat" := "text" ]}
  ∧ partitions
      (update_athena_partition Scenario.cfg no_faults "dst" manifest_key w).1
    !! ("cur_db", "acct_table", ["20240101-20240201"]) = None.
Proof. vm_compute. repeat split; reflexivity. Qed.

(** * More on the key classifier, the table mapping and the path mapper *)

Module SuffixFacts.

Lemma slice_from_add n m s :
  Str.slice_from (n + m) s = Str.slice_from m (Str.slice_from n s).
Proof.
  revert s. induction n as [|n IH]; intros s; [done|].
  destruct s as [|a s]; [by destruct m|]. apply IH.
Qed.

(** a key does not end with both suffixes *)
Lemma manifest_not_data_file key :
  Str.endswith key "Manifest.json" = true → Str.endswith key ".csv.gz" = false.
Proof.
  unfold Str.endswith. intros [Hlen Hm]%andb_true_iff.
  apply Nat.leb_le in Hlen. apply String.eqb_eq in Hm.
  apply andb_false_iff. right. apply String.eqb_neq.
  replace (Str.len key - Str.len ".csv.gz")
    with ((Str.len key - Str.len "Manifest.json") + 6)
    by (change (Str.len "Manifest.json") with 13 in *;
        change (Str.len ".csv.gz") with 7; lia).
  rewrite slice_from_add, Hm. done.
Qed.

End SuffixFacts.

(** X1: [is_assembly_data_file key] is true exactly when the key ends with
    [.csv.gz] and reads [dir/parent/name], where [name] is the last segment
    and [parent], the second-to-last of at least three segments, is an
    assembly id: eight digits, [T], six digits, [Z], as [^\d{8}T\d{6}Z$]
    accepts them (a digit is any decimal digit of Unicode, and one newline
    may follow the [Z]). *)
Theorem is_assembly_data_file_iff (key : string) :
  is_assembly_data_file key = true ↔
    (∃ stem, key = stem +:+ ".csv.gz")
    ∧ ∃ dir parent name,
        key = dir +:+ "/" +:+ parent +:+ "/" +:+ name
        ∧ Str.has Str.slash name = false
        ∧ assembly_id parent.
Proof.
  assert (Hdef : is_assembly_data_file key
                 = Str.endswith key ".csv.gz"
                   && (let parts := Str.split Str.slash key in
                       if length parts <? 3 then false
                       else match Str.index parts (-2) with
                            | Some parent =>
                                Re.match_anchored Re.ASSEMBLY parent
                            | None => false
                            end)).
  { unfold is_assembly_data_file. by destruct (Str.endswith key _). }
  rewrite Hdef, andb_true_iff, StrFacts.endswith_iff.
  by rewrite ReFacts.assembly_folder_shape.
Qed.

Lemma is_assembly_data_file_iff_witness :
  is_assembly_data_file
    "acct/20240101-20240201/20240115T120000Z/part-1.csv.gz" = true.
Proof.
  apply (proj2 (is_assembly_data_file_iff
                  "acct/20240101-20240201/20240115T120000Z/part-1.csv.gz")).
  split.
  - by exists "acct/20240101-20240201/20240115T120000Z/part-1".
  - exists "acct/20240101-20240201", "20240115T120000Z", "part-1.csv.gz".
    split; [reflexivity|]. split; [reflexivity|].
    exists "20240115", "120000".
    split; [ascii_digits ["2"; "0"; "2"; "4"; "0"; "1"; "1"; "5"]|].
    split; [ascii_digits ["1"; "2"; "0"; "0"; "0"; "0"]|].
    left. reflexivity.
Defined.

(** X2: no key is both an assembly manifest and an assembly data file, so
    the two tests of [process_record] never compete for a key. *)
Theorem classifiers_exclusive (key : string) :
  is_assembly_manifest key && is_assembly_data_file key = false.
Proof.
  unfold is_assembly_manifest, is_assembly_data_file.
  destruct (Str.endswith key "Manifest.json") eqn:Hm; [|done].
  by rewrite (SuffixFacts.manifest_not_data_file key Hm), andb_false_r.
Qed.

(** X3: [resolve_table_name] returns the table of the first entry of
    [TABLE_MAPPING], in the order of the mapping, whose prefix the key starts
    with; it returns [None] exactly when the key starts with the prefix of no
    entry. *)
Theorem resolve_table_name_first_match (cfg : config) (key : string) :
  (∀ table_name,
     resolve_table_name cfg key = Some table_name ↔
     ∃ before prefix after,
       TABLE_MAPPING cfg = before ++ (prefix, table_name) :: after
       ∧ Str.startswith key prefix = true
       ∧ ∀ entry, entry ∈ before → Str.startswith key entry.1 = false)
  ∧ (resolve_table_name cfg key = None ↔
     ∀ entry, entry ∈ TABLE_MAPPING cfg → Str.startswith key entry.1 = false).
Proof.
  unfold resolve_table_name.
  induction (TABLE_MAPPING cfg) as [|[p t] mapping [IHs IHn]]; cbn.
  { split.
    - intros t. split; [done|]. intros (before & ? & ? & H & _).
      by destruct before.
    - split; [|done]. intros _ entry H. by apply elem_of_nil in H. }
  destruct (Str.startswith key p) eqn:Hp.
  - split.
    + intros t'. split.
      * intros [= <-]. exists [], p, mapping. repeat split; [done|].
        intros entry H. by apply elem_of_nil in H.
      * intros (before & p' & after & Heq & Hp' & Hbefore).
        destruct before as [|entry before].
        -- by injection Heq as <- <- <-.
        -- injection Heq as <- _.
           specialize (Hbefore (p, t) (list_elem_of_here _ _)). cbn in Hbefore.
           congruence.
    + split; [done|]. intros H.
      specialize (H (p, t) (list_elem_of_here _ _)). cbn in H. congruence.
  - split.
    + intros t'. rewrite IHs. split.
      * intros (before & p' & after & -> & Hp' & Hbefore).
        exists ((p, t) :: before), p', after. repeat split; [done|].
        intros entry [->|H]%elem_of_cons; [done|by apply Hbefore].
      * intros (before & p' & after & Heq & Hp' & Hbefore).
        destruct before as [|entry before].
        -- injection Heq as <- <- <-. congruence.
        -- injection Heq as <- ->. exists before, p', after.
           repeat split; [done|]. intros entry H.
           apply Hbefore. by apply list_elem_of_further.
    + rewrite IHn. split.
      * intros H entry [->|Hin]%elem_of_cons; [done|by apply H].
      * intros H entry Hin. apply H. by apply list_elem_of_further.
Qed.

Lemma resolve_table_name_none (cfg : config) (key : string) :
  resolve_table_name cfg key = None →
  ∀ entry, entry ∈ TABLE_MAPPING cfg → Str.startswith key entry.1 = false.
Proof.
  unfold resolve_table_name.
  induction (TABLE_MAPPING cfg) as [|[p t] mapping IH]; cbn.
  { intros _ entry H. by apply elem_of_nil in H. }
  destruct (Str.startswith key p) eqn:Hp; [done|].
  intros H entry [->|Hin]%elem_of_cons; [done|by apply IH].
Qed.

(** X4: when the destination prefix of the rule is not empty, the destination
    key starts with that prefix, its trailing separators replaced by one;
    hence it resolves to a table whenever [TABLE_MAPPING] has an entry for
    this prefix. *)
Theorem destination_key_under_prefix
    (key : string) (prefix_config : gmap string string) :
  let destination_prefix := default "" (prefix_config !! "destination_prefix") in
  let folder := Str.rstrip Str.slash destination_prefix +:+ "/" in
  Str.truthy destination_prefix = true →
  Str.startswith (calculate_destination_key key prefix_config) folder = true
  ∧ ∀ cfg table_name,
      (folder, table_name) ∈ TABLE_MAPPING cfg →
      is_Some (resolve_table_name cfg
                 (calculate_destination_key key prefix_config)).
Proof.
  intros destination_prefix folder Hd.
  assert (Hunder : Str.startswith (calculate_destination_key key prefix_config)
                     folder = true).
  { unfold calculate_destination_key. fold destination_prefix. rewrite Hd.
    set (rel := if _ && _ then _ else _).
    assert (Happ : ∀ a b c : string, a +:+ b +:+ c = (a +:+ b) +:+ c).
    { intros a b c. induction a as [|x a IH]; [done|].
      by rewrite !StrFacts.append_cons, IH. }
    rewrite Happ. apply StrFacts.startswith_app. }
  split; [done|]. intros cfg table_name Hin.
  destruct (resolve_table_name cfg _) as [t|] eqn:Hr; [eauto|].
  pose proof (resolve_table_name_none _ _ Hr _ Hin) as Hno. cbn in Hno.
  congruence.
Qed.

Lemma destination_key_under_prefix_witness :
  let key := calculate_destination_key (Scenario.part "1") (rule "cur" "acct/") in
  Str.startswith key "acct/" = true
  ∧ ∀ cfg table_name,
      ("acct/", table_name) ∈ TABLE_MAPPING cfg →
      is_Some (resolve_table_name cfg key).
Proof.
  apply (destination_key_under_prefix (Scenario.part "1") (rule "cur" "acct/")).
  vm_compute. reflexivity.
Defined.

(** * What a run leaves of the world *)

Section FollowsFacts.

Variable dest database : string.
Variable mapping : list (string * string).

#[local] Abbreviation follows := (follows dest database mapping).

Lemma follows_refl w : follows w w.
Proof.
  split; try done.
  - exists []. by rewrite app_nil_r.
  - eauto.
  - by left.
Qed.

Lemma follows_trans w1 w2 w3 : follows w1 w2 → follows w2 w3 → follows w1 w3.
Proof.
  intros [[l1 Hc1] Ht1 Ho1 Hk1 Hb1 Hp1] [[l2 Hc2] Ht2 Ho2 Hk2 Hb2 Hp2].
  split.
  - exists (l1 ++ l2). by rewrite Hc2, Hc1, app_assoc.
  - congruence.
  - intros b Hb. by rewrite Ho2, Ho1.
  - eauto.
  - intros k body [b [k' H]]%Hb2.
    destruct (decide (b = dest)) as [->|Hne]; [by eapply Hb1|].
    rewrite Ho1 in H by done. eauto.
  - intros key. destruct (Hp2 key) as [Heq|(t & v & sd0 & loc & ? & ? & Ht & ?)].
    + rewrite Heq. apply Hp1.
    + right. exists t, v, sd0, loc. by rewrite <- Ht1.
Qed.

Lemma follows_log c err w : follows w (log c err w).
Proof.
  split; try done.
  - by exists [(c, err)].
  - eauto.
  - by left.
Qed.

Lemma bucket_of_put_other bucket key body w b :
  b ≠ bucket → bucket_of (put_object bucket key body w) b = bucket_of w b.
Proof.
  intros H. unfold bucket_of. cbn [put_object objects].
  by rewrite lookup_insert_ne.
Qed.

Lemma follows_put_object src_bucket src_key dst_key body w :
  bucket_of w src_bucket !! src_key = Some body →
  follows w (put_object dest dst_key body w).
Proof.
  intros Hsrc. split; try done.
  - exists []. by rewrite app_nil_r.
  - intros b Hb. by apply bucket_of_put_other.
  - intros k Hk. rewrite bucket_of_put. by case_decide.
  - intros k body'. rewrite bucket_of_put. case_decide; [intros [= <-]|]; eauto.
  - by left.
Qed.

Lemma follows_put_partition table value sd0 location w :
  table ∈ mapping.*2 →
  tables w !! (database, table) = Some sd0 →
  follows w (put_partition database table [value]
               (<["Location" := location]> sd0) w).
Proof.
  intros Hin Ht. split; try done.
  - exists []. by rewrite app_nil_r.
  - eauto.
  - intros key. cbn [put_partition partitions].
    destruct (decide (key = (database, table, [value]))) as [->|Hne].
    + right. exists table, value, sd0, location. by rewrite lookup_insert_eq.
    + left. by rewrite lookup_insert_ne.
Qed.

Lemma follows_answer {A} c (r : outcome A) w : follows w (answer c r w).1.
Proof. apply follows_log. Qed.

End FollowsFacts.

Section LambdaFollows.

Variable cfg : config.
Variable flt : faults.

#[local] Abbreviation follows :=
  (follows (DESTINATION_BUCKET cfg) (GLUE_DATABASE cfg) (TABLE_MAPPING cfg)).

Lemma follows_get_object bucket key w :
  follows w (S3.get_object flt bucket key w).1.
Proof. apply follows_log. Qed.

Lemma follows_head_object bucket key w :
  follows w (S3.head_object flt bucket key w).1.
Proof. apply follows_log. Qed.

Lemma follows_list_objects bucket prefix n w :
  follows w (S3.list_objects_v2 flt bucket prefix n w).1.
Proof. apply follows_log. Qed.

Lemma follows_get_table database name w :
  follows w (Glue.get_table flt database name w).1.
Proof. apply follows_log. Qed.

Lemma follows_copy_object source_bucket source_key dest_key w :
  follows w (copy_object flt source_bucket source_key
               (DESTINATION_BUCKET cfg) dest_key w).1.
Proof.
  unfold copy_object, S3.copy_object.
  destruct (copy_object_fault flt _ _ _ _); [apply follows_log|].
  destruct (bucket_of w source_bucket !! source_key) as [body|] eqn:Hsrc;
    [|apply follows_log].
  eapply follows_trans; [by eapply follows_put_object|apply follows_log].
Qed.

Lemma follows_copy_report_keys source_bucket prefix_config report_keys :
  ∀ copied w,
    follows w (copy_report_keys cfg flt source_bucket prefix_config
                 report_keys copied w).1.
Proof.
  induction report_keys as [|rk rest IH]; intros copied w;
    [apply follows_refl|].
  cbn [copy_report_keys].
  pose proof (follows_head_object (DESTINATION_BUCKET cfg)
                (calculate_destination_key rk prefix_config) w) as Hhead.
  destruct (S3.head_object flt _ _ w) as [w1 [[]|[code|name]]]; cbn in Hhead.
  - eapply follows_trans; [done|apply IH].
  - pose proof (follows_copy_object source_bucket rk
                  (calculate_destination_key rk prefix_config) w1) as Hcopy.
    destruct (copy_object flt _ _ _ _ w1) as [w2 [[]|e]]; cbn in Hcopy;
      (eapply follows_trans; [done|]);
      (eapply follows_trans; [done|apply IH]).
  - done.
Qed.

Lemma follows_copy_manifest_data_files source_bucket key prefix_config w :
  follows w (copy_manifest_data_files cfg flt source_bucket key
               prefix_config w).1.
Proof.
  unfold copy_manifest_data_files.
  pose proof (follows_get_object source_bucket key w) as Hget.
  destruct (S3.get_object flt _ _ w) as [w1 [[keys|data| |]|e]]; cbn in Hget;
    [|done..].
  destruct (default [] keys) as [|rk rks]; [done|].
  eapply follows_trans; [done|apply follows_copy_report_keys].
Qed.

Lemma resolve_table_name_in_mapping key table :
  resolve_table_name cfg key = Some table → table ∈ (TABLE_MAPPING cfg).*2.
Proof.
  unfold resolve_table_name.
  induction (TABLE_MAPPING cfg) as [|[p t] mapping IH]; [done|]. cbn.
  destruct (Str.startswith key p).
  - intros [= ->]. apply list_elem_of_here.
  - intros H. by apply list_elem_of_further, IH.
Qed.

Lemma follows_update_or_create table value sd0 location w :
  table ∈ (TABLE_MAPPING cfg).*2 →
  tables w !! (GLUE_DATABASE cfg, table) = Some sd0 →
  follows w (update_or_create cfg flt table value
               (<["Location" := location]> sd0) w).1.
Proof.
  intros Hin Ht.
  assert (Hput : ∀ w1, follows w w1 → ∀ c err,
            follows w (log c err (put_partition (GLUE_DATABASE cfg) table [value]
                         (<["Location" := location]> sd0) w1))).
  { intros w1 H1 c err. eapply follows_trans; [done|].
    eapply follows_trans; [|apply follows_log].
    apply follows_put_partition; [done|].
    by rewrite (follows_tables _ _ _ _ _ H1). }
  assert (Hcreate : ∀ w1, follows w w1 →
            follows w (Glue.create_partition flt (GLUE_DATABASE cfg) table
                         [value] (<["Location" := location]> sd0) w1).1).
  { intros w1 H1. unfold Glue.create_partition, answer.
    destruct (create_partition_fault flt _ _ _);
      [eapply follows_trans; [done|apply follows_log]|].
    destruct (partitions w1 !! _);
      [eapply follows_trans; [done|apply follows_log]|].
    by apply Hput. }
  unfold update_or_create, Glue.update_partition, answer.
  destruct (update_partition_fault flt _ _ _) as [[code|name]|].
  - destruct (String.eqb code "EntityNotFoundException");
      [apply Hcreate|]; apply follows_log.
  - apply follows_log.
  - destruct (partitions w !! _).
    + apply Hput, follows_refl.
    + cbn. apply Hcreate, follows_log.
Qed.

Lemma follows_update_athena_partition bucket key w :
  follows w (update_athena_partition cfg flt bucket key w).1.
Proof.
  rewrite update_athena_partition_unfold.
  destruct (repoint_target cfg key) as [[[table bp] path]|] eqn:Htarget;
    [|apply follows_refl].
  assert (Hin : table ∈ (TABLE_MAPPING cfg).*2).
  { unfold repoint_target in Htarget.
    destruct (resolve_table_name cfg key) as [t|] eqn:Hr; [|done].
    apply resolve_table_name_in_mapping in Hr.
    destruct (negb (Str.truthy t)); [done|].
    destruct (first_billing_period _ 0) as [[? ?]|]; [|done].
    destruct (_ || _); [done|]. by injection Htarget as -> _ _. }
  unfold bind.
  pose proof (follows_list_objects bucket (path +:+ "/") (Some 20) w) as Hlist.
  destruct (S3.list_objects_v2 flt _ _ _ w) as [w1 [keys|e]]; cbn in Hlist;
    [|done].
  destruct (data_files_of keys); [done|].
  unfold Glue.get_table, answer.
  destruct (get_table_fault flt _ _);
    [eapply follows_trans; [done|apply follows_log]|].
  destruct (tables w1 !! _) as [sd0|] eqn:Ht;
    [|eapply follows_trans; [done|apply follows_log]].
  eapply follows_trans; [done|]. eapply follows_trans; [apply follows_log|].
  by apply follows_update_or_create.
Qed.

Lemma follows_partition_stage destination_key w :
  follows w (partition_stage cfg flt destination_key w).1.
Proof.
  unfold partition_stage.
  destruct (Str.truthy (GLUE_DATABASE cfg)); [|apply follows_refl].
  destruct (if is_assembly_manifest destination_key then _ else _) as [key|];
    [|apply follows_refl].
  destruct (Str.truthy key); [|apply follows_refl].
  pose proof (follows_update_athena_partition (DESTINATION_BUCKET cfg) key w)
    as H.
  by destruct (update_athena_partition cfg flt _ key w).
Qed.

Lemma follows_copy_stage r w : follows w (copy_stage cfg flt r w).1.
Proof.
  unfold copy_stage.
  destruct (bucket_name r) as [source_bucket|]; [|apply follows_refl].
  destruct (object_key r) as [quoted_key|]; [|apply follows_refl].
  set (pc := if decide _ then _ else _).
  destruct (is_assembly_manifest _); unfold bind.
  - pose proof (follows_copy_manifest_data_files source_bucket
                  (unquote_plus quoted_key) pc w) as H.
    by destruct (copy_manifest_data_files cfg flt _ _ _ w) as [w1 [?|?]].
  - pose proof (follows_copy_object source_bucket (unquote_plus quoted_key)
                  (calculate_destination_key (unquote_plus quoted_key) pc) w)
      as H.
    by destruct (copy_object flt _ _ _ _ w) as [w1 [?|?]].
Qed.

Lemma follows_process_record r w : follows w (process_record cfg flt r w).1.
Proof.
  unfold process_record, bind.
  pose proof (follows_copy_stage r w) as H.
  destruct (copy_stage cfg flt r w) as [w1 [[[[sb sk] dk] copied]|e]]; [|done].
  pose proof (follows_partition_stage dk w1) as H'.
  destruct (partition_stage cfg flt dk w1) as [w2 [[]|e]];
    by eapply follows_trans.
Qed.

Lemma follows_process_sns_records s3_records :
  ∀ fs w, follows w (process_sns_records cfg flt s3_records fs w).1.
Proof.
  induction s3_records as [|r rest IH]; intros fs w; [apply follows_refl|].
  cbn [process_sns_records].
  pose proof (follows_process_record r w) as H.
  destruct (process_record cfg flt r w) as [w1 [res|e]]; [|done].
  eapply follows_trans; [done|apply IH].
Qed.

Lemma follows_try_record r fs w : follows w (try_record cfg flt r fs w).1.
Proof.
  destruct r as [r|[rs|]]; cbn [try_record].
  - pose proof (follows_process_record r w) as H.
    by destruct (process_record cfg flt r w) as [w1 [res|e]].
  - apply follows_process_sns_records.
  - apply follows_refl.
Qed.

Lemma follows_handle_records records :
  ∀ fs es w, follows w (handle_records cfg flt records fs es w).1.
Proof.
  induction records as [|r rest IH]; intros fs es w; [apply follows_refl|].
  cbn [handle_records].
  pose proof (follows_try_record r fs w) as H.
  destruct (try_record cfg flt r fs w) as [w1 [fs1 [e|]]];
    (eapply follows_trans; [done|apply IH]).
Qed.

Lemma follows_handler event w : follows w (handler cfg flt event w).1.
Proof.
  unfold handler. destruct (negb _); [apply follows_refl|].
  pose proof (follows_handle_records event [] [] w) as H.
  by destruct (handle_records cfg flt event [] [] w) as [w1 [fs es]].
Qed.

End LambdaFollows.

(** X5: whatever the event and the failures, the handler leaves every bucket
    other than the destination bucket as it was, removes no object of the
    destination bucket, and stores there only bodies of objects that existed
    before the invocation. *)
Theorem handler_object_footprint
    (cfg : config) (flt : faults) (event : list record) (w : world) :
  let w' := (handler cfg flt event w).1 in
  (∀ bucket, bucket ≠ DESTINATION_BUCKET cfg →
             bucket_of w' bucket = bucket_of w bucket)
  ∧ (∀ key, is_Some (bucket_of w (DESTINATION_BUCKET cfg) !! key) →
            is_Some (bucket_of w' (DESTINATION_BUCKET cfg) !! key))
  ∧ (∀ key body,
       bucket_of w' (DESTINATION_BUCKET cfg) !! key = Some body →
       ∃ bucket key', bucket_of w bucket !! key' = Some body).
Proof. intros w'. by destruct (follows_handler cfg flt event w). Qed.

(** X6: whatever the event and the failures, the handler leaves the table
    definitions as they were, and a partition it changed is the partition
    of one value of a table of [TABLE_MAPPING] in [GLUE_DATABASE]: it holds
    the storage descriptor of that table with a location of its own. *)
Theorem handler_catalog_footprint
    (cfg : config) (flt : faults) (event : list record) (w : world) :
  let w' := (handler cfg flt event w).1 in
  tables w' = tables w
  ∧ ∀ key,
      partitions w' !! key = partitions w !! key
      ∨ ∃ table value sd0 location,
          key = (GLUE_DATABASE cfg, table, [value])
          ∧ table ∈ (TABLE_MAPPING cfg).*2
          ∧ tables w !! (GLUE_DATABASE cfg, table) = Some sd0
          ∧ partitions w' !! key = Some (<["Location" := location]> sd0).
Proof. intros w'. by destruct (follows_handler cfg flt event w). Qed.

(** * Records that fail, and the catalog switched off *)

Section ObjectsOnlyFacts.

Variable cfg : config.
Variable flt : faults.

Lemma objects_only_refl w : objects_only w w.
Proof. split; [done|]. exists []. by rewrite app_nil_r. Qed.

Lemma objects_only_trans w1 w2 w3 :
  objects_only w1 w2 → objects_only w2 w3 → objects_only w1 w3.
Proof.
  intros [Hp1 (l1 & Hc1 & Hl1)] [Hp2 (l2 & Hc2 & Hl2)].
  split; [congruence|]. exists (l1 ++ l2).
  split; [by rewrite Hc2, Hc1, app_assoc|by apply Forall_app].
Qed.

Lemma objects_only_log c err w :
  is_object_call c = true → objects_only w (log c err w).
Proof.
  intros Hc. split; [done|]. exists [(c, err)]. split; [done|].
  by apply Forall_singleton.
Qed.

Lemma objects_only_new_calls w w' :
  objects_only w w' →
  partitions w' = partitions w
  ∧ ∀ ev, ev ∈ new_calls w w' → is_object_call ev.1 = true.
Proof.
  intros [Hp (l & Hc & Hl)]. split; [done|].
  rewrite (WorldFacts.new_calls_extends _ _ _ Hc).
  by apply Forall_forall.
Qed.

Lemma objects_only_copy_object source_bucket source_key dest_bucket dest_key w :
  objects_only w (copy_object flt source_bucket source_key dest_bucket
                    dest_key w).1.
Proof.
  unfold copy_object, S3.copy_object.
  destruct (copy_object_fault flt _ _ _ _); [by apply objects_only_log|].
  destruct (bucket_of w source_bucket !! source_key) as [body|];
    [|by apply objects_only_log].
  split; [done|]. eexists [_]. split; [done|]. by apply Forall_singleton.
Qed.

Lemma objects_only_copy_report_keys source_bucket prefix_config report_keys :
  ∀ copied w,
    objects_only w (copy_report_keys cfg flt source_bucket prefix_config
                      report_keys copied w).1.
Proof.
  induction report_keys as [|rk rest IH]; intros copied w;
    [apply objects_only_refl|].
  cbn [copy_report_keys].
  assert (Hhead : objects_only w
            (S3.head_object flt (DESTINATION_BUCKET cfg)
               (calculate_destination_key rk prefix_config) w).1)
    by by apply objects_only_log.
  destruct (S3.head_object flt _ _ w) as [w1 [[]|[code|name]]]; cbn in Hhead.
  - eapply objects_only_trans; [done|apply IH].
  - pose proof (objects_only_copy_object source_bucket rk
                  (DESTINATION_BUCKET cfg)
                  (calculate_destination_key rk prefix_config) w1) as Hcopy.
    destruct (copy_object flt _ _ _ _ w1) as [w2 [[]|e]]; cbn in Hcopy;
      (eapply objects_only_trans; [done|]);
      (eapply objects_only_trans; [done|apply IH]).
  - done.
Qed.

Lemma objects_only_copy_manifest_data_files source_bucket key prefix_config w :
  objects_only w (copy_manifest_data_files cfg flt source_bucket key
                    prefix_config w).1.
Proof.
  unfold copy_manifest_data_files.
  assert (Hget : objects_only w (S3.get_object flt source_bucket key w).1)
    by by apply objects_only_log.
  destruct (S3.get_object flt _ _ w) as [w1 [[keys|data| |]|e]]; cbn in Hget;
    [|done..].
  destruct (default [] keys) as [|rk rks]; [done|].
  eapply objects_only_trans; [done|apply objects_only_copy_report_keys].
Qed.

Lemma objects_only_copy_stage r w :
  objects_only w (copy_stage cfg flt r w).1.
Proof.
  unfold copy_stage.
  destruct (bucket_name r) as [source_bucket|]; [|apply objects_only_refl].
  destruct (object_key r) as [quoted_key|]; [|apply objects_only_refl].
  set (pc := if decide _ then _ else _).
  destruct (is_assembly_manifest _); unfold bind.
  - pose proof (objects_only_copy_manifest_data_files source_bucket
                  (unquote_plus quoted_key) pc w) as H.
    by destruct (copy_manifest_data_files cfg flt _ _ _ w) as [w1 [?|?]].
  - pose proof (objects_only_copy_object source_bucket
                  (unquote_plus quoted_key) (DESTINATION_BUCKET cfg)
                  (calculate_destination_key (unquote_plus quoted_key) pc) w)
      as H.
    by destruct (copy_object flt _ _ _ _ w) as [w1 [?|?]].
Qed.

(** a record that raises did so in its copy stage *)
Lemma process_record_raises r w w' e :
  process_record cfg flt r w = (w', Raises e) →
  copy_stage cfg flt r w = (w', Raises e).
Proof.
  unfold process_record, bind.
  destruct (copy_stage cfg flt r w) as [w1 [[[[sb sk] dk] copied]|e1]];
    [|by intros [= -> ->]].
  pose proof (partition_stage_swallows cfg flt dk w1) as [Hr _].
  destruct (partition_stage cfg flt dk w1) as [w2 [[]|e2]]; [intros [=]|].
  cbn in Hr. congruence.
Qed.

End ObjectsOnlyFacts.

(** X7: a record for which [process_record] raises has left the catalog
    alone: the partitions are as before, and every call made for it reads,
    probes or copies an object. *)
Theorem failed_record_leaves_catalog
    (cfg : config) (flt : faults) (r : s3_record) (w w' : world) (e : exn) :
  process_record cfg flt r w = (w', Raises e) →
  partitions w' = partitions w
  ∧ ∀ ev, ev ∈ new_calls w w' → is_object_call ev.1 = true.
Proof.
  intros H%process_record_raises. apply objects_only_new_calls.
  pose proof (objects_only_copy_stage cfg flt r w) as Hc.
  by rewrite H in Hc.
Qed.

Lemma failed_record_leaves_catalog_witness :
  let w' := (process_record Scenario.cfg no_faults
               (Scenario.notification (Scenario.part "0")) Scenario.w0).1 in
  partitions w' = partitions Scenario.w0
  ∧ ∀ ev, ev ∈ new_calls Scenario.w0 w' → is_object_call ev.1 = true.
Proof.
  intros w'.
  apply (failed_record_leaves_catalog Scenario.cfg no_faults
           (Scenario.notification (Scenario.part "0")) Scenario.w0 w'
           (ClientError "NoSuchKey")).
  vm_compute. reflexivity.
Defined.

(** X8: with [GLUE_DATABASE] unset the handler never calls the catalog or
    lists a folder, whatever the event: the partitions are as before and
    every call reads, probes or copies an object. *)
Theorem catalog_disabled
    (cfg : config) (flt : faults) (event : list record) (w : world) :
  Str.truthy (GLUE_DATABASE cfg) = false →
  partitions (handler cfg flt event w).1 = partitions w
  ∧ ∀ ev, ev ∈ new_calls w (handler cfg flt event w).1 →
          is_object_call ev.1 = true.
Proof.
  intros Hoff. apply objects_only_new_calls.
  assert (Hrec : ∀ r w, objects_only w (process_record cfg flt r w).1).
  { intros r w0. unfold process_record, bind.
    pose proof (objects_only_copy_stage cfg flt r w0) as H.
    destruct (copy_stage cfg flt r w0) as [w1 [[[[sb sk] dk] copied]|e1]];
      [|done].
    unfold partition_stage. by rewrite Hoff. }
  assert (Hsns : ∀ rs fs w,
            objects_only w (process_sns_records cfg flt rs fs w).1).
  { induction rs as [|r rs IH]; intros fs w0; [apply objects_only_refl|].
    cbn [process_sns_records]. pose proof (Hrec r w0) as H.
    destruct (process_record cfg flt r w0) as [w1 [res|e]]; [|done].
    eapply objects_only_trans; [done|apply IH]. }
  assert (Htry : ∀ r fs w, objects_only w (try_record cfg flt r fs w).1).
  { intros [r|[rs|]] fs w0; cbn [try_record].
    - pose proof (Hrec r w0) as H.
      by destruct (process_record cfg flt r w0) as [w1 [res|e]].
    - apply Hsns.
    - apply objects_only_refl. }
  assert (Hall : ∀ rs fs es w,
            objects_only w (handle_records cfg flt rs fs es w).1).
  { induction rs as [|r rs IH]; intros fs es w0; [apply objects_only_refl|].
    cbn [handle_records]. pose proof (Htry r fs w0) as H.
    destruct (try_record cfg flt r fs w0) as [w1 [fs1 [e|]]];
      (eapply objects_only_trans; [done|apply IH]). }
  unfold handler. destruct (negb _); [apply objects_only_refl|].
  pose proof (Hall event [] [] w) as H.
  by destruct (handle_records cfg flt event [] [] w) as [w1 [fs es]].
Qed.

Lemma catalog_disabled_witness :
  let cfg := {| DESTINATION_BUCKET := "dst";
                PREFIX_MAPPING := {[ "src" := rule "cur" "acct/" ]};
                GLUE_DATABASE := "";
                TABLE_MAPPING := [("acct/", "acct_table")] |} in
  let event := [Direct (Scenario.notification Scenario.manifest)] in
  partitions (handler cfg no_faults event Scenario.w0).1
  = partitions Scenario.w0
  ∧ ∀ ev, ev ∈ new_calls Scenario.w0 (handler cfg no_faults event Scenario.w0).1 →
          is_object_call ev.1 = true.
Proof.
  intros cfg event.
  apply (catalog_disabled cfg no_faults event Scenario.w0). reflexivity.
Defined.

(** * The record, one by one *)

Section RecordFacts.

Variable cfg : config.
Variable flt : faults.

Lemma update_trace_no_object_call db table bp sd trace r :
  update_trace db table bp sd trace r →
  Forall (λ ev : event, is_object_call ev.1 = false) trace.
Proof. intros []; repeat constructor. Qed.

Lemma repoint_trace_no_object_call bucket key w trace r :
  repoint_trace cfg bucket key w trace r →
  Forall (λ ev : event, is_object_call ev.1 = false) trace.
Proof.
  intros [| | | |????????? Hu]; repeat constructor.
  by eapply update_trace_no_object_call.
Qed.

(** the partition stage keeps the objects and calls no object operation *)
Lemma partition_stage_no_object_call destination_key w :
  objects (partition_stage cfg flt destination_key w).1 = objects w
  ∧ ∃ trace,
      calls (partition_stage cfg flt destination_key w).1 = calls w ++ trace
      ∧ Forall (λ ev : event, is_object_call ev.1 = false) trace.
Proof.
  assert (Hnone : objects w = objects w
            ∧ ∃ trace, calls w = calls w ++ trace
                ∧ Forall (λ ev : event, is_object_call ev.1 = false) trace).
  { split; [done|]. exists []. by rewrite app_nil_r. }
  unfold partition_stage.
  destruct (Str.truthy (GLUE_DATABASE cfg)); [|done].
  destruct (if is_assembly_manifest destination_key then _ else _) as [key|];
    [|done].
  destruct (Str.truthy key); [|done].
  destruct (update_athena_partition cfg flt (DESTINATION_BUCKET cfg) key w)
    as [w1 r] eqn:Hrun.
  apply update_athena_partition_trace in Hrun as (trace & Hc & Ht & Ho & _).
  split; [done|]. exists trace. split; [done|].
  by eapply repoint_trace_no_object_call.
Qed.

End RecordFacts.

(** X9: for a record whose destination key is not an assembly manifest,
    [process_record] returns exactly when the source object exists and the
    copy goes through: then the objects differ from before only in that the
    body of the source object is stored under the destination key of the
    destination bucket, and the result names source and destination without
    a count of data files.  When it raises, the objects are as before and
    the failed copy is the only call made. *)
Theorem plain_copy_all_or_nothing
    (cfg : config) (flt : faults) (source_bucket quoted_key : string)
    (w : world) :
  let source_key := unquote_plus quoted_key in
  let prefix_config :=
    if decide (default ∅ (PREFIX_MAPPING cfg !! source_bucket) = ∅)
    then rule "" ""
    else default ∅ (PREFIX_MAPPING cfg !! source_bucket) in
  let destination_key := calculate_destination_key source_key prefix_config in
  let run := process_record cfg flt
               {| bucket_name := Some source_bucket;
                  object_key := Some quoted_key |} w in
  is_assembly_manifest destination_key = false →
  match run.2 with
  | Returns result =>
      ∃ body,
        bucket_of w source_bucket !! source_key = Some body
        ∧ objects run.1
          = objects (put_object (DESTINATION_BUCKET cfg) destination_key
                       body w)
        ∧ result
          = {| source := "s3://" +:+ source_bucket +:+ "/" +:+ source_key;
               destination := "s3://" +:+ DESTINATION_BUCKET cfg +:+ "/"
                              +:+ destination_key;
               copied_data_files := None |}
  | Raises e =>
      objects run.1 = objects w
      ∧ new_calls w run.1
        = [(S3CopyObject source_bucket source_key (DESTINATION_BUCKET cfg)
              destination_key, Some e)]
  end.
Proof.
  intros source_key prefix_config destination_key run Hm.
  destruct (copy_stage cfg flt
              {| bucket_name := Some source_bucket;
                 object_key := Some quoted_key |} w) as [w1 r1] eqn:Hcopy.
  pose proof Hcopy as Hstage.
  unfold copy_stage in Hcopy. cbn [bucket_name object_key] in Hcopy.
  fold source_key prefix_config destination_key in Hcopy.
  rewrite Hm in Hcopy.
  unfold bind, copy_object, S3.copy_object, answer in Hcopy.
  assert (Hfail : ∀ e,
    (w1, r1) = (log (S3CopyObject source_bucket source_key
                       (DESTINATION_BUCKET cfg) destination_key) (Some e) w,
                Raises e) →
    match run.2 with
    | Returns _ => False
    | Raises e' =>
        objects run.1 = objects w
        ∧ new_calls w run.1
          = [(S3CopyObject source_bucket source_key (DESTINATION_BUCKET cfg)
                destination_key, Some e')]
    end).
  { intros e [= -> ->]. unfold run, process_record, bind. rewrite Hstage.
    cbn. split; [done|]. by apply WorldFacts.new_calls_extends. }
  destruct (copy_object_fault flt _ _ _ _) as [e|].
  { specialize (Hfail e (eq_sym Hcopy)). by destruct (run.2). }
  destruct (bucket_of w source_bucket !! source_key) as [body|] eqn:Hsrc.
  2: { specialize (Hfail _ (eq_sym Hcopy)). by destruct (run.2). }
  clear Hfail. cbn in Hcopy. injection Hcopy as <- <-.
  unfold run. rewrite (process_record_after_copy _ _ _ _ _ _ _ _ _ Hstage).
  cbn [fst snd]. exists body. split; [done|]. split; [|done].
  by rewrite (proj1 (partition_stage_no_object_call cfg flt _ _)).
Qed.

Lemma plain_copy_all_or_nothing_witness :
  let run := process_record Scenario.cfg no_faults
               {| bucket_name := Some "src";
                  object_key := Some (Scenario.part "1") |} Scenario.w0 in
  match run.2 with
  | Returns result =>
      ∃ body,
        bucket_of Scenario.w0 "src" !! unquote_plus (Scenario.part "1")
        = Some body
        ∧ objects run.1
          = objects (put_object "dst"
                       "acct/20240101-20240201/20240115T120000Z/part-1.csv.gz"
                       body Scenario.w0)
        ∧ result
          = {| source := "s3://src/" +:+ Scenario.part "1";
               destination :=
                 "s3://dst/acct/20240101-20240201/20240115T120000Z/part-1.csv.gz";
               copied_data_files := None |}
  | Raises e =>
      objects run.1 = objects Scenario.w0
      ∧ new_calls Scenario.w0 run.1
        = [(S3CopyObject "src" (Scenario.part "1") "dst"
              "acct/20240101-20240201/20240115T120000Z/part-1.csv.gz", Some e)]
  end.
Proof.
  apply (plain_copy_all_or_nothing Scenario.cfg no_faults "src"
           (Scenario.part "1") Scenario.w0).
  vm_compute. reflexivity.
Defined.

Section ExpansionCalls.

Variable cfg : config.
Variable flt : faults.
Variable source_bucket : string.
Variable prefix_config : gmap string string.

Lemma copy_report_keys_calls report_keys :
  ∀ copied w, ∃ trace,
    calls (copy_report_keys cfg flt source_bucket prefix_config report_keys
             copied w).1 = calls w ++ trace
    ∧ Forall (λ ev : event, expansion_call cfg source_bucket prefix_config report_keys ev.1) trace.
Proof.
  induction report_keys as [|rk rest IH]; intros copied w.
  { exists []. cbn. by rewrite app_nil_r. }
  assert (Hmono : ∀ trace,
    Forall (λ ev : event, expansion_call cfg source_bucket prefix_config rest ev.1) trace →
    Forall (λ ev : event, expansion_call cfg source_bucket prefix_config (rk :: rest) ev.1) trace).
  { intros trace Ht. eapply Forall_impl; [done|].
    intros ev (rk' & Hin & H). exists rk'.
    split; [by apply list_elem_of_further|done]. }
  assert (Hhead : ∀ err,
    Forall (λ ev : event, expansion_call cfg source_bucket prefix_config (rk :: rest) ev.1)
      [(S3HeadObject (DESTINATION_BUCKET cfg)
          (calculate_destination_key rk prefix_config), err)]).
  { intros err. apply Forall_singleton. exists rk.
    split; [apply list_elem_of_here|by left]. }
  assert (Hcopy : ∀ err err',
    Forall (λ ev : event, expansion_call cfg source_bucket prefix_config (rk :: rest) ev.1)
      [(S3HeadObject (DESTINATION_BUCKET cfg)
          (calculate_destination_key rk prefix_config), err);
       (S3CopyObject source_bucket rk (DESTINATION_BUCKET cfg)
          (calculate_destination_key rk prefix_config), err')]).
  { intros err err'. apply Forall_cons. split.
    - exists rk. split; [apply list_elem_of_here|by left].
    - apply Forall_singleton. exists rk.
      split; [apply list_elem_of_here|by right]. }
  assert (Hrest : ∀ copied' w1 pre,
    calls w1 = calls w ++ pre →
    Forall (λ ev : event, expansion_call cfg source_bucket prefix_config (rk :: rest) ev.1) pre →
    ∃ trace,
      calls (copy_report_keys cfg flt source_bucket prefix_config rest
               copied' w1).1 = calls w ++ trace
      ∧ Forall (λ ev : event, expansion_call cfg source_bucket prefix_config (rk :: rest) ev.1) trace).
  { intros copied' w1 pre Hpre Hall.
    destruct (IH copied' w1) as (trace & Hc & Ht).
    exists (pre ++ trace). rewrite Hc, Hpre, app_assoc. split; [done|].
    apply Forall_app. split; [done|by apply Hmono]. }
  cbn [copy_report_keys].
  unfold S3.head_object, copy_object, S3.copy_object, answer.
  destruct (head_object_fault flt _ _) as [[code|name]|].
  - destruct (copy_object_fault flt _ _ _ _).
    + eapply Hrest; [cbn; by rewrite <- app_assoc|]. apply Hcopy.
    + destruct (bucket_of _ source_bucket !! rk).
      * eapply Hrest; [cbn; by rewrite <- app_assoc|].
        apply Hcopy.
      * eapply Hrest; [cbn; by rewrite <- app_assoc|].
        apply Hcopy.
  - eexists [_]. split; [done|]. apply Hhead.
  - destruct (bucket_of w (DESTINATION_BUCKET cfg) !! _).
    + eapply Hrest; [done|]. apply Hhead.
    + destruct (copy_object_fault flt _ _ _ _).
      * eapply Hrest; [cbn; by rewrite <- app_assoc|].
        apply Hcopy.
      * destruct (bucket_of _ source_bucket !! rk).
        -- eapply Hrest; [cbn; by rewrite <- app_assoc|].
           apply Hcopy.
        -- eapply Hrest; [cbn; by rewrite <- app_assoc|].
           apply Hcopy.
Qed.

End ExpansionCalls.

(** X10: every call of [copy_manifest_data_files] is the read of the manifest,
    or, for a report key the manifest lists, the probe of its destination
    key or the copy of it to that destination key; the manifest itself is
    copied only if it lists itself. *)
Theorem expansion_calls_report_keys
    (cfg : config) (flt : faults) (source_bucket manifest_key : string)
    (prefix_config : gmap string string) (w : world) (ev : event) :
  ev ∈ new_calls w (copy_manifest_data_files cfg flt source_bucket manifest_key
                      prefix_config w).1 →
  ev.1 = S3GetObject source_bucket manifest_key
  ∨ ∃ report_keys rk,
      bucket_of w source_bucket !! manifest_key
      = Some (ManifestJson (Some report_keys))
      ∧ rk ∈ report_keys
      ∧ (ev.1 = S3HeadObject (DESTINATION_BUCKET cfg)
                  (calculate_destination_key rk prefix_config)
         ∨ ev.1 = S3CopyObject source_bucket rk (DESTINATION_BUCKET cfg)
                    (calculate_destination_key rk prefix_config)).
Proof.
  unfold copy_manifest_data_files, S3.get_object, answer.
  assert (Hone : ∀ err,
    ev ∈ new_calls w (log (S3GetObject source_bucket manifest_key) err w) →
    ev.1 = S3GetObject source_bucket manifest_key).
  { intros err. rewrite (WorldFacts.new_calls_extends _ _ [_]) by done.
    by intros ->%list_elem_of_singleton. }
  destruct (get_object_fault flt _ _) as [e|]; [left; by eapply Hone|].
  destruct (bucket_of w source_bucket !! manifest_key) as [[keys|data| |]|]
    eqn:Hobj; [|left; by eapply Hone..].
  destruct keys as [report_keys|]; [|left; by eapply (Hone None)].
  change (default [] (Some report_keys)) with report_keys.
  destruct report_keys as [|rk rks] eqn:Hrks; [left; by eapply (Hone None)|].
  rewrite <- Hrks in Hobj |- *.
  destruct (copy_report_keys_calls cfg flt source_bucket prefix_config
              report_keys []
              (log (S3GetObject source_bucket manifest_key) None w))
    as (trace & Hc & Ht).
  rewrite (WorldFacts.new_calls_extends _ _
             ((S3GetObject source_bucket manifest_key, None) :: trace)).
  2: { rewrite Hc. cbn. by rewrite <- app_assoc. }
  intros [->|Hin]%elem_of_cons; [by left|]. right.
  rewrite Forall_forall in Ht. destruct (Ht _ Hin) as (rk' & Hrk & H).
  by exists report_keys, rk'.
Qed.

Lemma expansion_calls_report_keys_witness :
  let ev : event :=
    (S3CopyObject "src" (Scenario.part "2") "dst"
       "acct/20240101-20240201/20240115T120000Z/part-2.csv.gz", None) in
  ev.1 = S3GetObject "src" Scenario.manifest
  ∨ ∃ report_keys rk,
      bucket_of Scenario.w0 "src" !! Scenario.manifest
      = Some (ManifestJson (Some report_keys))
      ∧ rk ∈ report_keys
      ∧ (ev.1 = S3HeadObject "dst"
                  (calculate_destination_key rk (rule "cur" "acct/"))
         ∨ ev.1 = S3CopyObject "src" rk "dst"
                    (calculate_destination_key rk (rule "cur" "acct/"))).
Proof.
  intros ev.
  apply (expansion_calls_report_keys Scenario.cfg no_faults "src"
           Scenario.manifest (rule "cur" "acct/") Scenario.w0 ev).
  vm_compute. do 4 apply list_elem_of_further. apply list_elem_of_here.
Defined.

(** X11: a notification for an assembly manifest that cannot be read (the
    read fails or the object is missing), is not JSON, or is a JSON object
    with no report key is still reported as processed: [process_record]
    returns the result without a count of data files, no object is written,
    and the read of the manifest is its only call on an object.  A manifest
    that is JSON but not an object is another matter: [manifest.get] raises
    [AttributeError] after the [try], [process_record] raises it, and the
    handler counts the item as an error; likewise [TypeError] for a
    manifest whose [reportKeys] has no length. *)
Theorem unreadable_manifest_is_processed
    (cfg : config) (flt : faults) (source_bucket quoted_key : string)
    (w : world) :
  let source_key := unquote_plus quoted_key in
  let prefix_config :=
    if decide (default ∅ (PREFIX_MAPPING cfg !! source_bucket) = ∅)
    then rule "" ""
    else default ∅ (PREFIX_MAPPING cfg !! source_bucket) in
  let destination_key := calculate_destination_key source_key prefix_config in
  let record := {| bucket_name := Some source_bucket;
                   object_key := Some quoted_key |} in
  let run := process_record cfg flt record w in
  is_assembly_manifest destination_key = true →
  ((is_Some (get_object_fault flt source_bucket source_key)
    ∨ bucket_of w source_bucket !! source_key = None
    ∨ (∃ data, bucket_of w source_bucket !! source_key = Some (Bytes data))
    ∨ bucket_of w source_bucket !! source_key = Some (ManifestJson None)
    ∨ bucket_of w source_bucket !! source_key = Some (ManifestJson (Some []))) →
   run.2 = Returns
             {| source := "s3://" +:+ source_bucket +:+ "/" +:+ source_key;
                destination := "s3://" +:+ DESTINATION_BUCKET cfg +:+ "/"
                               +:+ destination_key;
                copied_data_files := None |}
   ∧ objects run.1 = objects w
   ∧ ∀ ev, ev ∈ new_calls w run.1 → is_object_call ev.1 = true →
           ev.1 = S3GetObject source_bucket source_key)
  ∧ (get_object_fault flt source_bucket source_key = None →
     ∀ body e,
       (body = JsonValue ∧ e = Exception "AttributeError"
        ∨ body = KeysNotIterable ∧ e = Exception "TypeError") →
       bucket_of w source_bucket !! source_key = Some body →
       run.2 = Raises e
       ∧ objects run.1 = objects w
       ∧ new_calls w run.1 = [(S3GetObject source_bucket source_key, None)]
       ∧ (Str.truthy (DESTINATION_BUCKET cfg) = true →
          (handler cfg flt [Direct record] w).2
          = Returns {| statusCode := 207; processed := 0; errors := 1;
                       files := []; error_details := Some [e] |})).
Proof.
  intros source_key prefix_config destination_key record run Hm. split.
  - intros Hunread.
    assert (Hexp : ∃ err,
      copy_manifest_data_files cfg flt source_bucket source_key prefix_config w
      = (log (S3GetObject source_bucket source_key) err w, Returns [])).
    { unfold copy_manifest_data_files, S3.get_object, answer.
      destruct (get_object_fault flt _ _) as [e|]; [by eexists|].
      destruct Hunread as [[? [=]]|[->|[[data ->]|[->| ->]]]]; by eexists. }
    destruct Hexp as [err Hexp].
    assert (Hstage : copy_stage cfg flt record w
            = (log (S3GetObject source_bucket source_key) err w,
               Returns (source_bucket, source_key, destination_key, []))).
    { unfold copy_stage, record. cbn [bucket_name object_key].
      fold source_key prefix_config destination_key. rewrite Hm.
      unfold bind. by rewrite Hexp. }
    unfold run. rewrite (process_record_after_copy _ _ _ _ _ _ _ _ _ Hstage).
    cbn [fst snd].
    destruct (partition_stage_no_object_call cfg flt destination_key
                (log (S3GetObject source_bucket source_key) err w))
      as (Ho & trace & Hc & Ht).
    split; [done|]. split; [by rewrite Ho|].
    rewrite (WorldFacts.new_calls_extends _ _
               ((S3GetObject source_bucket source_key, err) :: trace)).
    2: { rewrite Hc. cbn. by rewrite <- app_assoc. }
    intros ev [->|Hin]%elem_of_cons Hcall; [done|].
    rewrite Forall_forall in Ht. specialize (Ht _ Hin). congruence.
  - intros Hget body e Hbody Hobj.
    assert (Hrun : run = (log (S3GetObject source_bucket source_key) None w,
                          Raises e)).
    { unfold run, process_record, bind, copy_stage, record.
      cbn [bucket_name object_key].
      fold source_key prefix_config destination_key. rewrite Hm.
      unfold bind, copy_manifest_data_files, S3.get_object, answer.
      rewrite Hget, Hobj. by destruct Hbody as [[-> ->]|[-> ->]]. }
    rewrite Hrun. cbn [fst snd].
    split; [done|]. split; [done|].
    split; [by apply WorldFacts.new_calls_extends|].
    intros Hbucket. unfold handler. rewrite Hbucket.
    cbn [negb handle_records try_record]. fold run. by rewrite Hrun.
Qed.

Lemma unreadable_manifest_is_processed_witness :
  (* the object under the manifest's key is not JSON *)
  (let key := "cur/20240101-20240201/20240115T120000Z/broken-Manifest.json" in
   let w := put_object "src" key (Bytes "{") Scenario.w_forwarded in
   let run := process_record Scenario.cfg no_faults
                {| bucket_name := Some "src"; object_key := Some key |} w in
   run.2 = Returns
             {| source := "s3://src/" +:+ key;
                destination :=
                  "s3://dst/acct/20240101-20240201/20240115T120000Z/broken-Manifest.json";
                copied_data_files := None |}
   ∧ objects run.1 = objects w
   ∧ ∀ ev, ev ∈ new_calls w run.1 → is_object_call ev.1 = true →
           ev.1 = S3GetObject "src" key)
  (* the object under the manifest's key is the JSON list [[]] *)
  ∧ (let key := "cur/20240101-20240201/20240115T120000Z/list-Manifest.json" in
     let w := put_object "src" key JsonValue Scenario.w_forwarded in
     let run := process_record Scenario.cfg no_faults
                  {| bucket_name := Some "src"; object_key := Some key |} w in
     run.2 = Raises (Exception "AttributeError")
     ∧ (handler Scenario.cfg no_faults
          [Direct {| bucket_name := Some "src"; object_key := Some key |}] w).2
       = Returns {| statusCode := 207; processed := 0; errors := 1;
                    files := [];
                    error_details := Some [Exception "AttributeError"] |}).
Proof.
  split.
  - intros key w.
    apply (unreadable_manifest_is_processed Scenario.cfg no_faults "src" key w).
    + vm_compute. reflexivity.
    + right. right. left. exists "{". vm_compute. reflexivity.
  - intros key w.
    destruct (proj2 (unreadable_manifest_is_processed Scenario.cfg no_faults
                       "src" key w eq_refl)
                eq_refl JsonValue (Exception "AttributeError"))
      as (Hraises & _ & _ & Hresp).
    + by left.
    + vm_compute. reflexivity.
    + split; [exact Hraises|]. exact (Hresp eq_refl).
Defined.


Section SnsFacts.

Variable cfg : config.
Variable flt : faults.

Lemma process_sns_records_items s3_records :
  ∀ fs w, ∃ new,
    (process_sns_records cfg flt s3_records fs w).2.1 = fs ++ new
    ∧ length new ≤ length s3_records
    ∧ ((process_sns_records cfg flt s3_records fs w).2.2 = None →
       length new = length s3_records).
Proof.
  induction s3_records as [|r rs IH]; intros fs w; cbn.
  { exists []. by rewrite app_nil_r. }
  destruct (process_record cfg flt r w) as [w1 [result|e]]; cbn.
  - destruct (IH (fs ++ [result]) w1) as (new & Hnew & Hle & Hall).
    exists (result :: new). rewrite Hnew, <- app_assoc.
    split; [done|]. split; [cbn; lia|]. intros H. cbn. by rewrite Hall.
  - exists []. rewrite app_nil_r. split; [done|]. split; [cbn; lia|done].
Qed.

Lemma try_record_items r fs w :
  ∃ new,
    (try_record cfg flt r fs w).2.1 = fs ++ new
    ∧ length new ≤ length (item_records [r])
    ∧ ((try_record cfg flt r fs w).2.2 = None →
       length new = length (item_records [r])).
Proof.
  destruct r as [s3|[s3_records|]]; cbn.
  - destruct (process_record cfg flt s3 w) as [w1 [result|e]]; cbn.
    + by exists [result].
    + exists []. rewrite app_nil_r. split; [done|].
      split; [apply Nat.le_0_l|done].
  - rewrite app_nil_r. apply process_sns_records_items.
  - exists []. by rewrite app_nil_r.
Qed.

Lemma handle_records_items records :
  ∀ fs es w, ∃ new_files new_errors,
    (handle_records cfg flt records fs es w).2
    = (fs ++ new_files, es ++ new_errors)
    ∧ length new_files ≤ length (item_records records)
    ∧ (new_errors = [] → length new_files = length (item_records records)).
Proof.
  induction records as [|r rs IH]; intros fs es w.
  { exists [], []. cbn. by rewrite !app_nil_r. }
  cbn [handle_records].
  destruct (try_record_items r fs w) as (new & Hnew & Hle & Hall).
  assert (Hcons : item_records (r :: rs) = item_records [r] ++ item_records rs).
  { unfold item_records. cbn. by rewrite app_nil_r. }
  rewrite Hcons.
  destruct (try_record cfg flt r fs w) as [w1 [fs1 oe]]. cbn in Hnew, Hall.
  subst fs1. rewrite length_app.
  destruct oe as [e|].
  - destruct (IH (fs ++ new) (es ++ [e]) w1) as (nf & ne & Hrun & Hle' & _).
    exists (new ++ nf), (e :: ne). rewrite Hrun.
    split; [by rewrite <- !app_assoc|].
    split; [rewrite length_app; lia|done].
  - destruct (IH (fs ++ new) es w1) as (nf & ne & Hrun & Hle' & Hall').
    exists (new ++ nf), ne. rewrite Hrun.
    split; [by rewrite <- !app_assoc|].
    rewrite length_app. split; [lia|].
    intros Hne. rewrite Hall, Hall' by done. done.
Qed.

End SnsFacts.

(** X12: in the response of the handler, [processed] is at most the number
    of S3 notifications the event carries, those inside SNS envelopes
    included, and equals it when the status is 200; the status is 200 or
    207; [error_details] is absent exactly with status 200 and no error, and
    otherwise lists as many errors as [errors] counts, at least one. *)
Theorem response_counts_items
    (cfg : config) (flt : faults) (event : list record) (w w' : world)
    (resp : response) :
  handler cfg flt event w = (w', Returns resp) →
  processed resp ≤ length (item_records event)
  ∧ (statusCode resp = 200 → processed resp = length (item_records event))
  ∧ (statusCode resp = 200 ∨ statusCode resp = 207)
  ∧ match error_details resp with
    | None => statusCode resp = 200 ∧ errors resp = 0
    | Some details => statusCode resp = 207 ∧ errors resp = length details
                      ∧ 0 < errors resp
    end.
Proof.
  unfold handler. destruct (negb _); [intros [=]|].
  destruct (handle_records_items cfg flt event [] [] w)
    as (nf & ne & Hrun & Hle & Hall).
  destruct (handle_records cfg flt event [] [] w) as [w1 [fs es]].
  cbn in Hrun. injection Hrun as -> ->. intros [= <- <-]. cbn.
  split; [done|]. destruct ne as [|e ne]; cbn.
  - split; [by intros _; apply Hall|]. split; [by left|done].
  - split; [intros [=]|]. split; [by right|]. repeat split. lia.
Qed.

Lemma response_counts_items_witness :
  let event := [Sns (Some [Scenario.notification (Scenario.part "1");
                           Scenario.notification (Scenario.part "0");
                           Scenario.notification (Scenario.part "2")])] in
  let resp := {| statusCode := 207; processed := 1; errors := 1;
                 files := [{| source := "s3://src/" +:+ Scenario.part "1";
                              destination :=
                                "s3://dst/acct/20240101-20240201/20240115T120000Z/part-1.csv.gz";
                              copied_data_files := None |}];
                 error_details := Some [ClientError "NoSuchKey"] |} in
  processed resp ≤ length (item_records event)
  ∧ (statusCode resp = 200 → processed resp = length (item_records event))
  ∧ (statusCode resp = 200 ∨ statusCode resp = 207)
  ∧ match error_details resp with
    | None => statusCode resp = 200 ∧ errors resp = 0
    | Some details => statusCode resp = 207 ∧ errors resp = length details
                      ∧ 0 < errors resp
    end.
Proof.
  intros event resp.
  apply (response_counts_items Scenario.cfg no_faults event Scenario.w0
           (handler Scenario.cfg no_faults event Scenario.w0).1 resp).
  vm_compute. reflexivity.
Defined.

(** * The repoint and the expansion, continued *)

Section UpsertFacts.

Variable cfg : config.
Variable flt : faults.

(** the segment the scan stops at is a billing period, so not empty *)
Lemma first_billing_period_truthy parts :
  ∀ i0 bp i, first_billing_period parts i0 = Some (bp, i) → Str.truthy bp = true.
Proof.
  induction parts as [|part rest IH]; intros i0 bp i; [done|].
  cbn [first_billing_period].
  destruct (Re.match_anchored Re.BILLING_PERIOD part) eqn:Hm; [|apply IH].
  intros [= <- _]. by destruct part.
Qed.

Lemma update_or_create_upsert table bp sd w :
  update_partition_fault flt (GLUE_DATABASE cfg) table [bp] = None →
  create_partition_fault flt (GLUE_DATABASE cfg) table [bp] = None →
  (update_or_create cfg flt table bp sd w).2 = Returns ()
  ∧ partitions (update_or_create cfg flt table bp sd w).1
    = <[(GLUE_DATABASE cfg, table, [bp]) := sd]> (partitions w)
  ∧ objects (update_or_create cfg flt table bp sd w).1 = objects w
  ∧ tables (update_or_create cfg flt table bp sd w).1 = tables w.
Proof.
  intros Hu Hc.
  unfold update_or_create, Glue.update_partition, Glue.create_partition, answer.
  rewrite Hu. destruct (partitions w !! _) eqn:Hp; [done|].
  cbn. by rewrite Hc, Hp.
Qed.

End UpsertFacts.

(** X13: when the key resolves to a table, a billing period is followed by
    another segment, the listing of the assembly folder shows a data file,
    the table is defined and no call fails otherwise,
    [update_athena_partition] returns, and the partition of the billing
    period then holds the storage descriptor of the table with the location
    of the assembly folder, whether the partition existed or not; objects,
    tables and the other partitions are as before. *)
Theorem repoint_writes_table_descriptor
    (cfg : config) (flt : faults) (bucket key table billing_period k : string)
    (assembly_index : nat) (sd0 : gmap string string) (w : world) :
  let parts := Str.split Str.slash key in
  let partition_path := Str.join "/" (take (assembly_index + 1) parts) in
  let run := update_athena_partition cfg flt bucket key w in
  resolve_table_name cfg key = Some table →
  Str.truthy table = true →
  first_billing_period parts 0 = Some (billing_period, assembly_index) →
  assembly_index < length parts →
  k ∈ data_files_of (take 20 (S3.keys_under w bucket (partition_path +:+ "/"))) →
  tables w !! (GLUE_DATABASE cfg, table) = Some sd0 →
  list_objects_fault flt bucket (partition_path +:+ "/") = None →
  get_table_fault flt (GLUE_DATABASE cfg) table = None →
  update_partition_fault flt (GLUE_DATABASE cfg) table [billing_period] = None →
  create_partition_fault flt (GLUE_DATABASE cfg) table [billing_period] = None →
  run.2 = Returns ()
  ∧ partitions run.1
    = <[(GLUE_DATABASE cfg, table, [billing_period]) :=
          <["Location" := "s3://" +:+ bucket +:+ "/" +:+ partition_path +:+ "/"]>
            sd0]> (partitions w)
  ∧ objects run.1 = objects w
  ∧ tables run.1 = tables w.
Proof.
  intros parts partition_path run Htable Ht Hbp Hlen Hk Hsd Hl Hg Hu Hc.
  unfold run. rewrite update_athena_partition_unfold.
  assert (Htarget : repoint_target cfg key
                    = Some (table, billing_period, partition_path)).
  { unfold repoint_target. rewrite Htable, Ht. cbn [negb].
    fold parts. rewrite Hbp.
    rewrite (first_billing_period_truthy _ _ _ _ Hbp). cbn [negb orb].
    by destruct (Nat.leb_spec (length parts) assembly_index); [lia|]. }
  rewrite Htarget.
  unfold bind, S3.list_objects_v2, Glue.get_table, answer. rewrite Hl.
  destruct (data_files_of _) as [|k' ks] eqn:Hd;
    [by apply elem_of_nil in Hk|].
  rewrite Hg. cbn [log tables]. rewrite Hsd.
  match goal with
  | |- context [update_or_create _ _ _ _ ?sd ?w1] =>
      destruct (update_or_create_upsert cfg flt table billing_period sd w1
                  Hu Hc) as (H1 & H2 & H3 & H4)
  end.
  by rewrite H1, H2, H3, H4.
Qed.

Lemma repoint_writes_table_descriptor_witness :
  let key := "acct/20240101-20240201/20240115T120000Z/part-1.csv.gz" in
  let partition_path :=
    Str.join "/" (take (2 + 1) (Str.split Str.slash key)) in
  let run := update_athena_partition Scenario.cfg no_faults "dst" key
               Scenario.w_forwarded in
  run.2 = Returns ()
  ∧ partitions run.1
    = <[(GLUE_DATABASE Scenario.cfg, "acct_table", ["20240101-20240201"]) :=
          <["Location" := "s3://" +:+ "dst" +:+ "/" +:+ partition_path +:+ "/"]>
            {[ "Location" := "s3://dst/acct/"; "InputFormat" := "text" ]}]>
        (partitions Scenario.w_forwarded)
  ∧ objects run.1 = objects Scenario.w_forwarded
  ∧ tables run.1 = tables Scenario.w_forwarded.
Proof.
  intros key.
  apply (repoint_writes_table_descriptor Scenario.cfg no_faults "dst" key
           "acct_table" "20240101-20240201" key 2
           {[ "Location" := "s3://dst/acct/"; "InputFormat" := "text" ]}
           Scenario.w_forwarded).
  - reflexivity.
  - reflexivity.
  - vm_compute. reflexivity.
  - vm_compute. lia.
  - vm_compute. apply list_elem_of_here.
  - vm_compute. reflexivity.
  - reflexivity.
  - reflexivity.
  - reflexivity.
  - reflexivity.
Defined.

Section AbortFacts.

Variable cfg : config.
Variable flt : faults.
Variable source_bucket : string.
Variable prefix_config : gmap string string.

Lemma copy_report_keys_app before after :
  ∀ copied w,
    copy_report_keys cfg flt source_bucket prefix_config (before ++ after)
      copied w
    = match copy_report_keys cfg flt source_bucket prefix_config before
              copied w with
      | (w1, Returns copied1) =>
          copy_report_keys cfg flt source_bucket prefix_config after copied1 w1
      | (w1, Raises e) => (w1, Raises e)
      end.
Proof.
  induction before as [|rk before IH]; intros copied w; [done|].
  cbn [app copy_report_keys].
  destruct (S3.head_object flt _ _ w) as [w1 [[]|[code|name]]]; [apply IH| |done].
  destruct (copy_object flt _ _ _ _ w1) as [w2 [[]|e]]; apply IH.
Qed.

End AbortFacts.

(** X14: a probe that raises anything but a client error ends the expansion:
    [copy_manifest_data_files] raises that exception right after the failing
    probe, the report keys before it having been handled as usual and the
    ones after it not at all. *)
Theorem expansion_probe_exception_aborts
    (cfg : config) (flt : faults) (source_bucket manifest_key : string)
    (prefix_config : gmap string string) (w : world)
    (before after : list string) (report_key name : string) :
  let run := copy_manifest_data_files cfg flt source_bucket manifest_key
               prefix_config w in
  let probe := S3HeadObject (DESTINATION_BUCKET cfg)
                 (calculate_destination_key report_key prefix_config) in
  get_object_fault flt source_bucket manifest_key = None →
  bucket_of w source_bucket !! manifest_key
  = Some (ManifestJson (Some (before ++ report_key :: after))) →
  (∀ rk name', rk ∈ before →
     head_object_fault flt (DESTINATION_BUCKET cfg)
       (calculate_destination_key rk prefix_config)
     ≠ Some (Exception name')) →
  head_object_fault flt (DESTINATION_BUCKET cfg)
    (calculate_destination_key report_key prefix_config)
  = Some (Exception name) →
  run.2 = Raises (Exception name)
  ∧ ∃ groups,
      new_calls w run.1
      = (S3GetObject source_bucket manifest_key, None)
        :: concat (fst <$> groups) ++ [(probe, Some (Exception name))]
      ∧ Forall2 (λ rk g, file_trace cfg source_bucket rk
                           (calculate_destination_key rk prefix_config)
                           g.1 g.2)
          before groups.
Proof.
  intros run probe Hget Hobj Hbefore Hprobe.
  unfold run, copy_manifest_data_files, S3.get_object, answer.
  rewrite Hget, Hobj. clear Hobj.
  change (default [] (Some ?l)) with l.
  destruct (before ++ report_key :: after) as [|rk0 rks0] eqn:Hkeys;
    [by destruct before|].
  rewrite <- Hkeys. clear Hkeys rk0 rks0.
  rewrite copy_report_keys_app.
  destruct (copy_report_keys_groups cfg flt source_bucket prefix_config before
              [] (log (S3GetObject source_bucket manifest_key) None w) Hbefore)
    as (w1 & groups & Hrun & Hc & Hg & _).
  rewrite Hrun. cbn [copy_report_keys].
  unfold S3.head_object, answer. rewrite Hprobe. cbn [fst snd].
  split; [done|]. exists groups. split; [|done].
  apply WorldFacts.new_calls_extends. cbn [log calls]. rewrite Hc. cbn.
  by rewrite <- !app_assoc.
Qed.

Lemma expansion_probe_exception_aborts_witness :
  (* the endpoint cannot be reached for the second file *)
  let dest2 := "acct/20240101-20240201/20240115T120000Z/part-2.csv.gz" in
  let flt := {|
    get_object_fault := λ _ _, None;
    head_object_fault := λ _ key,
      if String.eqb key dest2 then Some (Exception "EndpointConnectionError")
      else None;
    copy_object_fault := λ _ _ _ _, None;
    list_objects_fault := λ _ _, None;
    get_table_fault := λ _ _, None;
    update_partition_fault := λ _ _ _, None;
    create_partition_fault := λ _ _ _, None |} in
  let run := copy_manifest_data_files Scenario.cfg flt "src" Scenario.manifest
               (rule "cur" "acct/") Scenario.w0 in
  run.2 = Raises (Exception "EndpointConnectionError")
  ∧ ∃ groups,
      new_calls Scenario.w0 run.1
      = (S3GetObject "src" Scenario.manifest, None)
        :: concat (fst <$> groups)
           ++ [(S3HeadObject "dst"
                  (calculate_destination_key (Scenario.part "2")
                     (rule "cur" "acct/")),
                Some (Exception "EndpointConnectionError"))]
      ∧ Forall2 (λ rk g, file_trace Scenario.cfg "src" rk
                           (calculate_destination_key rk (rule "cur" "acct/"))
                           g.1 g.2)
          [Scenario.part "1"] groups.
Proof.
  intros dest2 flt.
  apply (expansion_probe_exception_aborts Scenario.cfg flt "src"
           Scenario.manifest (rule "cur" "acct/") Scenario.w0
           [Scenario.part "1"] [] (Scenario.part "2")
           "EndpointConnectionError").
  - reflexivity.
  - vm_compute. reflexivity.
  - intros rk name' ->%list_elem_of_singleton. vm_compute. congruence.
  - vm_compute. reflexivity.
Defined.

(** * The manifest lookup *)

Module ManifestFacts.

Lemma split_length c s : 0 < length (Str.split c s).
Proof.
  induction s as [|a s IH]; cbn; [lia|].
  destruct (Ascii.eqb a c); cbn; [lia|].
  destruct (Str.split c s); cbn in *; lia.
Qed.

Lemma before_last_none c s :
  StrMore.before_last c s = None ↔ length (Str.split c s) = 1.
Proof.
  induction s as [|a s IH]; cbn; [done|].
  pose proof (split_length c s) as Hpos.
  destruct (StrMore.before_last c s) as [r|].
  - destruct (Ascii.eqb a c); cbn.
    + split; [done|lia].
    + destruct (Str.split c s) as [|p ps]; [cbn in Hpos; lia|].
      cbn in *. split; [done|]. intros H. apply IH in H. congruence.
  - destruct (Ascii.eqb a c); cbn.
    + split; [done|lia].
    + destruct (Str.split c s) as [|p ps]; [cbn in Hpos; lia|].
      cbn in *. split; [intros _; by apply IH|done].
Qed.

(** the folder of a key: what precedes its last segment *)
Lemma rsplit1_head_folder folder name :
  length (Str.split Str.slash name) = 1 →
  StrMore.rsplit1_head Str.slash (folder +:+ "/" +:+ name) = folder.
Proof.
  intros Hname%before_last_none. unfold StrMore.rsplit1_head.
  assert (H : StrMore.before_last Str.slash (folder +:+ "/" +:+ name)
              = Some folder); [|by rewrite H].
  induction folder as [|a folder IH].
  - rewrite StrFacts.append_nil. 
    change ("/" +:+ name) with (String Str.slash name).
    cbn [StrMore.before_last]. by rewrite Hname, Ascii.eqb_refl.
  - rewrite StrFacts.append_cons. cbn [StrMore.before_last]. by rewrite IH.
Qed.

Lemma first_manifest_spec keys :
  match first_manifest keys with
  | Some key =>
      ∃ before after,
        keys = before ++ key :: after
        ∧ Str.endswith key "Manifest.json" = true
        ∧ ∀ k, k ∈ before → Str.endswith k "Manifest.json" = false
  | None => ∀ k, k ∈ keys → Str.endswith k "Manifest.json" = false
  end.
Proof.
  induction keys as [|key rest IH]; cbn.
  { intros k H. by apply elem_of_nil in H. }
  destruct (Str.endswith key "Manifest.json") eqn:Hm.
  - exists [], rest. repeat split; [done|]. intros k H. by apply elem_of_nil in H.
  - destruct (first_manifest rest) as [m|].
    + destruct IH as (before & after & -> & Hend & Hb).
      exists (key :: before), after. repeat split; [done|].
      intros k [->|Hk]%elem_of_cons; [done|by apply Hb].
    + intros k [->|Hk]%elem_of_cons; [done|by apply IH].
Qed.

End ManifestFacts.

(** X15: for a data file [folder/name], [find_assembly_manifest] lists at most
    50 keys under [folder/] and changes no object; it returns the first of
    these keys that ends with [Manifest.json], which is an object of the
    bucket under that folder, and [None] when none of them does. *)
Theorem find_assembly_manifest_first_listed
    (flt : faults) (bucket folder name : string) (w : world) :
  let data_file_key := folder +:+ "/" +:+ name in
  let listed := take 50 (S3.keys_under w bucket (folder +:+ "/")) in
  let run := find_assembly_manifest flt bucket data_file_key w in
  length (Str.split Str.slash name) = 1 →
  list_objects_fault flt bucket (folder +:+ "/") = None →
  new_calls w run.1 = [(S3ListObjectsV2 bucket (folder +:+ "/") (Some 50), None)]
  ∧ objects run.1 = objects w
  ∧ match run.2 with
    | Returns (Some manifest_key) =>
        ∃ before after,
          listed = before ++ manifest_key :: after
          ∧ Str.endswith manifest_key "Manifest.json" = true
          ∧ Str.startswith manifest_key (folder +:+ "/") = true
          ∧ is_Some (bucket_of w bucket !! manifest_key)
          ∧ ∀ k, k ∈ before → Str.endswith k "Manifest.json" = false
    | Returns None =>
        ∀ k, k ∈ listed → Str.endswith k "Manifest.json" = false
    | Raises _ => False
    end.
Proof.
  intros data_file_key listed run Hname Hl.
  unfold run, find_assembly_manifest, data_file_key.
  rewrite (ManifestFacts.rsplit1_head_folder _ _ Hname).
  unfold bind, S3.list_objects_v2, answer. rewrite Hl. cbn [ret fst snd].
  split; [by apply WorldFacts.new_calls_extends|]. split; [done|].
  fold listed. pose proof (ManifestFacts.first_manifest_spec listed) as Hspec.
  destruct (first_manifest listed) as [m|]; [|done].
  destruct Hspec as (before & after & Hlisted & Hend & Hb).
  exists before, after. split; [done|]. split; [done|].
  assert (Hin : m ∈ S3.keys_under w bucket (folder +:+ "/")).
  { apply (WorldFacts.elem_of_take_elem _ 50). fold listed. rewrite Hlisted.
    apply elem_of_app. right. apply list_elem_of_here. }
  apply WorldFacts.keys_under_elem in Hin as [Hobj Hpre]. done.
Qed.

Lemma find_assembly_manifest_first_listed_witness :
  let folder := "acct/20240101-20240201/20240115T120000Z" in
  let w := put_object "dst" (folder +:+ "/report-Manifest.json") (ManifestJson None)
             Scenario.w_forwarded in
  let listed := take 50 (S3.keys_under w "dst" (folder +:+ "/")) in
  let run := find_assembly_manifest no_faults "dst"
               (folder +:+ "/" +:+ "part-1.csv.gz") w in
  new_calls w run.1 = [(S3ListObjectsV2 "dst" (folder +:+ "/") (Some 50), None)]
  ∧ objects run.1 = objects w
  ∧ match run.2 with
    | Returns (Some manifest_key) =>
        ∃ before after,
          listed = before ++ manifest_key :: after
          ∧ Str.endswith manifest_key "Manifest.json" = true
          ∧ Str.startswith manifest_key (folder +:+ "/") = true
          ∧ is_Some (bucket_of w "dst" !! manifest_key)
          ∧ ∀ k, k ∈ before → Str.endswith k "Manifest.json" = false
    | Returns None =>
        ∀ k, k ∈ listed → Str.endswith k "Manifest.json" = false
    | Raises _ => False
    end.
Proof.
  intros folder w.
  apply (find_assembly_manifest_first_listed no_faults "dst" folder
           "part-1.csv.gz" w).
  - vm_compute. reflexivity.
  - reflexivity.
Defined.

(** * The backfill script, continued *)

Module BackfillFacts.
Import Bootstrap Backfill.

Lemma scan_key_versioned key versioned flat :
  (scan_key key (versioned, flat)).1
  = match versioned_entry key with
    | Some (bp, x) => <[bp := default [] (versioned !! bp) ++ [x]]> versioned
    | None => versioned
    end.
Proof.
  unfold scan_key, versioned_entry.
  destruct (first_period_index _ 0) as [[i bp]|]; [|done].
  destruct (Str.split Str.slash key !! (i + 1)) as [next|].
  - destruct (Re.fullmatch Re.ASSEMBLY next); [done|].
    by destruct (Str.endswith key ".csv.gz").
  - by destruct (Str.endswith key ".csv.gz").
Qed.

Lemma scan_versioned keys :
  ∀ acc bp,
    default [] ((foldl (λ acc key, scan_key key acc) acc keys).1 !! bp)
    = default [] (acc.1 !! bp) ++ entries_of bp keys
    ∧ (is_Some ((foldl (λ acc key, scan_key key acc) acc keys).1 !! bp)
       ↔ is_Some (acc.1 !! bp) ∨ entries_of bp keys ≠ []).
Proof.
  induction keys as [|key keys IH]; intros [versioned flat] bp.
  { cbn. rewrite app_nil_r. split; [done|]. split; [by left|by intros [?|?]]. }
  cbn [foldl]. destruct (IH (scan_key key (versioned, flat)) bp) as [IH1 IH2].
  pose proof (scan_key_versioned key versioned flat) as Hscan.
  destruct (scan_key key (versioned, flat)) as [versioned1 flat1].
  cbn [fst] in *. subst versioned1. rewrite IH1, IH2.
  unfold entries_of. cbn [omap list_omap].
  destruct (versioned_entry key) as [[bp' x]|]; [|done].
  destruct (decide (bp' = bp)) as [->|Hne].
  - rewrite lookup_insert_eq. cbn [from_option id]. rewrite <- app_assoc.
    split; [done|]. split; [by right|]. intros _. left. eauto.
  - by rewrite lookup_insert_ne by done.
Qed.

(** ** The stable sort by assembly id *)

Lemma ltb_false_le x y : String.ltb x y = false → String.le y x.
Proof.
  unfold String.ltb, String.le, String.leb.
  rewrite (String.compare_antisym y x).
  by destruct (String.compare x y).
Qed.

Lemma ltb_true_le x y : String.ltb x y = true → String.le x y.
Proof.
  unfold String.ltb, String.le, String.leb. by destruct (String.compare x y).
Qed.

Lemma insert_by_id_perm x l : insert_by_id x l ≡ₚ x :: l.
Proof.
  induction l as [|y l IH]; [done|]. cbn.
  destruct (String.ltb x.1 y.1); [done|].
  by rewrite IH, Permutation_swap.
Qed.

Lemma insert_by_id_sorted x l :
  StronglySorted by_id l → StronglySorted by_id (insert_by_id x l).
Proof.
  induction 1 as [|y l Hl IH Hy]; cbn; [by repeat constructor|].
  destruct (String.ltb x.1 y.1) eqn:Hlt.
  - apply ltb_true_le in Hlt. constructor; [by constructor|].
    constructor; [done|]. eapply Forall_impl; [done|].
    intros z Hz. unfold by_id in *. by etrans.
  - apply ltb_false_le in Hlt. constructor; [done|].
    rewrite insert_by_id_perm. by constructor.
Qed.

Lemma sorted_by_id_spec l :
  sorted_by_id l ≡ₚ l ∧ StronglySorted by_id (sorted_by_id l).
Proof.
  unfold sorted_by_id.
  cut (∀ acc, StronglySorted by_id acc →
         foldl (λ acc x, insert_by_id x acc) acc l ≡ₚ acc ++ l
         ∧ StronglySorted by_id (foldl (λ acc x, insert_by_id x acc) acc l)).
  { intros H. apply (H []). constructor. }
  induction l as [|x l IH]; intros acc Hacc; cbn.
  { by rewrite app_nil_r. }
  destruct (IH (insert_by_id x acc)) as [Hp Hs];
    [by apply insert_by_id_sorted|].
  split; [|done]. rewrite Hp, insert_by_id_perm. cbn.
  first [apply Permutation_middle|symmetry; apply Permutation_middle].
Qed.

Lemma sorted_last_greatest l m :
  StronglySorted by_id l → last l = Some m → ∀ x, x ∈ l → by_id x m.
Proof.
  induction 1 as [|y l Hl IH Hy]; [done|].
  intros Hlast x [->|Hin]%elem_of_cons.
  - destruct l as [|z l];
      [injection Hlast as ->; unfold by_id; reflexivity|].
    rewrite Forall_forall in Hy. apply Hy.
    change (last (y :: z :: l)) with (last (z :: l)) in Hlast.
    apply last_Some in Hlast as [l' ->]. apply elem_of_app. right.
    apply list_elem_of_here.
  - destruct l as [|z l]; [by apply elem_of_nil in Hin|]. by apply IH.
Qed.

Lemma latest_assembly l :
  l ≠ [] →
  ∃ m, last (sorted_by_id l) = Some m ∧ m ∈ l ∧ ∀ x, x ∈ l → by_id x m.
Proof.
  intros Hne. destruct (sorted_by_id_spec l) as [Hp Hs].
  destruct (last (sorted_by_id l)) as [m|] eqn:Hlast.
  - exists m. split; [done|]. split.
    + rewrite <- Hp. apply last_Some in Hlast as [l' ->].
      apply elem_of_app. right. apply list_elem_of_here.
    + intros x Hx. eapply sorted_last_greatest; [done..|]. by rewrite Hp.
  - apply last_None in Hlast. rewrite Hlast in Hp.
    by apply Permutation_nil_l in Hp.
Qed.

(** ** The second loop *)

Lemma choose_all versioned flat (periods : gset string) period :
  set_fold (choose versioned flat) ∅ periods !! period
  = if decide (period ∈ periods)
    then match versioned !! period with
         | Some assemblies => last (sorted_by_id assemblies)
         | None => ("flat",.) <$> flat !! period
         end
    else None.
Proof.
  revert period.
  refine (set_fold_ind_L (λ r (X : gset string), ∀ period,
           r !! period = if decide (period ∈ X)
                         then match versioned !! period with
                              | Some assemblies => last (sorted_by_id assemblies)
                              | None => ("flat",.) <$> flat !! period
                              end
                         else None) (choose versioned flat) ∅ _ _ periods).
  { intros period. rewrite lookup_empty.
    by rewrite decide_False by apply not_elem_of_empty. }
  intros x X r Hx IH period. unfold choose.
  destruct (decide (period = x)) as [->|Hne].
  - rewrite decide_True by by apply elem_of_union_l, elem_of_singleton.
    specialize (IH x). rewrite decide_False in IH by done.
    destruct (versioned !! x) as [l|].
    + destruct (last (sorted_by_id l)); [by rewrite lookup_insert_eq|done].
    + destruct (flat !! x); [by rewrite lookup_insert_eq|done].
  - specialize (IH period).
    assert (Hlook : ∀ r' : gmap string (string * string),
              r' = r ∨ (∃ v, r' = <[x := v]> r) → r' !! period = r !! period).
    { intros r' [->|[v ->]]; [done|]. by rewrite lookup_insert_ne. }
    rewrite (Hlook _).
    + rewrite IH. destruct (decide (period ∈ X)).
      * by rewrite decide_True by by apply elem_of_union_r.
      * rewrite decide_False; [done|].
        by intros [?%elem_of_singleton|?]%elem_of_union.
    + destruct (versioned !! x) as [l|].
      * destruct (last (sorted_by_id l)); eauto.
      * destruct (flat !! x); eauto.
Qed.

Lemma scan_key_flat key versioned flat :
  (scan_key key (versioned, flat)).2
  = match flat_entry key with
    | Some (bp, path) => <[bp := path]> flat
    | None => flat
    end.
Proof.
  unfold scan_key, flat_entry.
  destruct (first_period_index _ 0) as [[i bp]|]; [|done].
  destruct (Str.split Str.slash key !! (i + 1)) as [next|].
  - destruct (Re.fullmatch Re.ASSEMBLY next); [done|].
    by destruct (Str.endswith key ".csv.gz").
  - by destruct (Str.endswith key ".csv.gz").
Qed.

Lemma scan_flat keys :
  ∀ acc bp,
    (foldl (λ acc key, scan_key key acc) acc keys).2 !! bp
    = match last (flat_paths bp keys) with
      | Some path => Some path
      | None => acc.2 !! bp
      end.
Proof.
  induction keys as [|key keys IH]; intros [versioned flat] bp; [done|].
  cbn [foldl]. rewrite IH.
  pose proof (scan_key_flat key versioned flat) as Hscan.
  destruct (scan_key key (versioned, flat)) as [versioned1 flat1].
  cbn [snd] in *. subst flat1.
  unfold flat_paths. cbn [omap list_omap].
  destruct (flat_entry key) as [[bp' path]|]; [|done].
  destruct (decide (bp' = bp)) as [->|Hne].
  - rewrite last_cons, lookup_insert_eq. by destruct (last _).
  - by rewrite lookup_insert_ne by done.
Qed.

Section ScriptFacts.

Variable env : settings.
Variable flt : faults.

#[local] Abbreviation kept :=
  (λ w w', follows (BUCKET env) (GLUE_DATABASE env) (ACCOUNTS env) w w'
           ∧ objects w' = objects w).

Lemma kept_refl w : kept w w.
Proof. split; [apply follows_refl|done]. Qed.

Lemma kept_trans w1 w2 w3 : kept w1 w2 → kept w2 w3 → kept w1 w3.
Proof.
  intros [H1 Ho1] [H2 Ho2]. split; [by eapply follows_trans|congruence].
Qed.

Lemma kept_log c err w : kept w (log c err w).
Proof. split; [apply follows_log|done]. Qed.

Lemma kept_find_partitions prefix w :
  kept w (find_partitions env flt prefix w).1.
Proof.
  unfold find_partitions, bind, S3.list_objects_v2, answer.
  destruct (list_objects_fault flt _ _); [apply kept_log|].
  destruct (foldl _ _ _). apply kept_log.
Qed.

Lemma kept_create_or_update_partition table period location w :
  table ∈ (ACCOUNTS env).*2 →
  kept w (create_or_update_partition env flt table period location w).1.
Proof.
  intros Hin.
  unfold create_or_update_partition, bind, Glue.get_table, answer.
  destruct (get_table_fault flt _ _); [apply kept_log|].
  destruct (tables w !! _) as [sd0|] eqn:Ht; [|apply kept_log].
  set (w1 := log _ _ w).
  assert (Hput : ∀ w2 c err, kept w w2 →
            kept w (log c err
                      (put_partition (GLUE_DATABASE env) table [period]
                         (<["Location" := location]> sd0) w2))).
  { intros w2 c err H2. eapply kept_trans; [done|].
    eapply kept_trans; [|apply kept_log]. split; [|done].
    apply follows_put_partition; [done|].
    by rewrite (follows_tables _ _ _ _ _ (proj1 H2)). }
  assert (Hcreate : ∀ w2, kept w w2 →
    kept w (match Glue.create_partition flt (GLUE_DATABASE env) table [period]
                    (<["Location" := location]> sd0) w2 with
            | (w3, Returns _) => (w3, Returns "created")
            | (w3, Raises e) => (w3, Raises e)
            end).1).
  { intros w2 H2. unfold Glue.create_partition, answer.
    destruct (create_partition_fault flt _ _ _);
      [eapply kept_trans; [done|apply kept_log]|].
    destruct (partitions w2 !! _);
      [eapply kept_trans; [done|apply kept_log]|].
    by apply Hput. }
  unfold Glue.update_partition, answer.
  destruct (update_partition_fault flt _ _ _) as [[code|name]|].
  - destruct (String.eqb code "EntityNotFoundException").
    + apply Hcreate. eapply kept_trans; apply kept_log.
    + eapply kept_trans; apply kept_log.
  - eapply kept_trans; apply kept_log.
  - destruct (partitions w1 !! _).
    + apply Hput, kept_log.
    + cbn. apply Hcreate. eapply kept_trans; apply kept_log.
Qed.

Lemma kept_repoint_all table found periods :
  table ∈ (ACCOUNTS env).*2 →
  ∀ w, kept w (repoint_all env flt table found periods w).1.
Proof.
  intros Hin. induction periods as [|period rest IH]; intros w;
    [apply kept_refl|].
  cbn [repoint_all].
  destruct (found !! period) as [[label path]|]; [|apply kept_refl].
  unfold bind.
  pose proof (kept_create_or_update_partition table period
                ("s3://" +:+ BUCKET env +:+ "/" +:+ path +:+ "/") w Hin) as H.
  destruct (create_or_update_partition env flt _ _ _ w) as [w1 [action|e]];
    [|done].
  eapply kept_trans; [done|apply IH].
Qed.

Lemma kept_sweep accounts :
  accounts ⊆ ACCOUNTS env → ∀ w, kept w (sweep env flt accounts w).1.
Proof.
  induction accounts as [|[prefix table] rest IH]; intros Hsub w;
    [apply kept_refl|].
  cbn [sweep]. unfold bind.
  pose proof (kept_find_partitions prefix w) as Hfind.
  destruct (find_partitions env flt prefix w) as [w1 [found|e]]; [|done].
  assert (Hin : table ∈ (ACCOUNTS env).*2).
  { apply list_elem_of_fmap. exists (prefix, table). split; [done|].
    apply Hsub, list_elem_of_here. }
  pose proof (kept_repoint_all table found
                (merge_sort String.le (elements (dom found))) Hin w1) as Hall.
  destruct (repoint_all env flt _ _ _ w1) as [w2 [[]|e]];
    [|by eapply kept_trans].
  eapply kept_trans; [done|]. eapply kept_trans; [done|].
  apply IH. intros x Hx. apply Hsub. by apply list_elem_of_further.
Qed.

Lemma kept_main w : kept w (main env flt w).1.
Proof.
  assert (Hmain : main env flt w = sweep env flt (ACCOUNTS env) w)
    by (unfold main; by destruct (ACCOUNTS env)).
  rewrite Hmain. by apply kept_sweep.
Qed.

End ScriptFacts.

End BackfillFacts.

(** X16: for every listed key inside an assembly folder of a billing period,
    [find_partitions] maps the billing period to an assembly folder of that
    period found in the listing whose assembly id is greater than or equal
    to the one of the key. *)
Theorem find_partitions_latest_assembly
    (env : Bootstrap.settings) (flt : faults) (prefix : string) (w : world)
    (key billing_period assembly_id path : string) :
  list_objects_fault flt (Bootstrap.BUCKET env) prefix = None →
  key ∈ S3.keys_under w (Bootstrap.BUCKET env) prefix →
  Backfill.versioned_entry key = Some (billing_period, (assembly_id, path)) →
  ∃ found latest latest_path key',
    (Bootstrap.find_partitions env flt prefix w).2 = Returns found
    ∧ found !! billing_period = Some (latest, latest_path)
    ∧ String.le assembly_id latest
    ∧ key' ∈ S3.keys_under w (Bootstrap.BUCKET env) prefix
    ∧ Backfill.versioned_entry key' = Some (billing_period, (latest, latest_path)).
Proof.
  intros Hl Hkey Hentry.
  unfold Bootstrap.find_partitions, bind, S3.list_objects_v2, answer. rewrite Hl.
  set (keys := S3.keys_under w (Bootstrap.BUCKET env) prefix) in *.
  destruct (BackfillFacts.scan_versioned keys (∅, ∅) billing_period) as [Hdef Hsome].
  destruct (foldl _ (∅, ∅) keys) as [versioned flat]. cbn [fst snd] in *.
  rewrite lookup_empty in Hdef. cbn [default app] in Hdef.
  assert (Hin : (assembly_id, path) ∈ Backfill.entries_of billing_period keys).
  { unfold Backfill.entries_of. apply list_elem_of_omap. exists key. split; [done|].
    rewrite Hentry. by rewrite decide_True. }
  destruct (proj2 Hsome) as [l Hv].
  { right. intros Hnil. rewrite Hnil in Hin. by apply elem_of_nil in Hin. }
  rewrite Hv in Hdef. cbn in Hdef. subst l.
  destruct (BackfillFacts.latest_assembly (Backfill.entries_of billing_period keys))
    as ([latest latest_path] & Hlast & Hmem & Hmax).
  { intros Hnil. rewrite Hnil in Hin. by apply elem_of_nil in Hin. }
  apply list_elem_of_omap in Hmem as (key' & Hkey' & Hentry').
  eexists _, latest, latest_path, key'. split; [done|].
  rewrite BackfillFacts.choose_all, Hv, Hlast.
  rewrite decide_True by (apply elem_of_union_l, elem_of_dom; eauto).
  split; [done|]. split; [apply (Hmax _ Hin)|]. split; [done|].
  destruct (Backfill.versioned_entry key') as [[bp x]|]; [|done].
  destruct (decide (bp = billing_period)) as [->|]; [|done].
  by injection Hentry' as ->.
Qed.

Lemma find_partitions_latest_assembly_witness :
  ∃ found latest latest_path key',
    (Bootstrap.find_partitions BackfillScenario.env no_faults "acct/"
       BackfillScenario.w).2 = Returns found
    ∧ found !! "20240101-20240201" = Some (latest, latest_path)
    ∧ String.le "20240115T120000Z" latest
    ∧ key' ∈ S3.keys_under BackfillScenario.w "dst" "acct/"
    ∧ Backfill.versioned_entry key'
      = Some ("20240101-20240201", (latest, latest_path)).
Proof.
  apply (find_partitions_latest_assembly BackfillScenario.env no_faults
           "acct/" BackfillScenario.w BackfillScenario.early
           "20240101-20240201" "20240115T120000Z"
           "acct/20240101-20240201/20240115T120000Z").
  - reflexivity.
  - vm_compute. apply list_elem_of_here.
  - vm_compute. reflexivity.
Defined.

(** X17: a billing period with a listed data file directly in its folder and
    no listed key in an assembly folder is mapped by [find_partitions] to
    the label [flat] and the folder of the billing period of such a data
    file. *)
Theorem find_partitions_flat_fallback
    (env : Bootstrap.settings) (flt : faults) (prefix : string) (w : world)
    (key billing_period path : string) :
  list_objects_fault flt (Bootstrap.BUCKET env) prefix = None →
  key ∈ S3.keys_under w (Bootstrap.BUCKET env) prefix →
  Backfill.flat_entry key = Some (billing_period, path) →
  (∀ key' x, key' ∈ S3.keys_under w (Bootstrap.BUCKET env) prefix →
             Backfill.versioned_entry key' ≠ Some (billing_period, x)) →
  ∃ found path' key',
    (Bootstrap.find_partitions env flt prefix w).2 = Returns found
    ∧ found !! billing_period = Some ("flat", path')
    ∧ key' ∈ S3.keys_under w (Bootstrap.BUCKET env) prefix
    ∧ Backfill.flat_entry key' = Some (billing_period, path').
Proof.
  intros Hl Hkey Hentry Hflat.
  unfold Bootstrap.find_partitions, bind, S3.list_objects_v2, answer. rewrite Hl.
  set (keys := S3.keys_under w (Bootstrap.BUCKET env) prefix) in *.
  destruct (BackfillFacts.scan_versioned keys (∅, ∅) billing_period) as [_ Hsome].
  pose proof (BackfillFacts.scan_flat keys (∅, ∅) billing_period) as Hf.
  destruct (foldl _ (∅, ∅) keys) as [versioned flat]. cbn [fst snd] in *.
  assert (Hnone : versioned !! billing_period = None).
  { apply eq_None_not_Some. rewrite Hsome.
    intros [[? H]|Hne]; [by rewrite lookup_empty in H|]. apply Hne.
    destruct (Backfill.entries_of billing_period keys) as [|x l] eqn:He; [done|].
    assert (Hx : x ∈ Backfill.entries_of billing_period keys)
      by (rewrite He; apply list_elem_of_here).
    apply list_elem_of_omap in Hx as (key' & Hkey' & Hx).
    destruct (Backfill.versioned_entry key') as [[bp x']|] eqn:Hv; [|done].
    destruct (decide (bp = billing_period)) as [->|]; [|done].
    by destruct (Hflat key' x'). }
  assert (Hin : path ∈ Backfill.flat_paths billing_period keys).
  { unfold Backfill.flat_paths. apply list_elem_of_omap. exists key. split; [done|].
    rewrite Hentry. by rewrite decide_True. }
  destruct (last (Backfill.flat_paths billing_period keys)) as [path'|] eqn:Hlast.
  2: { apply last_None in Hlast. rewrite Hlast in Hin.
       by apply elem_of_nil in Hin. }
  pose proof (last_Some_elem_of _ _ Hlast) as Hmem.
  apply list_elem_of_omap in Hmem as (key' & Hkey' & Hentry').
  eexists _, path', key'. split; [done|].
  rewrite BackfillFacts.choose_all, Hnone, Hf.
  rewrite decide_True
    by (apply elem_of_union_r, elem_of_dom; rewrite Hf; eauto).
  split; [done|]. split; [done|].
  destruct (Backfill.flat_entry key') as [[bp p]|]; [|done].
  destruct (decide (bp = billing_period)) as [->|]; [|done].
  by injection Hentry' as ->.
Qed.

Lemma find_partitions_flat_fallback_witness :
  ∃ found path' key',
    (Bootstrap.find_partitions BackfillScenario.env no_faults "acct/"
       BackfillScenario.w).2 = Returns found
    ∧ found !! "20240201-20240301" = Some ("flat", path')
    ∧ key' ∈ S3.keys_under BackfillScenario.w "dst" "acct/"
    ∧ Backfill.flat_entry key' = Some ("20240201-20240301", path').
Proof.
  apply (find_partitions_flat_fallback BackfillScenario.env no_faults
           "acct/" BackfillScenario.w BackfillScenario.overwritten
           "20240201-20240301" "acct/20240201-20240301").
  - reflexivity.
  - vm_compute. do 2 apply list_elem_of_further. apply list_elem_of_here.
  - vm_compute. reflexivity.
  - intros key' x Hin. vm_compute in Hin.
    repeat (apply elem_of_cons in Hin as [->|Hin];
            [vm_compute; congruence|]).
    by apply elem_of_nil in Hin.
Defined.

(** X18: when the table is defined and no call fails otherwise,
    [create_or_update_partition] answers [updated] if the partition existed
    and [created] if not, and in both cases the partition then holds the
    storage descriptor of the table with the given location. *)
Theorem create_or_update_partition_upsert
    (env : Bootstrap.settings) (flt : faults) (table_name billing_period location : string)
    (sd0 : gmap string string) (w : world) :
  let key := (Bootstrap.GLUE_DATABASE env, table_name, [billing_period]) in
  let run := Bootstrap.create_or_update_partition env flt table_name billing_period
               location w in
  get_table_fault flt (Bootstrap.GLUE_DATABASE env) table_name = None →
  update_partition_fault flt (Bootstrap.GLUE_DATABASE env) table_name [billing_period]
  = None →
  create_partition_fault flt (Bootstrap.GLUE_DATABASE env) table_name [billing_period]
  = None →
  tables w !! (Bootstrap.GLUE_DATABASE env, table_name) = Some sd0 →
  run.2 = Returns (match partitions w !! key with
                   | Some _ => "updated"
                   | None => "created"
                   end)
  ∧ partitions run.1 = <[key := <["Location" := location]> sd0]> (partitions w).
Proof.
  intros key run Hg Hu Hc Ht.
  unfold run, Bootstrap.create_or_update_partition, bind, Glue.get_table,
    Glue.update_partition, Glue.create_partition, answer.
  rewrite Hg, Ht, Hu. cbn [log partitions]. fold key.
  destruct (partitions w !! key) eqn:Hp; [done|].
  cbn. rewrite Hc. fold key. by rewrite Hp.
Qed.

Lemma create_or_update_partition_upsert_witness :
  let key := ("cur_db", "acct_table", ["20240101-20240201"]) in
  let location := "s3://dst/acct/20240101-20240201/20240120T120000Z/" in
  let run := Bootstrap.create_or_update_partition BackfillScenario.env no_faults
               "acct_table" "20240101-20240201" location BackfillScenario.w in
  run.2 = Returns (match partitions BackfillScenario.w !! key with
                   | Some _ => "updated"
                   | None => "created"
                   end)
  ∧ partitions run.1
    = <[key := <["Location" := location]>
                 {[ "Location" := "s3://dst/acct/"; "InputFormat" := "text" ]}]>
        (partitions BackfillScenario.w).
Proof.
  intros key location.
  apply (create_or_update_partition_upsert BackfillScenario.env no_faults
           "acct_table" "20240101-20240201" location
           {[ "Location" := "s3://dst/acct/"; "InputFormat" := "text" ]}
           BackfillScenario.w).
  - reflexivity.
  - reflexivity.
  - reflexivity.
  - vm_compute. reflexivity.
Defined.

(** X19: whatever fails, the backfill changes no object and no table
    definition, and a partition it changed is the partition of one value of
    a table of [ACCOUNTS] in [GLUE_DATABASE], holding the storage descriptor
    of that table with a location of its own. *)
Theorem backfill_footprint (env : Bootstrap.settings) (flt : faults) (w : world) :
  let w' := (Bootstrap.main env flt w).1 in
  objects w' = objects w
  ∧ tables w' = tables w
  ∧ ∀ key,
      partitions w' !! key = partitions w !! key
      ∨ ∃ table value sd0 location,
          key = (Bootstrap.GLUE_DATABASE env, table, [value])
          ∧ table ∈ (Bootstrap.ACCOUNTS env).*2
          ∧ tables w !! (Bootstrap.GLUE_DATABASE env, table) = Some sd0
          ∧ partitions w' !! key = Some (<["Location" := location]> sd0).
Proof.
  intros w'. destruct (BackfillFacts.kept_main env flt w) as [[] Ho].
  split; [done|]. split; done.
Qed.

(** ** The backfill stops at the first failure *)

Module FailFast.
Import Bootstrap.

Lemma fail_fast_ret {A} (a : A) w : fail_fast w (ret a w).
Proof. exists []. cbn. by rewrite app_nil_r. Qed.

Lemma fail_fast_answer {A} c (r : outcome A) w : fail_fast w (answer c r w).
Proof.
  eexists [_]. split; [done|]. destruct r as [a|e]; cbn.
  - apply Forall_singleton. by left.
  - by exists [], c.
Qed.

Lemma fail_fast_bind {A B} (m : M A) (k : A → M B) w :
  fail_fast w (m w) → (∀ a w1, fail_fast w1 (k a w1)) →
  fail_fast w (bind m k w).
Proof.
  intros (trace & Hc & Hm) Hk. unfold bind.
  destruct (m w) as [w1 [a|e]]; cbn in *; [|by exists trace].
  destruct (Hk a w1) as (trace' & Hc' & Hk').
  exists (trace ++ trace'). split; [by rewrite Hc', Hc, app_assoc|].
  destruct ((k a w1).2) as [b|e].
  - by apply Forall_app.
  - destruct Hk' as (before & c & -> & Hb). exists (trace ++ before), c.
    split; [by rewrite app_assoc|by apply Forall_app].
Qed.

Section Script.

Variable env : settings.
Variable flt : faults.

Lemma fail_fast_put {A} c (a : A) database table values sd w :
  fail_fast w (answer c (Returns a) (put_partition database table values sd w)).
Proof. eexists [_]. split; [done|]. apply Forall_singleton. by left. Qed.

Lemma fail_fast_create_partition database table values sd w :
  fail_fast w (Glue.create_partition flt database table values sd w).
Proof.
  unfold Glue.create_partition.
  destruct (create_partition_fault flt _ _ _); [apply fail_fast_answer|].
  destruct (partitions w !! _); [apply fail_fast_answer|apply fail_fast_put].
Qed.

Lemma fail_fast_after_passed {A} c err w (run : world * outcome A) :
  passed (c, err) → fail_fast (log c err w) run → fail_fast w run.
Proof.
  intros Hp (trace & Hc & Ht). exists ((c, err) :: trace).
  split; [rewrite Hc; cbn; by rewrite <- app_assoc|].
  destruct (run.2) as [a|e].
  - by apply Forall_cons.
  - destruct Ht as (before & c' & -> & Hb). exists ((c, err) :: before), c'.
    split; [done|by apply Forall_cons].
Qed.

Lemma fail_fast_created (run : world * outcome ()) w :
  fail_fast w run →
  fail_fast w (match run with
               | (w2, Returns _) => (w2, Returns "created")
               | (w2, Raises e) => (w2, Raises e)
               end).
Proof. by destruct run as [w2 [[]|e]]. Qed.

Lemma fail_fast_create_or_update_partition table period location w :
  fail_fast w (create_or_update_partition env flt table period location w).
Proof.
  unfold create_or_update_partition.
  apply fail_fast_bind; [apply fail_fast_answer|]. intros sd0 w1.
  set (sd := <["Location" := location]> sd0).
  assert (Hcreate : fail_fast w1
    (match Glue.create_partition flt (GLUE_DATABASE env) table [period] sd
             (log (GlueUpdatePartition (GLUE_DATABASE env) table [period] sd)
                (Some (ClientError "EntityNotFoundException")) w1) with
     | (w2, Returns _) => (w2, Returns "created")
     | (w2, Raises e) => (w2, Raises e)
     end)).
  { eapply fail_fast_after_passed; [right; by eexists _, _, _, _|].
    apply fail_fast_created, fail_fast_create_partition. }
  unfold Glue.update_partition.
  destruct (update_partition_fault flt _ _ _) as [[code|name]|].
  - unfold answer at 1.
    destruct (String.eqb_spec code "EntityNotFoundException") as [->|Hne];
      [done|apply (fail_fast_answer (A:=string) _ (Raises _))].
  - apply (fail_fast_answer (A:=string) _ (Raises _)).
  - destruct (partitions w1 !! _) eqn:Hp.
    + apply (fail_fast_put _ "updated").
    + unfold answer at 1. done.
Qed.

Lemma fail_fast_repoint_all table found periods :
  (∀ period, period ∈ periods → is_Some (found !! period)) →
  ∀ w, fail_fast w (repoint_all env flt table found periods w).
Proof.
  induction periods as [|period rest IH]; intros Hin w;
    [apply fail_fast_ret|].
  cbn [repoint_all].
  destruct (Hin period (list_elem_of_here _ _)) as [[label path] ->].
  apply fail_fast_bind; [apply fail_fast_create_or_update_partition|].
  intros _ w1. apply IH. intros p Hp. by apply Hin, list_elem_of_further.
Qed.

Lemma fail_fast_find_partitions prefix w :
  fail_fast w (find_partitions env flt prefix w).
Proof.
  unfold find_partitions. apply fail_fast_bind; [apply fail_fast_answer|].
  intros keys w1. destruct (foldl _ _ keys). apply fail_fast_ret.
Qed.

Lemma fail_fast_sweep accounts : ∀ w, fail_fast w (sweep env flt accounts w).
Proof.
  induction accounts as [|[prefix table] rest IH]; intros w;
    [apply fail_fast_ret|].
  cbn [sweep]. apply fail_fast_bind; [apply fail_fast_find_partitions|].
  intros found w1. apply fail_fast_bind; [|intros; apply IH].
  apply fail_fast_repoint_all. intros period.
  rewrite merge_sort_Permutation, elem_of_elements. apply elem_of_dom.
Qed.

End Script.

End FailFast.

(** X20: the backfill stops at the first call that fails, the update that
    finds no partition apart: when [main] raises, the exception is the one
    of the last call logged, and when it returns, the only calls that
    failed are updates answered with [EntityNotFoundException]. *)
Theorem backfill_fail_fast
    (env : Bootstrap.settings) (flt : faults) (w : world) :
  let run := Bootstrap.main env flt w in
  match run.2 with
  | Returns _ => ∀ ev, ev ∈ new_calls w run.1 → passed ev
  | Raises e =>
      ∃ before c,
        new_calls w run.1 = before ++ [(c, Some e)]
        ∧ ∀ ev, ev ∈ before → passed ev
  end.
Proof.
  intros run.
  assert (Hff : fail_fast w run).
  { unfold run, Bootstrap.main. destruct (Bootstrap.ACCOUNTS env) eqn:Ha;
      [apply FailFast.fail_fast_ret|]. apply FailFast.fail_fast_sweep. }
  destruct Hff as (trace & Hc & Ht).
  rewrite (WorldFacts.new_calls_extends _ _ _ Hc).
  destruct (run.2) as [[]|e].
  - by apply Forall_forall.
  - destruct Ht as (before & c & -> & Hb). exists before, c.
    split; [done|]. by apply Forall_forall.
Qed.
